(** * acevalidation: question extraction, reply repair, identifier
      normalisation and coverage analysis

    A shallow embedding of the question-extraction and mapping pipeline of
    the assessment validation tool ([agents/extract_agent.py],
    [agents/mapping_agent.py], [agents/validation_agent.py]).

    Conventions of the embedding.
    - A Python [str] is a list of characters, each character a code point
      below 256 (Rocq's [ascii]); the character classes below are Python's
      restricted to that range.
    - A Python value built from dicts, lists, strings and numbers is a
      [pyval]; a dict is an association list in insertion order with
      distinct keys.
    - A function that can raise returns an [outcome]; [try_except] is the
      [try: ... except Exception: ...] block. A loop whose termination is
      not structural runs on fuel and yields [Diverge] when it runs out;
      [Diverge] is not caught by [try_except].
    - A number that Python holds as a binary float is held here as the
      rational it equals. The division and the multiplication behind a
      coverage percentage round their result to the nearest float
      ([Num.round_float]); the sums and averages of confidence scores are
      exact. *)

From Stdlib Require Import Ascii String List ZArith QArith Qround Qpower.
From Stdlib Require Import Lia Lqa Bool.
From Stdlib Require Import DecimalString DecimalNat.
From stdpp Require Import gmap strings list.
Import ListNotations.

Local Open Scope Z_scope.
Local Open Scope nat_scope.
Local Open Scope list_scope.

(** ** Python strings *)

Module Py.

Abbreviation char := ascii.
Abbreviation str := (list ascii).

(** A literal: [lit "abc"] is the Python string ['abc']. *)
Definition lit (s : string) : str := list_ascii_of_string s.

Definition code (c : char) : nat := nat_of_ascii c.

Definition between (lo hi : nat) (c : char) : bool :=
  (lo <=? code c) && (code c <=? hi).

(** [str.isspace] and the regular expression class [\s]. *)
Definition is_space (c : char) : bool :=
  between 9 13 c || between 28 32 c || (code c =? 133) || (code c =? 160).

(** The regular expression class [\d]: decimal digits. *)
Definition is_decimal (c : char) : bool := between 48 57 c.

(** [str.isdigit]: the decimal digits and the superscripts 1, 2, 3. *)
Definition isdigit (c : char) : bool :=
  is_decimal c || (code c =? 178) || (code c =? 179) || (code c =? 185).

Definition is_upper_az (c : char) : bool := between 65 90 c.
Definition is_lower_az (c : char) : bool := between 97 122 c.

(** [str.lower] on one character. *)
Definition lower_char (c : char) : char :=
  if is_upper_az c || between 192 214 c || between 216 222 c
  then ascii_of_nat (code c + 32) else c.

Definition lower (s : str) : str := map lower_char s.

Definition eqc (a b : char) : bool := code a =? code b.

Fixpoint drop_while (p : char -> bool) (s : str) : str :=
  match s with
  | [] => []
  | c :: s' => if p c then drop_while p s' else s
  end.

Fixpoint take_while (p : char -> bool) (s : str) : str :=
  match s with
  | [] => []
  | c :: s' => if p c then c :: take_while p s' else []
  end.

Definition lstrip (s : str) : str := drop_while is_space s.
Definition rstrip (s : str) : str := rev (drop_while is_space (rev s)).

(** [s.strip()] *)
Definition strip (s : str) : str := rstrip (lstrip s).

(** [s.startswith(p)] *)
Fixpoint startswith (p s : str) : bool :=
  match p, s with
  | [], _ => true
  | a :: p', b :: s' => eqc a b && startswith p' s'
  | _ :: _, [] => false
  end.

(** [s.endswith(p)] *)
Definition endswith (p s : str) : bool := startswith (rev p) (rev s).

(** [sub in s] *)
Fixpoint contains (sub s : str) : bool :=
  startswith sub s ||
  match s with
  | [] => false
  | _ :: s' => contains sub s'
  end.

(** [sep.join(l)] *)
Fixpoint join (sep : str) (l : list str) : str :=
  match l with
  | [] => []
  | [a] => a
  | a :: l' => a ++ sep ++ join sep l'
  end.

Definition nl : str := ["010"%char].

(** [s.split('\n')]: the pieces between newlines, at least one piece. *)
Fixpoint split_nl_go (cur : str) (s : str) : list str :=
  match s with
  | [] => [rev cur]
  | c :: s' =>
      if eqc c "010"%char then rev cur :: split_nl_go [] s'
      else split_nl_go (c :: cur) s'
  end.
Definition split_nl (s : str) : list str := split_nl_go [] s.

(** Python truth of a string: non-empty. *)
Definition nonempty (s : str) : bool :=
  match s with [] => false | _ => true end.

(** [str(n)] for a natural number. *)
Definition str_of_nat (n : nat) : str :=
  list_ascii_of_string (NilEmpty.string_of_uint (Nat.to_uint n)).

Definition len (s : str) : Z := Z.of_nat (length s).

End Py.
Import Py.


(** Equality test on strings, [a == b]. *)
Fixpoint eqs (a b : str) : bool :=
  match a, b with
  | [], [] => true
  | x :: a', y :: b' => eqc x y && eqs a' b'
  | _, _ => false
  end.

(** ** Python values and dicts *)

(** The floats that are no numbers: [inf], [-inf], [nan]. *)
Inductive nonfinite : Type := PosInf | NegInf | NaN.

#[warnings="-register-all"]
Inductive pyval : Type :=
| PNone
| PBool (b : bool)
| PInt (z : Z)
| PFloat (q : Q)
| PNonFinite (x : nonfinite)
| PStr (s : str)
| PList (l : list pyval)
| PDict (d : list (str * pyval)).

Abbreviation dict := (list (str * pyval)).

(** [d.get(k)] *)
Fixpoint dict_get (k : str) (d : dict) : option pyval :=
  match d with
  | [] => None
  | (k', v) :: d' => if eqs k k' then Some v else dict_get k d'
  end.

(** [k in d] *)
Definition dict_has (k : str) (d : dict) : bool :=
  match dict_get k d with Some _ => true | None => false end.

(** [d[k] = v]: the value is replaced in place, a new key goes last. *)
Fixpoint dict_set (k : str) (v : pyval) (d : dict) : dict :=
  match d with
  | [] => [(k, v)]
  | (k', v') :: d' =>
      if eqs k k' then (k', v) :: d' else (k', v') :: dict_set k v d'
  end.

(** [d.setdefault(k, v)], for its effect on [d]. *)
Definition dict_setdefault (k : str) (v : pyval) (d : dict) : dict :=
  if dict_has k d then d else dict_set k v d.

(** [d.get(k, default)] *)
Definition dict_get_or (k : str) (default : pyval) (d : dict) : pyval :=
  match dict_get k d with Some v => v | None => default end.

(** Python truth of a value, as [if v:] and [not v] read it. *)
Definition truthy (v : pyval) : bool :=
  match v with
  | PNone => false
  | PBool b => b
  | PInt z => negb (z =? 0)%Z
  | PFloat q => negb (Qeq_bool q 0)
  | PNonFinite _ => true
  | PStr s => nonempty s
  | PList l => match l with [] => false | _ => true end
  | PDict d => match d with [] => false | _ => true end
  end.

(** ** Outcomes of a call *)

Inductive exn : Type :=
| FileNotFoundError
| ValueError
| RuntimeError
| TypeError
| AttributeError
| KeyError
| JSONDecodeError
| IOError.

Inductive outcome (A : Type) : Type :=
| Ok (a : A)
| Raise (e : exn)
| Diverge.
Arguments Ok {A} a.
Arguments Raise {A} e.
Arguments Diverge {A}.

Definition bind {A B : Type} (c : outcome A) (k : A -> outcome B) : outcome B :=
  match c with
  | Ok a => k a
  | Raise e => Raise e
  | Diverge => Diverge
  end.

Notation "'do' x <- c 'in' k" := (bind c (fun x => k))
  (at level 10, x name, c at level 100, k at level 200).

(** [try: body except Exception: handler] *)
Definition try_except {A : Type} (body : outcome A) (handler : exn -> outcome A)
  : outcome A :=
  match body with
  | Ok a => Ok a
  | Raise e => handler e
  | Diverge => Diverge
  end.

(** ** agents/extract_agent.py *)

Module Extract.

(** The text helpers of [ExtractAgent]. Each of [_classify_question_type],
    [_extract_choices], [_get_full_question_text] and
    [_format_assessment_text] wraps its whole body in [try/except] and
    returns a default from the handler, so each is a total function of its
    arguments. [_extract_questions_with_llm] is the extraction through the
    external service, only reached with an API key. *)
Class Helpers : Type := {
  _classify_question_type : str -> str;
  _extract_choices : str -> str -> list str;
  _get_full_question_text : list str -> nat -> str;
  _format_assessment_text : str -> str;
  _extract_questions_with_llm : str -> outcome (list pyval)
}.

(** What [execute] reads from the file system: [os.path.exists] and the
    three readers, which re-raise what goes wrong. *)
Class FileSystem : Type := {
  path_exists : str -> bool;
  _extract_from_docx : str -> outcome str;
  _extract_from_pdf : str -> outcome str;
  _extract_from_doc : str -> outcome str
}.

(** *** Chunk planning *)

(** The lookahead [(?=\d+\.)] at the head of [s]. *)
Definition at_number_token (s : str) : bool :=
  match take_while is_decimal s, drop_while is_decimal s with
  | _ :: _, c :: _ => eqc c "."%char
  | _, _ => false
  end.

(** [re.split(r'(?=\d+\.)', text)]: the text is cut before every position
    where the lookahead holds, the position 0 included (the first piece is
    then empty). *)
Fixpoint re_split_go (cur : str) (s : str) : list str :=
  match s with
  | [] => [rev cur]
  | c :: s' =>
      if at_number_token s then rev cur :: re_split_go [c] s'
      else re_split_go (c :: cur) s'
  end.
Definition re_split_numbers (text : str) : list str := re_split_go [] text.

Definition substantial (q : str) : bool := nonempty q && (10 <? length q).

Definition _split_by_questions (text : str) : list str :=
  filter (fun q => substantial q = true) (map strip (re_split_numbers text)).

(** The loop of [_group_into_chunks], on the pair [(chunks, current)]. *)
Fixpoint group_loop (max_size : Z) (questions : list str)
  (chunks : list str) (current : str) : list str * str :=
  match questions with
  | [] => (chunks, current)
  | q :: rest =>
      if (max_size <? len (current ++ q))%Z && nonempty current
      then group_loop max_size rest (chunks ++ [strip current]) q
      else group_loop max_size rest chunks
             (if nonempty current then current ++ nl ++ q else q)
  end.

Definition _group_into_chunks (questions : list str) (max_size : Z) : list str :=
  let '(chunks, current) := group_loop max_size questions [] [] in
  if nonempty current then chunks ++ [strip current] else chunks.

(** *** Line recognisers *)

(** [\s*(.+?)$] on the rest [r] of a line (a line holds no newline): the
    text after the blanks; when only blanks are left the last of them is
    given back to the group. *)
Definition lazy_rest (r : str) : option str :=
  match drop_while is_space r with
  | (_ :: _) as t => Some t
  | [] => match rev r with c :: _ => Some [c] | [] => None end
  end.

(** [(\d+)\s*(.+?)$]: when nothing follows the digits the last digit is
    given back to the text group. *)
Definition digits_then_rest (r : str) : option (str * str) :=
  match take_while is_decimal r with
  | [] => None
  | d =>
      match lazy_rest (drop_while is_decimal r) with
      | Some t => Some (d, t)
      | None =>
          match rev d with
          | c :: ((_ :: _) as d') => Some (rev d', [c])
          | _ => None
          end
      end
  end.

(** [(\d+)\.] at the head of a line: the number and what follows the dot. *)
Definition number_dot (line : str) : option (str * str) :=
  match take_while is_decimal line, drop_while is_decimal line with
  | (_ :: _) as num, c :: r => if eqc c "."%char then Some (num, r) else None
  | _, _ => None
  end.

(** [re.match(r'^(\d+)\.\s*(.+?)$', line)]: groups 1 and 2. *)
Definition main_match (line : str) : option (str * str) :=
  match number_dot line with
  | Some (num, r) =>
      match lazy_rest r with Some t => Some (num, t) | None => None end
  | None => None
  end.

(** [re.match(r'^(\d+)\.\s*(\d+)\s*(.+?)$', line)]: groups 1, 2 and 3. *)
Definition sub_match (line : str) : option (str * str * str) :=
  match number_dot line with
  | Some (num, r) =>
      match digits_then_rest (drop_while is_space r) with
      | Some (sub, t) => Some (num, sub, t)
      | None => None
      end
  | None => None
  end.

(** The five entries of [self.question_patterns], matched with
    [re.IGNORECASE] against one stripped line; each gives its group 1. A
    line holds no newline, so the lookahead [(?=\n\d+\.|\n\n|$)] holds at
    the end of the line only and the lazy group runs to the end. *)

Definition ci_eq (a b : char) : bool := eqc (lower_char a) (lower_char b).

(** Case-insensitive literal prefix: what is left after it. *)
Fixpoint strip_prefix_ci (p s : str) : option str :=
  match p, s with
  | [], _ => Some s
  | a :: p', b :: s' => if ci_eq a b then strip_prefix_ci p' s' else None
  | _ :: _, [] => None
  end.

(** [(\d+)] then one literal character [c]: what is left after them. *)
Definition digits_then (c : char) (s : str) : option str :=
  match take_while is_decimal s, drop_while is_decimal s with
  | _ :: _, x :: r => if eqc x c then Some r else None
  | _, _ => None
  end.

(** [^\d+\.\s*(.+?)(?=\n\d+\.|\n\n|$)] *)
Definition pattern_numbered (line : str) : option str :=
  match number_dot line with
  | Some (_, r) => lazy_rest r
  | None => None
  end.

(** [^\d+\.\s+\d+\s*(.+?)(?=\n\d+\.|\n\n|$)] *)
Definition pattern_sub (line : str) : option str :=
  match number_dot line with
  | Some (_, c :: r) =>
      if is_space c then
        match digits_then_rest (drop_while is_space r) with
        | Some (_, t) => Some t
        | None => None
        end
      else None
  | _ => None
  end.

(** [^[A-Z]\.\s*(.+?)(?=\n[A-Z]\.|\n\n|$)] *)
Definition pattern_lettered (line : str) : option str :=
  match line with
  | a :: c :: r =>
      if (is_upper_az a || is_lower_az a) && eqc c "."%char
      then lazy_rest r else None
  | _ => None
  end.

(** [^Question\s+\d+:\s*(.+?)(?=\nQuestion|\n\n|$)] *)
Definition pattern_question_n (line : str) : option str :=
  match strip_prefix_ci (lit "Question") line with
  | Some (c :: r) =>
      if is_space c then
        match digits_then ":"%char (drop_while is_space r) with
        | Some r' => lazy_rest r'
        | None => None
        end
      else None
  | _ => None
  end.

(** [^Q\d+\.\s*(.+?)(?=\nQ\d+|\n\n|$)] *)
Definition pattern_q_n (line : str) : option str :=
  match strip_prefix_ci (lit "Q") line with
  | Some r =>
      match digits_then "."%char r with
      | Some r' => lazy_rest r'
      | None => None
      end
  | None => None
  end.

(** [self.question_patterns]: the source text of each pattern (it is
    stored under ['pattern_used']) with its matcher. *)
Definition question_patterns : list (str * (str -> option str)) :=
  [ (lit "^\d+\.\s*(.+?)(?=\n\d+\.|\n\n|$)", pattern_numbered);
    (lit "^\d+\.\s+\d+\s*(.+?)(?=\n\d+\.|\n\n|$)", pattern_sub);
    (lit "^[A-Z]\.\s*(.+?)(?=\n[A-Z]\.|\n\n|$)", pattern_lettered);
    (lit "^Question\s+\d+:\s*(.+?)(?=\nQuestion|\n\n|$)", pattern_question_n);
    (lit "^Q\d+\.\s*(.+?)(?=\nQ\d+|\n\n|$)", pattern_q_n) ].

(** *** Identifier allocation *)

(** [while mk(n) in used: n += 1], from [n]. The loop runs on fuel; a run of
    [S (size used)] steps always ends (see [first_free_total]). *)
Fixpoint first_free (mk : nat -> str) (used : gset str) (fuel n : nat)
  : option nat :=
  match fuel with
  | O => None
  | S fuel' =>
      if bool_decide (mk n ∈ used) then first_free mk used fuel' (S n)
      else Some n
  end.

Definition Qid (n : nat) : str := lit "Q" ++ str_of_nat n.
Definition suffixed (base : str) (n : nat) : str :=
  base ++ lit "_" ++ str_of_nat n.

(** *** The pattern-based extractor *)

(** The local state of [_extract_questions_from_text]. An entry of
    [main_questions] is the dict of a main question; a placeholder is the
    same object as one element of [questions], and the entry then carries
    the position of that element, so that an append to its
    ['sub_questions'] is written through. *)
Record state : Type := {
  questions : list pyval;
  question_counter : nat;
  used_ids : gset str;
  main_questions : gmap str (option nat * dict)
}.

Definition initial_state : state :=
  {| questions := []; question_counter := 1; used_ids := ∅;
     main_questions := ∅ |}.

Definition line_no (i : nat) : pyval := PInt (Z.of_nat (i + 1)).

Definition heading_dict (num text : str) (i : nat) : dict :=
  [ (lit "id", PStr (lit "Q" ++ num));
    (lit "question_id", PStr (lit "Q" ++ num));
    (lit "text", PStr text);
    (lit "question_number", PStr num);
    (lit "line_number", line_no i);
    (lit "pattern_used", PStr (lit "question_heading"));
    (lit "type", PStr (lit "heading"));
    (lit "question_type", PStr (lit "topic"));
    (lit "sub_questions", PList []) ].

Definition sub_question_dict `{Helpers} (id main_num sub_num text : str) (i : nat)
  : dict :=
  let question_type := _classify_question_type text in
  [ (lit "id", PStr id);
    (lit "question_id", PStr id);
    (lit "text", PStr text);
    (lit "question_number", PStr (main_num ++ lit "." ++ sub_num));
    (lit "line_number", line_no i);
    (lit "pattern_used", PStr (lit "sub_question"));
    (lit "type", PStr question_type);
    (lit "question_type", PStr question_type);
    (lit "parent_question", PStr (lit "Q" ++ main_num));
    (lit "choices",
      PList (if eqs question_type (lit "mcq")
             then map PStr (_extract_choices text question_type) else [])) ].

Definition placeholder_dict (main_num : str) (i : nat) (sub : pyval) : dict :=
  [ (lit "id", PStr (lit "Q" ++ main_num));
    (lit "question_id", PStr (lit "Q" ++ main_num));
    (lit "text", PStr (lit "Question " ++ main_num));
    (lit "question_number", PStr main_num);
    (lit "line_number", line_no i);
    (lit "pattern_used", PStr (lit "main_question_placeholder"));
    (lit "type", PStr (lit "unknown"));
    (lit "sub_questions", PList [sub]) ].

Definition pattern_question_dict `{Helpers} (id full_text pattern : str) (i : nat)
  : dict :=
  let question_type := _classify_question_type full_text in
  [ (lit "id", PStr id);
    (lit "question_id", PStr id);
    (lit "text", PStr full_text);
    (lit "line_number", line_no i);
    (lit "pattern_used", PStr pattern);
    (lit "type", PStr question_type);
    (lit "question_type", PStr question_type);
    (lit "choices", PList (map PStr (_extract_choices full_text question_type))) ].

(** [d['sub_questions'].append(sub)]; every entry of [main_questions] is
    built above with a list under that key. *)
Definition append_sub (sub : pyval) (d : dict) : dict :=
  match dict_get (lit "sub_questions") d with
  | Some (PList l) => dict_set (lit "sub_questions") (PList (l ++ [sub])) d
  | _ => d
  end.

(** The heading test: the pattern matches and the title is longer than 5. *)
Definition heading_line (line : str) : option (str * str) :=
  match main_match line with
  | Some (num, g) =>
      if 5 <? length (strip g) then Some (num, strip g) else None
  | None => None
  end.

(** The sub-question test: the pattern matches and the text is longer
    than 10. *)
Definition sub_line (line : str) : option (str * str * str) :=
  match sub_match line with
  | Some (num, sub, g) =>
      if 10 <? length (strip g) then Some (num, sub, strip g) else None
  | None => None
  end.

(** The identifier of a sub-question: [Q<main>.<sub>], with the first free
    suffix [_1], [_2], ... when it is taken. *)
Definition sub_question_id (used : gset str) (main_num sub_num : str)
  : outcome str :=
  let base := lit "Q" ++ main_num ++ lit "." ++ sub_num in
  if bool_decide (base ∈ used) then
    match first_free (suffixed base) used (S (size used)) 1 with
    | Some k => Ok (suffixed base k)
    | None => Diverge
    end
  else Ok base.

Definition sub_step `{Helpers} (i : nat) (main_num sub_num text : str) (st : state)
  : outcome state :=
  do id <- sub_question_id (used_ids st) main_num sub_num in
  let sub := PDict (sub_question_dict id main_num sub_num text i) in
  let used := {[ id ]} ∪ used_ids st in
  match main_questions st !! main_num with
  | Some (alias, d) =>
      let d' := append_sub sub d in
      let qs := match alias with
                | Some k => <[ k := PDict d' ]> (questions st)
                | None => questions st
                end in
      Ok {| questions := qs ++ [sub];
            question_counter := question_counter st;
            used_ids := used;
            main_questions := <[ main_num := (alias, d') ]> (main_questions st) |}
  | None =>
      let d := placeholder_dict main_num i sub in
      Ok {| questions := questions st ++ [PDict d; sub];
            question_counter := question_counter st;
            used_ids := used;
            main_questions :=
              <[ main_num := (Some (length (questions st)), d) ]>
                (main_questions st) |}
  end.

(** The loop over [self.question_patterns] for one line: the first pattern
    that matches with a group longer than 10 adds a question and ends the
    loop. *)
Fixpoint try_patterns `{Helpers} (ps : list (str * (str -> option str)))
  (lines : list str) (i : nat) (line : str) (st : state) : outcome state :=
  match ps with
  | [] => Ok st
  | (pattern, matcher) :: ps' =>
      match matcher line with
      | Some g =>
          if 10 <? length (strip g) then
            let full := _get_full_question_text lines i in
            match first_free Qid (used_ids st) (S (size (used_ids st)))
                    (question_counter st) with
            | Some n =>
                Ok {| questions :=
                        questions st ++
                          [PDict (pattern_question_dict (Qid n) full pattern i)];
                      question_counter := S n;
                      used_ids := {[ Qid n ]} ∪ used_ids st;
                      main_questions := main_questions st |}
            | None => Diverge
            end
          else try_patterns ps' lines i line st
      | None => try_patterns ps' lines i line st
      end
  end.

(** The body of the loop over the lines, for line [i]. *)
Definition step `{Helpers} (lines : list str) (i : nat) (raw : str) (st : state)
  : outcome state :=
  let line := strip raw in
  if negb (nonempty line) then Ok st
  else
    match heading_line line with
    | Some (num, text) =>
        Ok {| questions := questions st;
              question_counter := question_counter st;
              used_ids := used_ids st;
              main_questions :=
                <[ num := (None, heading_dict num text i) ]> (main_questions st) |}
    | None =>
        match sub_line line with
        | Some (main_num, sub_num, text) => sub_step i main_num sub_num text st
        | None => try_patterns question_patterns lines i line st
        end
    end.

Fixpoint scan_lines `{Helpers} (lines : list str) (i : nat) (rest : list str)
  (st : state) : outcome state :=
  match rest with
  | [] => Ok st
  | raw :: rest' =>
      do st' <- step lines i raw st in scan_lines lines (S i) rest' st'
  end.

(** [any(word in line.lower() for word in [...])] *)
Definition question_words : list str :=
  map lit ["what"; "how"; "why"; "when"; "where"; "which"; "who"]%string.

Definition looks_like_question (line : str) : bool :=
  endswith (lit "?") line ||
  existsb (fun word => contains word (lower line)) question_words.

Fixpoint potential_loop `{Helpers} (i : nat) (rest : list str) (acc : list pyval)
  : list pyval :=
  match rest with
  | [] => acc
  | raw :: rest' =>
      let line := strip raw in
      if nonempty line && looks_like_question line then
        let id := Qid (length acc + 1) in
        potential_loop (S i) rest'
          (acc ++
           [PDict
              [ (lit "id", PStr id);
                (lit "question_id", PStr id);
                (lit "text", PStr line);
                (lit "question_number", PStr (str_of_nat (length acc + 1)));
                (lit "line_number", line_no i);
                (lit "pattern_used", PStr (lit "question_detection"));
                (lit "type", PStr (_classify_question_type line));
                (lit "question_type", PStr (_classify_question_type line));
                (lit "choices", PList []) ]])
      else potential_loop (S i) rest' acc
  end.

Definition _extract_potential_questions `{Helpers} (text : str) : list pyval :=
  potential_loop 0 (split_nl text) [].

(** The defaults [_validate_questions] gives question [i] (from 0). *)
Definition validate_one (i : nat) (question : dict) : dict :=
  let q1 :=
    if dict_has (lit "question_id") question then question
    else dict_set (lit "question_id")
           (dict_get_or (lit "id") (PStr (Qid (i + 1))) question) question in
  let q2 :=
    if dict_has (lit "id") q1 then q1
    else dict_set (lit "id") (dict_get_or (lit "question_id") PNone q1) q1 in
  let q3 :=
    if negb (dict_has (lit "text") q2)
       || negb (truthy (dict_get_or (lit "text") PNone q2))
    then dict_set (lit "text") (PStr (lit "Question " ++ str_of_nat (i + 1))) q2
    else q2 in
  let q4 := dict_setdefault (lit "question_number") (PStr (str_of_nat (i + 1))) q3 in
  let q5 := dict_setdefault (lit "type") (PStr (lit "unknown")) q4 in
  let q6 := dict_setdefault (lit "question_type")
              (dict_get_or (lit "type") PNone q5) q5 in
  let q7 := dict_setdefault (lit "choices") (PList []) q6 in
  let q8 := dict_setdefault (lit "confidence") (PStr (lit "medium")) q7 in
  let q9 := dict_setdefault (lit "line_number") (line_no i) q8 in
  dict_setdefault (lit "pattern_used") (PStr (lit "validated")) q9.

(** [_validate_questions]: the dicts are completed in place, in order. An
    element that is no dict raises inside the loop; the handler returns the
    list as it stands, the elements before it completed and the rest as
    they were. *)
Fixpoint validate_from (i : nat) (qs : list pyval) : list pyval :=
  match qs with
  | [] => []
  | PDict d :: rest => PDict (validate_one i d) :: validate_from (S i) rest
  | _ :: _ => qs
  end.

Definition _validate_questions (qs : list pyval) : list pyval :=
  validate_from 0 qs.

Definition _extract_questions_from_text `{Helpers} (text : str)
  : outcome (list pyval) :=
  try_except
    (let lines := split_nl text in
     do st <- scan_lines lines 0 lines initial_state in
     let found :=
       match questions st with
       | [] => _extract_potential_questions text
       | qs => qs
       end in
     Ok (_validate_questions found))
    (fun _ => Ok []).

(** The extraction of one text, with or without an API key. *)
Definition extract_with `{Helpers} (api_key text : str) : outcome (list pyval) :=
  if nonempty api_key then _extract_questions_with_llm text
  else _extract_questions_from_text text.

(** The loop of [_process_in_chunks] over the chunks. *)
Fixpoint chunks_loop `{Helpers} (api_key : str) (chunks : list str)
  (all_results : list pyval) : outcome (list pyval) :=
  match chunks with
  | [] => Ok all_results
  | chunk :: rest =>
      do result <-
        try_except
          (extract_with api_key (_format_assessment_text chunk))
          (fun _ =>
             try_except (_extract_questions_from_text chunk)
               (fun _ => Ok [])) in
      chunks_loop api_key rest (all_results ++ result)
  end.

Definition _process_in_chunks `{Helpers} (api_key text : str) (chunk_size : Z)
  : outcome (list pyval) :=
  try_except
    (let chunks := _group_into_chunks (_split_by_questions text) chunk_size in
     do all_results <- chunks_loop api_key chunks [] in
     Ok (_validate_questions all_results))
    (fun _ => Ok []).

Definition too_short (text : str) : bool :=
  negb (nonempty text) || (length (strip text) <? 50).

Definition execute_from_text `{Helpers} (api_key text : str)
  : outcome (list pyval) :=
  try_except
    (if too_short text then Ok []
     else if 5000 <? length text then _process_in_chunks api_key text 3500
     else
       do questions <- extract_with api_key (_format_assessment_text text) in
       Ok (_validate_questions questions))
    (fun _ =>
       try_except (_extract_questions_from_text text) (fun _ => Ok [])).

(** [os.path.splitext(path)[1]]: the extension starts at the last dot of
    the last path component, unless only dots come before it there. *)
Definition splitext_ext (path : str) : str :=
  let base := rev (take_while (fun c => negb (eqc c "/"%char)) (rev path)) in
  let rext := take_while (fun c => negb (eqc c "."%char)) (rev base) in
  if length rext <? length base then
    let stem := firstn (length base - length rext - 1) base in
    if existsb (fun c => negb (eqc c "."%char)) stem
    then "."%char :: rev rext else []
  else [].

Definition read_document `{FileSystem} (file_extension file_path : str)
  : outcome str :=
  if eqs file_extension (lit ".docx") then _extract_from_docx file_path
  else if eqs file_extension (lit ".pdf") then _extract_from_pdf file_path
  else if eqs file_extension (lit ".doc") then _extract_from_doc file_path
  else Raise ValueError.

Definition execute `{Helpers} `{FileSystem} (api_key file_path : str)
  : outcome (list pyval) :=
  try_except
    (if negb (path_exists file_path) then Raise FileNotFoundError
     else
       let file_extension := lower (splitext_ext file_path) in
       do text <- read_document file_extension file_path in
       if too_short text then Ok []
       else
         do questions <- extract_with api_key text in
         Ok (_validate_questions questions))
    (fun _ => Ok []).

End Extract.

(** ** Regular-expression substitution and search *)

Module Re.

(** A pattern, for [re.sub] and [re.findall]: given the character before
    the position (for a lookbehind) and the text from the position on, the
    length of the match there and its replacement. Every pattern below
    consumes at least one character. *)
Definition matcher := option char -> str -> option (nat * str).

(** [re.sub]: the matches are taken left to right and do not overlap.
    [skip] is what is left of the current match. *)
Fixpoint sub_go (m : matcher) (prev : option char) (skip : nat) (s : str) : str :=
  match s with
  | [] => []
  | c :: s' =>
      match skip with
      | S k => sub_go m (Some c) k s'
      | O =>
          match m prev s with
          | Some (S k, replacement) => replacement ++ sub_go m (Some c) k s'
          | _ => c :: sub_go m (Some c) 0 s'
          end
      end
  end.
Definition sub (m : matcher) (s : str) : str := sub_go m None 0 s.

(** [re.findall] for a pattern without groups: the matched substrings. *)
Fixpoint findall_go (m : matcher) (prev : option char) (skip : nat) (s : str)
  : list str :=
  match s with
  | [] => []
  | c :: s' =>
      match skip with
      | S k => findall_go m (Some c) k s'
      | O =>
          match m prev s with
          | Some (S k, _) => firstn (S k) s :: findall_go m (Some c) k s'
          | _ => findall_go m (Some c) 0 s'
          end
      end
  end.
Definition findall (m : matcher) (s : str) : list str := findall_go m None 0 s.

(** A literal followed by [\s*], replaced by nothing: [```json\s*]
    and [```\s*]. *)
Definition literal_then_blanks (literal : str) : matcher :=
  fun _ s =>
    if startswith literal s then
      Some (length literal
              + length (take_while is_space (skipn (length literal) s)), [])
    else None.

(** One character [a], then [\s*], then a character of [closing]; the
    replacement is built from the blanks and the closing character. *)
Definition char_blanks_char (a : char) (closing : char -> bool)
  (replacement : str -> char -> str) : matcher :=
  fun _ s =>
    match s with
    | c :: r =>
        if eqc c a then
          match drop_while is_space r with
          | d :: _ =>
              if closing d then
                Some (S (S (length (take_while is_space r))),
                      replacement (take_while is_space r) d)
              else None
          | [] => None
          end
        else None
    | [] => None
    end.

(** The lookahead of the next pattern, from the head of [r]: any text, a
    double quote, any text, a colon, where "any text" stops at a newline;
    that is, a double quote on the current line with a colon after it on
    that line. *)
Definition quote_then_colon (r : str) : bool :=
  let line := take_while (fun c => negb (eqc c "010"%char)) r in
  match drop_while (fun c => negb (eqc c "034"%char)) line with
  | _ :: after => existsb (fun c => eqc c ":"%char) after
  | [] => false
  end.

(** A double quote that no backslash precedes and that the lookahead above
    follows (the second pattern of [_fix_common_json_issues]), replaced by
    a backslash and a double quote. *)
Definition unescaped_quote : matcher :=
  fun prev s =>
    match s with
    | c :: r =>
        if eqc c "034"%char
           && negb (match prev with Some p => eqc p "\"%char | None => false end)
           && quote_then_colon r
        then Some (1, ["\"%char; "034"%char])
        else None
    | [] => None
    end.

(** [[\x00-\x1f\x7f-\x9f]], replaced by nothing. *)
Definition control_char : matcher :=
  fun _ s =>
    match s with
    | c :: _ => if between 0 31 c || between 127 159 c then Some (1, []) else None
    | [] => None
    end.

Definition is_brace (c : char) : bool := eqc c "{"%char || eqc c "}"%char.

(** The brace pattern of method 4 of [_clean_json_response]: an opening
    brace, characters other than braces, any number of groups made of one
    nested pair of braces (around characters other than braces) and
    characters other than braces, and a closing brace.

    [brace_rest] reads what follows the first brace and gives the number of
    characters up to and with the closing brace. [inner] says that a nested
    brace is open; a second nested level ends the attempt, since neither
    the group nor the closing brace can match there. *)
Fixpoint brace_rest (inner : bool) (s : str) : option nat :=
  match s with
  | [] => None
  | c :: s' =>
      if eqc c "{"%char then
        if inner then None else option_map S (brace_rest true s')
      else if eqc c "}"%char then
        if inner then option_map S (brace_rest false s') else Some 1
      else option_map S (brace_rest inner s')
  end.

Definition balanced_braces : matcher :=
  fun _ s =>
    match s with
    | c :: r =>
        if eqc c "{"%char then
          match brace_rest false r with
          | Some n => Some (S n, [])
          | None => None
          end
        else None
    | [] => None
    end.

End Re.

(** ** [json.loads] *)

Module Json.

Inductive presult : Type :=
| Parsed (v : pyval) (rest : str)
| SyntaxError
| OutOfFuel.

(** The blanks of JSON: space, tab, newline, carriage return. *)
Definition json_ws (c : char) : bool :=
  eqc c " "%char || eqc c "009"%char || eqc c "010"%char || eqc c "013"%char.

Definition skip_ws (s : str) : str := drop_while json_ws s.

Definition hex_val (c : char) : option nat :=
  if is_decimal c then Some (code c - 48)
  else if between 97 102 c then Some (code c - 87)
  else if between 65 70 c then Some (code c - 55)
  else None.

Definition hex4 (a b c d : char) : option nat :=
  match hex_val a, hex_val b, hex_val c, hex_val d with
  | Some x, Some y, Some z, Some w => Some (((x * 16 + y) * 16 + z) * 16 + w)
  | _, _, _, _ => None
  end.

(** The character an escape letter stands for. *)
Definition escape (e : char) : option char :=
  if eqc e "034"%char then Some "034"%char
  else if eqc e "\"%char then Some "\"%char
  else if eqc e "/"%char then Some "/"%char
  else if eqc e "b"%char then Some "008"%char
  else if eqc e "f"%char then Some "012"%char
  else if eqc e "n"%char then Some "010"%char
  else if eqc e "r"%char then Some "013"%char
  else if eqc e "t"%char then Some "009"%char
  else None.

(** A string after its opening quote: the decoded text and what follows
    the closing quote. A raw control character is refused (strict mode). An
    escape [\uXXXX] of a code point of 256 or more has no character in the
    embedding; the model refuses it. *)
Fixpoint scan_string (s : str) (acc : str) : option (str * str) :=
  match s with
  | [] => None
  | c :: s' =>
      if eqc c "034"%char then Some (rev acc, s')
      else if eqc c "\"%char then
        match s' with
        | e :: s'' =>
            if eqc e "u"%char then
              match s'' with
              | h1 :: h2 :: h3 :: h4 :: s5 =>
                  match hex4 h1 h2 h3 h4 with
                  | Some n =>
                      if n <? 256 then scan_string s5 (ascii_of_nat n :: acc)
                      else None
                  | None => None
                  end
              | _ => None
              end
            else
              match escape e with
              | Some x => scan_string s'' (x :: acc)
              | None => None
              end
        | [] => None
        end
      else if code c <? 32 then None
      else scan_string s' (c :: acc)
  end.

Definition Z_of_digits (digits : str) : Z :=
  fold_left (fun a c => (10 * a + Z.of_nat (code c - 48))%Z) digits 0%Z.

(** The value of [mantissa * 10 ^ exponent]. *)
Definition decimal (mantissa exponent : Z) : Q :=
  match exponent with
  | Z0 => inject_Z mantissa
  | Zpos p => inject_Z (mantissa * 10 ^ Zpos p)
  | Zneg p => Qmake mantissa (10 ^ p)
  end.

(** The integer part of a number: [0], or a digit from 1 to 9 and more
    digits. *)
Definition scan_int (s : str) : option (str * str) :=
  match s with
  | c :: r =>
      if eqc c "0"%char then Some ([c], r)
      else if between 49 57 c
      then Some (take_while is_decimal s, drop_while is_decimal s)
      else None
  | [] => None
  end.

(** The fraction: a dot and at least one digit, else nothing is read. *)
Definition scan_frac (s : str) : str * str :=
  match s with
  | c :: r =>
      if eqc c "."%char && nonempty (take_while is_decimal r)
      then (take_while is_decimal r, drop_while is_decimal r)
      else ([], s)
  | [] => ([], s)
  end.

(** The exponent: [e] or [E], a sign if any, and at least one digit, else
    nothing is read. *)
Definition scan_exp (s : str) : option Z * str :=
  match s with
  | c :: r =>
      if eqc c "e"%char || eqc c "E"%char then
        let '(negative, r') :=
          match r with
          | sg :: r1 =>
              if eqc sg "-"%char then (true, r1)
              else if eqc sg "+"%char then (false, r1)
              else (false, r)
          | [] => (false, r)
          end in
        match take_while is_decimal r' with
        | [] => (None, s)
        | digits =>
            (Some (if negative then (- Z_of_digits digits)%Z else Z_of_digits digits),
             drop_while is_decimal r')
        end
      else (None, s)
  | [] => (None, s)
  end.

Definition scan_number (s : str) : option (pyval * str) :=
  let '(negative, s1) :=
    match s with
    | c :: r => if eqc c "-"%char then (true, r) else (false, s)
    | [] => (false, s)
    end in
  match scan_int s1 with
  | None => None
  | Some (int_digits, s2) =>
      let '(frac_digits, s3) := scan_frac s2 in
      let '(exponent, s4) := scan_exp s3 in
      let sign (z : Z) : Z := if negative then (- z)%Z else z in
      match frac_digits, exponent with
      | [], None => Some (PInt (sign (Z_of_digits int_digits)), s4)
      | _, _ =>
          let mantissa := sign (Z_of_digits (int_digits ++ frac_digits)) in
          let e := match exponent with Some e => e | None => 0%Z end in
          Some (PFloat (decimal mantissa (e - Z.of_nat (length frac_digits))), s4)
      end
  end.

(** A literal word at the head of [s]. *)
Definition word (w : string) (v : pyval) (s : str) : option (pyval * str) :=
  if startswith (lit w) s then Some (v, skipn (String.length w) s) else None.

Definition scan_atom (s : str) : option (pyval * str) :=
  match s with
  | c :: _ =>
      if eqc c "n"%char then word "null" PNone s
      else if eqc c "t"%char then word "true" (PBool true) s
      else if eqc c "f"%char then word "false" (PBool false) s
      else if eqc c "N"%char then word "NaN" (PNonFinite NaN) s
      else if eqc c "I"%char then word "Infinity" (PNonFinite PosInf) s
      else if startswith (lit "-Infinity") s
      then word "-Infinity" (PNonFinite NegInf) s
      else scan_number s
  | [] => None
  end.

(** One JSON term at the head of [s]. A nested term costs two units of
    fuel and at least one character, so a fuel above twice the length of
    the text never runs out. *)
Fixpoint parse_value (fuel : nat) (s : str) : presult :=
  match fuel with
  | O => OutOfFuel
  | S fuel' =>
      match s with
      | [] => SyntaxError
      | c :: r =>
          if eqc c "034"%char then
            match scan_string r [] with
            | Some (t, rest) => Parsed (PStr t) rest
            | None => SyntaxError
            end
          else if eqc c "{"%char then
            match skip_ws r with
            | d :: r' =>
                if eqc d "}"%char then Parsed (PDict []) r'
                else parse_members fuel' [] (d :: r')
            | [] => SyntaxError
            end
          else if eqc c "["%char then
            match skip_ws r with
            | d :: r' =>
                if eqc d "]"%char then Parsed (PList []) r'
                else parse_elements fuel' [] (d :: r')
            | [] => SyntaxError
            end
          else
            match scan_atom s with
            | Some (v, rest) => Parsed v rest
            | None => SyntaxError
            end
      end
  end

with parse_members (fuel : nat) (acc : dict) (s : str) : presult :=
  match fuel with
  | O => OutOfFuel
  | S fuel' =>
      match s with
      | q :: r =>
          if eqc q "034"%char then
            match scan_string r [] with
            | Some (key, r1) =>
                match skip_ws r1 with
                | colon :: r2 =>
                    if eqc colon ":"%char then
                      match parse_value fuel' (skip_ws r2) with
                      | Parsed v r3 =>
                          let acc' := dict_set key v acc in
                          match skip_ws r3 with
                          | d :: r4 =>
                              if eqc d "}"%char then Parsed (PDict acc') r4
                              else if eqc d ","%char
                              then parse_members fuel' acc' (skip_ws r4)
                              else SyntaxError
                          | [] => SyntaxError
                          end
                      | other => other
                      end
                    else SyntaxError
                | [] => SyntaxError
                end
            | None => SyntaxError
            end
          else SyntaxError
      | [] => SyntaxError
      end
  end

with parse_elements (fuel : nat) (acc : list pyval) (s : str) : presult :=
  match fuel with
  | O => OutOfFuel
  | S fuel' =>
      match parse_value fuel' s with
      | Parsed v r1 =>
          match skip_ws r1 with
          | d :: r2 =>
              if eqc d "]"%char then Parsed (PList (acc ++ [v])) r2
              else if eqc d ","%char
              then parse_elements fuel' (acc ++ [v]) (skip_ws r2)
              else SyntaxError
          | [] => SyntaxError
          end
      | other => other
      end
  end.

(** [json.loads(s)] *)
Definition loads (s : str) : outcome pyval :=
  match parse_value (S (S (2 * length s))) (skip_ws s) with
  | Parsed v rest =>
      match skip_ws rest with
      | [] => Ok v
      | _ :: _ => Raise JSONDecodeError
      end
  | SyntaxError => Raise JSONDecodeError
  | OutOfFuel => Diverge
  end.

End Json.

(** ** Operations on values of unknown type *)

Module Dyn.

(** [k in v], for a string [k]. *)
Definition py_in (k : str) (v : pyval) : outcome bool :=
  match v with
  | PDict d => Ok (dict_has k d)
  | PList l =>
      Ok (existsb (fun x => match x with PStr s => eqs k s | _ => false end) l)
  | PStr s => Ok (contains k s)
  | _ => Raise TypeError
  end.

(** [v.get(k, default)] *)
Definition py_get (k : str) (default : pyval) (v : pyval) : outcome pyval :=
  match v with
  | PDict d => Ok (dict_get_or k default d)
  | _ => Raise AttributeError
  end.

(** [v[k]], for a string [k]. *)
Definition py_getitem (k : str) (v : pyval) : outcome pyval :=
  match v with
  | PDict d =>
      match dict_get k d with Some x => Ok x | None => Raise KeyError end
  | _ => Raise TypeError
  end.

(** [for x in v]: the elements of a list, the keys of a dict, the
    characters of a string. *)
Definition py_iter (v : pyval) : outcome (list pyval) :=
  match v with
  | PList l => Ok l
  | PDict d => Ok (map (fun kv => PStr (fst kv)) d)
  | PStr s => Ok (map (fun c => PStr [c]) s)
  | _ => Raise TypeError
  end.

(** [len(v)] *)
Definition py_len (v : pyval) : outcome nat :=
  match v with
  | PList l => Ok (length l)
  | PDict d => Ok (length d)
  | PStr s => Ok (length s)
  | _ => Raise TypeError
  end.

(** A loop body run over a list, left to right, each element replaced by
    what the body returns. *)
Fixpoint map_outcome {A B : Type} (f : A -> outcome B) (l : list A)
  : outcome (list B) :=
  match l with
  | [] => Ok []
  | a :: l' =>
      do b <- f a in
      do bs <- map_outcome f l' in
      Ok (b :: bs)
  end.

End Dyn.
Import Dyn.

(** ** Numbers *)

Module Num.

Inductive num : Type :=
| NInt (z : Z)
| NFloat (q : Q)
| NNonFinite (x : nonfinite).

(** The number a value is in arithmetic, if it is one ([True] is 1). *)
Definition as_num (v : pyval) : option num :=
  match v with
  | PInt z => Some (NInt z)
  | PBool b => Some (NInt (if b then 1 else 0)%Z)
  | PFloat q => Some (NFloat q)
  | PNonFinite x => Some (NNonFinite x)
  | _ => None
  end.

Definition of_num (n : num) : pyval :=
  match n with
  | NInt z => PInt z
  | NFloat q => PFloat q
  | NNonFinite x => PNonFinite x
  end.

Definition add_nonfinite (x y : nonfinite) : nonfinite :=
  match x, y with
  | PosInf, PosInf => PosInf
  | NegInf, NegInf => NegInf
  | _, _ => NaN
  end.

(** [a + b] *)
Definition add (a b : num) : num :=
  match a, b with
  | NInt x, NInt y => NInt (x + y)
  | NInt x, NFloat y => NFloat (inject_Z x + y)
  | NFloat x, NInt y => NFloat (x + inject_Z y)
  | NFloat x, NFloat y => NFloat (x + y)
  | NNonFinite x, NNonFinite y => NNonFinite (add_nonfinite x y)
  | NNonFinite x, _ => NNonFinite x
  | _, NNonFinite y => NNonFinite y
  end.

(** [a / n] for a count [n > 0]: always a float. *)
Definition div_count (a : num) (n : nat) : num :=
  match a with
  | NInt z => NFloat (inject_Z z / inject_Z (Z.of_nat n))
  | NFloat q => NFloat (q / inject_Z (Z.of_nat n))
  | NNonFinite x => NNonFinite x
  end.

(** [a / b] rounded to the nearest integer, a tie going to the even one. *)
Definition round_half_even_div (a : Z) (b : positive) : Z :=
  let q := (a / Zpos b)%Z in
  let r := (a mod Zpos b)%Z in
  match (2 * r ?= Zpos b)%Z with
  | Lt => q
  | Gt => (q + 1)%Z
  | Eq => if Z.even q then q else (q + 1)%Z
  end.

(** [round(x, ndigits)] on a float: the value of the float, which is a
    rational, rounded to [ndigits] decimals, a tie going to the even
    digit. The result stands for the float nearest to it. *)
Definition py_round (x : Q) (ndigits : nat) : Q :=
  let scale := (10 ^ Z.of_nat ndigits)%Z in
  Qmake (round_half_even_div (Qnum x * scale) (Qden x)) (Z.to_pos scale).

(** *** Binary floats

    A float operation returns the float nearest to the exact result: 53
    significant bits, a tie going to the even significand (IEEE 754
    binary64). The values met here lie far inside the range of the normal
    floats. *)

(** The integer nearest to a rational, a tie going to the even one. *)
Definition nearest_even (x : Q) : Z := round_half_even_div (Qnum x) (Qden x).

(** The exponent of the leading bit of a positive rational:
    [2^e <= x < 2^(e+1)]. *)
Definition binade (x : Q) : Z :=
  let e := (Z.log2 (Qnum x) - Z.log2 (Zpos (Qden x)))%Z in
  if Qle_bool (2 ^ e) x then e else (e - 1)%Z.

(** The float nearest to a positive rational. *)
Definition round_positive (x : Q) : Q :=
  let k := (52 - binade x)%Z in
  (inject_Z (nearest_even (x * 2 ^ k)) * 2 ^ (- k))%Q.

Definition round_float (x : Q) : Q :=
  match Qnum x with
  | Z0 => 0%Q
  | Zpos _ => round_positive x
  | Zneg _ => (- round_positive (- x))%Q
  end.

(** [a / b] and [a * b] on floats. *)
Definition fdiv (a b : Q) : Q := round_float (a / b).
Definition fmul (a b : Q) : Q := round_float (a * b).

Definition round_num (a : num) (ndigits : nat) : num :=
  match a with
  | NFloat q => NFloat (py_round q ndigits)
  | other => other
  end.

(** [a < b] on floats held as rationals. *)
Definition Qltb (a b : Q) : bool :=
  match (a ?= b)%Q with Lt => true | _ => false end.

End Num.

(** ** agents/mapping_agent.py *)

Module Mapping.

(** What [MappingAgent] takes from outside: the prompt builder (a pure
    text template), the external service ([_call_ai_api] at the [i]-th
    call: the reply text, or nothing on a transport error), the clock read
    for the audit trail, and the keyword and balance analyses of the
    coverage report: what is stored under ['intelligent_insights'] and
    ['critical_gaps'], with the quality, cognitive-level and
    assessment-method tracking that feeds them. *)
Class Service : Type := {
  _create_simplified_mapping_prompt : dict -> pyval -> str -> outcome str;
  _call_ai_api : nat -> str -> option str;
  now_isoformat : nat -> str;
  intelligent_insights : list pyval -> pyval -> outcome pyval
}.

(** *** Reply clean-up *)

Fixpoint find_char (c : char) (s : str) : option nat :=
  match s with
  | [] => None
  | x :: s' => if eqc x c then Some 0 else option_map S (find_char c s')
  end.

(** [s.find(c)] *)
Definition py_find (c : char) (s : str) : Z :=
  match find_char c s with Some i => Z.of_nat i | None => (-1)%Z end.

(** [s.rfind(c)] *)
Definition py_rfind (c : char) (s : str) : Z :=
  match find_char c (rev s) with
  | Some i => (Z.of_nat (length s) - 1 - Z.of_nat i)%Z
  | None => (-1)%Z
  end.

(** [s[a:b]] for [0 <= a]. *)
Definition slice (a b : Z) (s : str) : str :=
  firstn (Z.to_nat (b - a)) (skipn (Z.to_nat a) s).

(** [try: json.loads(candidate) ... except: pass]: whether it parsed. *)
Definition parses (candidate : str) : outcome bool :=
  match Json.loads candidate with
  | Ok _ => Ok true
  | Raise _ => Ok false
  | Diverge => Diverge
  end.

Definition closing_bracket (c : char) : bool := eqc c "}"%char || eqc c "]"%char.

Definition _fix_common_json_issues (json_str : str) : str :=
  let s1 := Re.sub (Re.char_blanks_char ","%char closing_bracket
                      (fun blanks d => blanks ++ [d])) json_str in
  let s2 := Re.sub Re.unescaped_quote s1 in
  let s3 := Re.sub (Re.char_blanks_char "}"%char (fun c => eqc c "{"%char)
                      (fun _ _ => lit "},{")) s2 in
  let s4 := Re.sub (Re.char_blanks_char "]"%char (fun c => eqc c "["%char)
                      (fun _ _ => lit "],[")) s3 in
  Re.sub Re.control_char s4.

Definition has_braces (json_start json_end : Z) : bool :=
  negb (json_start =? -1)%Z && (json_start <? json_end)%Z.

(** Method 4: the first match of the brace pattern that parses. *)
Fixpoint first_parsing (candidates : list str) : outcome (option str) :=
  match candidates with
  | [] => Ok None
  | c :: rest =>
      do ok <- parses c in
      if ok then Ok (Some c) else first_parsing rest
  end.

Definition _clean_json_response (response : str) : outcome (option str) :=
  (* Method 1 *)
  let json_start := py_find "{"%char response in
  let json_end := (py_rfind "}"%char response + 1)%Z in
  let candidate1 := slice json_start json_end response in
  do ok1 <- (if has_braces json_start json_end then parses candidate1
             else Ok false) in
  if ok1 then Ok (Some candidate1)
  else
    (* Method 2 *)
    let cleaned :=
      Re.sub (Re.literal_then_blanks (lit "```"))
        (Re.sub (Re.literal_then_blanks (lit "```json")) response) in
    let json_start := py_find "{"%char cleaned in
    let json_end := (py_rfind "}"%char cleaned + 1)%Z in
    let candidate2 := slice json_start json_end cleaned in
    do ok2 <- (if has_braces json_start json_end then parses candidate2
               else Ok false) in
    if ok2 then Ok (Some candidate2)
    else
      (* Method 3: the positions are those found in [cleaned], the text
         sliced is [response]. *)
      let candidate3 :=
        _fix_common_json_issues (slice json_start json_end response) in
      do ok3 <- (if has_braces json_start json_end then parses candidate3
                 else Ok false) in
      if ok3 then Ok (Some candidate3)
      else
        (* Method 4 *)
        first_parsing (Re.findall Re.balanced_braces response).

(** *** Structure validation *)

Definition _validate_basic_mapping_structure (mapping_data : pyval)
  : outcome bool :=
  do has_id <- py_in (lit "question_id") mapping_data in
  if negb has_id then Ok false
  else
    do has_analysis <- py_in (lit "mapping_analysis") mapping_data in
    if negb has_analysis then Ok false
    else
      do mapping_analysis <- py_get (lit "mapping_analysis") (PDict []) mapping_data in
      let check (field : str) : outcome bool :=
        do present <- py_in field mapping_analysis in
        if negb present then Ok false
        else
          do value <- py_getitem field mapping_analysis in
          Ok (match value with PList _ => true | _ => false end) in
      do elements_ok <- check (lit "mapped_elements") in
      if negb elements_ok then Ok false
      else check (lit "mapped_performance_criteria").

(** *** Identifier normalisation *)

(** [while id.startswith(prefix + prefix): id = id[len(prefix):]]. Each
    step shortens the text, so [length id] steps are enough (see
    [undouble_done]). *)
Fixpoint undouble (prefix : str) (fuel : nat) (id : str) : str :=
  match fuel with
  | O => id
  | S fuel' =>
      if startswith (prefix ++ prefix) id
      then undouble prefix fuel' (skipn (length prefix) id)
      else id
  end.

(** The fix-up [_clean_mapping_ids] applies to one identifier, written
    there once for each of [E], [PC], [PE] and [KE]: doubled prefixes are
    collapsed, a missing prefix is put in front, and [1] is appended when
    no digit follows the prefix. *)
Definition normalize_id (prefix id : str) : str :=
  let id1 := undouble prefix (length id) id in
  let id2 := if startswith prefix id1 then id1 else prefix ++ id1 in
  if existsb isdigit (skipn (length prefix) id2) then id2 else id2 ++ lit "1".

(** One [if '<id_key>' in item: ...] block on one item. *)
Definition clean_field (id_key code_key prefix : str) (item : pyval)
  : outcome pyval :=
  do present <- py_in id_key item in
  if present then
    do id <- py_getitem id_key item in
    if truthy id then
      match id, item with
      | PStr s, PDict d =>
          let fixed := PStr (normalize_id prefix s) in
          Ok (PDict (dict_set code_key fixed (dict_set id_key fixed d)))
      | _, _ => Raise AttributeError
      end
    else Ok item
  else Ok item.

Fixpoint clean_fields (fields : list (str * str * str)) (item : pyval)
  : outcome pyval :=
  match fields with
  | [] => Ok item
  | (id_key, code_key, prefix) :: rest =>
      do item' <- clean_field id_key code_key prefix item in
      clean_fields rest item'
  end.

(** One [for item in mapping_analysis.get(category, []): ...] loop. The
    items of a list are dicts changed in place; what the loop meets in a
    value of another type (keys, characters) cannot be changed. *)
Definition clean_category (category : str) (fields : list (str * str * str))
  (mapping_analysis : dict) : outcome dict :=
  match dict_get category mapping_analysis with
  | None => Ok mapping_analysis
  | Some (PList items) =>
      do items' <- map_outcome (clean_fields fields) items in
      Ok (dict_set category (PList items') mapping_analysis)
  | Some other =>
      do items <- py_iter other in
      do _x <- map_outcome (clean_fields fields) items in
      Ok mapping_analysis
  end.

Definition element_fields : list (str * str * str) :=
  [ (lit "element_id", lit "element_code", lit "E") ].
Definition criterion_fields : list (str * str * str) :=
  [ (lit "criterion_id", lit "criterion_code", lit "PC") ].
Definition performance_evidence_fields : list (str * str * str) :=
  [ (lit "evidence_id", lit "evidence_code", lit "PE") ].
Definition knowledge_evidence_fields : list (str * str * str) :=
  [ (lit "evidence_id", lit "evidence_code", lit "KE");
    (lit "knowledge_id", lit "knowledge_code", lit "KE") ].

Definition _clean_mapping_ids (mapping_analysis : dict) : outcome dict :=
  do m1 <- clean_category (lit "mapped_elements") element_fields mapping_analysis in
  do m2 <- clean_category (lit "mapped_performance_criteria") criterion_fields m1 in
  do m3 <- clean_category (lit "mapped_performance_evidence")
             performance_evidence_fields m2 in
  clean_category (lit "mapped_knowledge_evidence") knowledge_evidence_fields m3.

Definition _validate_id_format (id_value : pyval) (expected_prefix : str)
  : outcome bool :=
  if negb (truthy id_value) then Ok false
  else
    match id_value with
    | PStr s =>
        Ok (startswith expected_prefix s
            && existsb isdigit (skipn (length expected_prefix) s))
    | _ => Raise AttributeError
    end.

(** [_log_id_validation_issues] only writes to the log; what is kept of it
    is the number of identifiers reported, and that it can raise. *)
Definition log_category (category id_key prefix : str) (mapping_analysis : dict)
  : outcome nat :=
  do items <- py_iter (dict_get_or category (PList []) mapping_analysis) in
  do verdicts <-
    map_outcome
      (fun item =>
         do id <- py_get id_key (PStr []) item in
         _validate_id_format id prefix) items in
  Ok (length (filter (fun ok => ok = false) verdicts)).

Definition _log_id_validation_issues (mapping_analysis : dict) : outcome nat :=
  do a <- log_category (lit "mapped_elements") (lit "element_id") (lit "E")
            mapping_analysis in
  do b <- log_category (lit "mapped_performance_criteria") (lit "criterion_id")
            (lit "PC") mapping_analysis in
  do c <- log_category (lit "mapped_performance_evidence") (lit "evidence_id")
            (lit "PE") mapping_analysis in
  do d <- log_category (lit "mapped_knowledge_evidence") (lit "evidence_id")
            (lit "KE") mapping_analysis in
  Ok (a + b + c + d).

Definition categories : list str :=
  map lit [ "mapped_elements"; "mapped_performance_criteria";
            "mapped_performance_evidence"; "mapped_knowledge_evidence" ]%string.

(** *** Statistics of one mapping *)

Definition str_is (s : str) (v : pyval) : bool :=
  match v with PStr t => eqs s t | _ => false end.

Record tally : Type := {
  total_mappings : nat;
  total_confidence : Num.num;
  full_compliance : nat;
  partial_compliance : nat;
  minimal_compliance : nat
}.

Definition tally_item (t : tally) (mapping : pyval) : outcome tally :=
  do confidence <- py_get (lit "confidence_score") (PInt 0) mapping in
  match Num.as_num confidence with
  | None => Raise TypeError
  | Some c =>
      do asqa_validation <- py_get (lit "asqa_validation") (PDict []) mapping in
      do compliance <-
        py_get (lit "standard_1_8_compliance") (PStr (lit "MINIMAL"))
          asqa_validation in
      let is_full := str_is (lit "FULL") compliance in
      let is_partial := negb is_full && str_is (lit "PARTIAL") compliance in
      Ok {| total_mappings := total_mappings t;
            total_confidence := Num.add (total_confidence t) c;
            full_compliance := full_compliance t + (if is_full then 1 else 0);
            partial_compliance :=
              partial_compliance t + (if is_partial then 1 else 0);
            minimal_compliance :=
              minimal_compliance t
              + (if is_full || is_partial then 0 else 1) |}
  end.

Fixpoint tally_items (t : tally) (items : list pyval) : outcome tally :=
  match items with
  | [] => Ok t
  | item :: rest => do t' <- tally_item t item in tally_items t' rest
  end.

Fixpoint tally_categories (t : tally) (cats : list str) (mapping_analysis : dict)
  : outcome tally :=
  match cats with
  | [] => Ok t
  | category :: rest =>
      let mappings := dict_get_or category (PList []) mapping_analysis in
      do n <- py_len mappings in
      do items <- py_iter mappings in
      do t' <-
        tally_items
          {| total_mappings := total_mappings t + n;
             total_confidence := total_confidence t;
             full_compliance := full_compliance t;
             partial_compliance := partial_compliance t;
             minimal_compliance := minimal_compliance t |} items in
      tally_categories t' rest mapping_analysis
  end.

Definition count (n : nat) : pyval := PInt (Z.of_nat n).

Definition _calculate_mapping_statistics (mapping_analysis : dict)
  : outcome pyval :=
  do t <-
    tally_categories
      {| total_mappings := 0; total_confidence := Num.NInt 0;
         full_compliance := 0; partial_compliance := 0;
         minimal_compliance := 0 |} categories mapping_analysis in
  let avg_confidence :=
    if 0 <? total_mappings t
    then Num.div_count (total_confidence t) (total_mappings t)
    else Num.NInt 0 in
  Ok (PDict
        [ (lit "total_mappings", count (total_mappings t));
          (lit "average_confidence", Num.of_num (Num.round_num avg_confidence 3));
          (lit "asqa_compliance_distribution",
            PDict [ (lit "full", count (full_compliance t));
                    (lit "partial", count (partial_compliance t));
                    (lit "minimal", count (minimal_compliance t)) ]) ]).

(** *** Dropping the items without an identifier or a description *)

Definition keeps (id_key description_key : str) (item : pyval) : outcome bool :=
  do id <- py_get id_key PNone item in
  do description <- py_get description_key PNone item in
  Ok (truthy id && truthy description).

Fixpoint filter_outcome (p : pyval -> outcome bool) (items : list pyval)
  : outcome (list pyval) :=
  match items with
  | [] => Ok []
  | item :: rest =>
      do keep <- p item in
      do rest' <- filter_outcome p rest in
      Ok (if keep then item :: rest' else rest')
  end.

Definition filter_category (category id_key description_key : str)
  (mapping_analysis : pyval) : outcome pyval :=
  do present <- py_in category mapping_analysis in
  if present then
    do value <- py_getitem category mapping_analysis in
    do items <- py_iter value in
    do kept <- filter_outcome (keeps id_key description_key) items in
    match mapping_analysis with
    | PDict d => Ok (PDict (dict_set category (PList kept) d))
    | _ => Raise TypeError
    end
  else Ok mapping_analysis.

Definition filter_analysis (mapping_analysis : pyval) : outcome pyval :=
  do m1 <- filter_category (lit "mapped_elements") (lit "element_id")
             (lit "element_description") mapping_analysis in
  do m2 <- filter_category (lit "mapped_performance_criteria")
             (lit "criterion_id") (lit "criterion_description") m1 in
  do m3 <- filter_category (lit "mapped_performance_evidence")
             (lit "evidence_id") (lit "evidence_description") m2 in
  filter_category (lit "mapped_knowledge_evidence") (lit "evidence_id")
    (lit "evidence_description") m3.

Definition _filter_empty_mappings (mapping_data : dict) : outcome dict :=
  match dict_get (lit "mapping_analysis") mapping_data with
  | None => Ok mapping_data
  | Some mapping_analysis =>
      do filtered <- filter_analysis mapping_analysis in
      Ok (dict_set (lit "mapping_analysis") filtered mapping_data)
  end.

(** *** Completing a parsed reply *)

Definition default_bloom_taxonomy : pyval :=
  PDict [ (lit "primary_level", PStr (lit "UNDERSTAND"));
          (lit "cognitive_demand", PStr (lit "MEDIUM"));
          (lit "asqa_assessment_suitability", PStr (lit "GOOD")) ].

Definition default_quality_assessment : pyval :=
  PDict [ (lit "competency_focus_score", PInt 4);
          (lit "authenticity_score", PInt 3);
          (lit "sufficiency_score", PInt 4);
          (lit "overall_quality_rating", PStr (lit "HIGH")) ].

Definition default_overall_assessment : pyval :=
  PDict [ (lit "asqa_compliance_level", PStr (lit "PARTIAL"));
          (lit "audit_readiness", PStr (lit "NEEDS_REVIEW"));
          (lit "risk_assessment", PStr (lit "MEDIUM")) ].

Definition default_comprehensive_analysis : pyval :=
  PDict [ (lit "coverage_assessment",
            PDict [ (lit "element_coverage_completeness", PStr (lit "PARTIAL"));
                    (lit "performance_criteria_alignment", PStr (lit "MODERATE"));
                    (lit "evidence_requirement_satisfaction", PStr (lit "PARTIAL")) ]);
          (lit "priority_mappings", PList []);
          (lit "mapping_tags", PList []) ].

(** The four [setdefault] calls on [mapping_analysis]. *)
Definition with_all_lists (mapping_analysis : dict) : dict :=
  fold_left (fun m category => dict_setdefault category (PList []) m)
    categories mapping_analysis.

Definition _ensure_complete_mapping_structure (mapping_data question : dict)
  : outcome dict :=
  let d1 := dict_setdefault (lit "question_text")
              (dict_get_or (lit "text") (PStr []) question) mapping_data in
  let d2 := dict_setdefault (lit "question_choices")
              (dict_get_or (lit "choices") (PList []) question) d1 in
  let d3 := dict_setdefault (lit "assessment_type") (PStr (lit "Mixed")) d2 in
  let d4 := dict_setdefault (lit "bloom_taxonomy") default_bloom_taxonomy d3 in
  let d5 := dict_setdefault (lit "asqa_quality_assessment")
              default_quality_assessment d4 in
  let d6 := dict_setdefault (lit "mapping_analysis") (PDict []) d5 in
  match dict_get (lit "mapping_analysis") d6 with
  | Some (PDict mapping_analysis) =>
      do cleaned <- _clean_mapping_ids (with_all_lists mapping_analysis) in
      do _issues <- _log_id_validation_issues cleaned in
      let d7 := dict_set (lit "mapping_analysis") (PDict cleaned) d6 in
      let d8 := dict_setdefault (lit "overall_assessment")
                  default_overall_assessment d7 in
      let d9 := dict_setdefault (lit "comprehensive_analysis")
                  default_comprehensive_analysis d8 in
      do stats <- _calculate_mapping_statistics cleaned in
      _filter_empty_mappings (dict_set (lit "mapping_statistics") stats d9)
  | _ => Raise AttributeError
  end.

Definition audit_trail `{Service} (call : nat) : pyval :=
  PDict [ (lit "mapped_by", PStr (lit "AI_System_v2.0_Enhanced"));
          (lit "mapping_timestamp", PStr (now_isoformat call));
          (lit "validation_checks_passed",
            PList [PStr (lit "structure"); PStr (lit "basic_validation")]);
          (lit "parsing_method", PStr (lit "robust_json_cleanup")) ].

(** The reply of call [call] turned into a mapping, or [None]. Whatever is
    raised on the way is caught and gives [None]. *)
Definition _parse_comprehensive_ai_response_robust `{Service} (call : nat)
  (response : str) (question : dict) : outcome (option dict) :=
  try_except
    (do cleaned_response <- _clean_json_response response in
     match cleaned_response with
     | None => Ok None
     | Some cleaned =>
         if negb (nonempty cleaned) then Ok None
         else
           do mapping_data <- Json.loads cleaned in
           do valid <- _validate_basic_mapping_structure mapping_data in
           if valid then
             match mapping_data with
             | PDict d =>
                 do completed <- _ensure_complete_mapping_structure d question in
                 Ok (Some
                       (dict_set (lit "mapping_source") (PStr (lit "ai"))
                          (dict_set (lit "audit_trail") (audit_trail call)
                             completed)))
             | _ => Raise AttributeError
             end
           else Ok None
     end)
    (fun _ => Ok None).

Definition _map_single_question_comprehensive `{Service} (call : nat)
  (question : dict) (uoc_data : pyval) (assessment_type : str)
  : outcome (option dict) :=
  try_except
    (do prompt <-
       _create_simplified_mapping_prompt question uoc_data assessment_type in
     match _call_ai_api call prompt with
     | Some response =>
         if nonempty response
         then _parse_comprehensive_ai_response_robust call response question
         else Ok None
     | None => Ok None
     end)
    (fun _ => Ok None).

(** *** Coverage *)

Inductive kind : Type :=
| Element
| PerformanceCriterion
| PerformanceEvidence
| KnowledgeEvidence.

(** The list of a mapping's analysis that holds the items of a kind. *)
Definition category_of (k : kind) : str :=
  match k with
  | Element => lit "mapped_elements"
  | PerformanceCriterion => lit "mapped_performance_criteria"
  | PerformanceEvidence => lit "mapped_performance_evidence"
  | KnowledgeEvidence => lit "mapped_knowledge_evidence"
  end.

(** The field of an item that holds the component's code. *)
Definition item_field_of (k : kind) : str :=
  match k with
  | Element => lit "element_id"
  | PerformanceCriterion => lit "criterion_id"
  | PerformanceEvidence => lit "evidence_id"
  | KnowledgeEvidence => lit "evidence_id"
  end.

(** The list of the unit of competency that holds the components. *)
Definition components_of (k : kind) : str :=
  match k with
  | Element => lit "elements"
  | PerformanceCriterion => lit "performance_criteria"
  | PerformanceEvidence => lit "performance_evidence"
  | KnowledgeEvidence => lit "knowledge_evidence"
  end.

(** The field of a component that [_identify_unmapped_components] reads. *)
Definition component_field_of (k : kind) : str :=
  match k with
  | Element => lit "element_id"
  | _ => lit "code"
  end.

(** [item.get(field, '')], the code added to the set of mapped codes. Codes
    are strings: that is what [_clean_mapping_ids] and
    [_filter_empty_mappings] leave in a mapping. A code of another type is
    outside the embedding, which stops there. *)
Definition item_code (field : str) (item : pyval) : outcome str :=
  do v <- py_get field (PStr []) item in
  match v with
  | PStr s => Ok s
  | _ => Raise TypeError
  end.

(** The codes one mapping adds for kind [k]. *)
Definition codes_of_mapping (k : kind) (mapping : pyval) : outcome (list str) :=
  do mapping_analysis <- py_get (lit "mapping_analysis") (PDict []) mapping in
  do value <- py_get (category_of k) (PList []) mapping_analysis in
  do items <- py_iter value in
  map_outcome (item_code (item_field_of k)) items.

(** The set of mapped codes of kind [k] after the loop over the mappings. *)
Fixpoint mapped_codes (k : kind) (mappings : list pyval) (acc : gset str)
  : outcome (gset str) :=
  match mappings with
  | [] => Ok acc
  | mapping :: rest =>
      do codes <- codes_of_mapping k mapping in
      mapped_codes k rest (list_to_set codes ∪ acc)
  end.

(** [round((mapped / total * 100), 1) if total > 0 else 0]: the quotient
    of the two counts is a float, its product with 100 is a float, and
    that float is rounded to one decimal. *)
Definition coverage_percentage (mapped total : nat) : Q :=
  if 0 <? total then
    Num.py_round
      (Num.fmul
         (Num.fdiv (inject_Z (Z.of_nat mapped)) (inject_Z (Z.of_nat total)))
         100) 1
  else 0.

Definition keyword_in (description : str) (keywords : list string) : bool :=
  existsb (fun keyword => contains (lit keyword) (lower description)) keywords.

Definition description_of (component : pyval) : outcome str :=
  do v <- py_get (lit "description") (PStr []) component in
  match v with
  | PStr s => Ok s
  | _ => Raise AttributeError
  end.

Definition _assess_component_priority (component : pyval) : outcome pyval :=
  do description <- description_of component in
  Ok (PStr
        (if keyword_in description
              ["critical"; "essential"; "must"; "required"; "core"; "fundamental"]
         then lit "HIGH"
         else if keyword_in description ["important"; "should"; "necessary"; "key"]
         then lit "MEDIUM"
         else lit "LOW")).

Definition _generate_suggested_questions (component : pyval) : outcome pyval :=
  do description <- description_of component in
  Ok (PList
        (if keyword_in description ["performance"]
         then [ PStr (lit "Practical demonstration question");
                PStr (lit "Scenario-based assessment") ]
         else if keyword_in description ["knowledge"]
         then [ PStr (lit "Multiple choice question");
                PStr (lit "Short answer question") ]
         else [ PStr (lit "Mixed assessment question") ])).

(** [component_id and component_id not in mapped_set] *)
Definition is_unmapped (component_id : pyval) (mapped_set : gset str)
  : outcome bool :=
  match component_id with
  | PStr s => Ok (nonempty s && negb (bool_decide (s ∈ mapped_set)))
  | PList (_ :: _) | PDict (_ :: _) => Raise TypeError
  | other => Ok (truthy other)
  end.

Fixpoint unmapped_loop (components : list pyval) (mapped_set : gset str)
  (id_field : str) : outcome (list pyval) :=
  match components with
  | [] => Ok []
  | component :: rest =>
      do component_id <- py_get id_field (PStr []) component in
      do missing <- is_unmapped component_id mapped_set in
      do entry <-
        (if missing then
           do description <- py_get (lit "description") (PStr []) component in
           do priority <- _assess_component_priority component in
           do suggested <- _generate_suggested_questions component in
           Ok [ PDict [ (lit "id", component_id);
                        (lit "description", description);
                        (lit "priority", priority);
                        (lit "suggested_questions", suggested) ] ]
         else Ok []) in
      do entries <- unmapped_loop rest mapped_set id_field in
      Ok (entry ++ entries)
  end.

Definition _identify_unmapped_components (components : pyval)
  (mapped_set : gset str) (id_field : str) : outcome (list pyval) :=
  do items <- py_iter components in
  unmapped_loop items mapped_set id_field.

(** One of the four coverage records of the analysis (the critical gaps of
    elements and criteria are held with [intelligent_insights]). *)
Record coverage : Type := {
  mapped : nat;
  total : nat;
  percentage : Q;
  unmapped : list pyval
}.

Definition coverage_of_kind (k : kind) (mappings : list pyval) (uoc_data : pyval)
  : outcome coverage :=
  do mapped_set <- mapped_codes k mappings ∅ in
  do components <- py_get (components_of k) (PList []) uoc_data in
  do total_components <- py_len components in
  do missing <-
    _identify_unmapped_components components mapped_set (component_field_of k) in
  Ok {| mapped := size mapped_set;
        total := total_components;
        percentage := coverage_percentage (size mapped_set) total_components;
        unmapped := missing |}.

Record coverage_analysis : Type := {
  elements_coverage : coverage;
  performance_criteria_coverage : coverage;
  performance_evidence_coverage : coverage;
  knowledge_evidence_coverage : coverage;
  insights : pyval
}.

Definition _analyze_mapping_coverage `{Service} (mappings : list pyval)
  (uoc_data : pyval) : outcome coverage_analysis :=
  do e <- coverage_of_kind Element mappings uoc_data in
  do pc <- coverage_of_kind PerformanceCriterion mappings uoc_data in
  do pe <- coverage_of_kind PerformanceEvidence mappings uoc_data in
  do ke <- coverage_of_kind KnowledgeEvidence mappings uoc_data in
  do i <- intelligent_insights mappings uoc_data in
  Ok {| elements_coverage := e;
        performance_criteria_coverage := pc;
        performance_evidence_coverage := pe;
        knowledge_evidence_coverage := ke;
        insights := i |}.

Definition coverage_for (k : kind) (a : coverage_analysis) : coverage :=
  match k with
  | Element => elements_coverage a
  | PerformanceCriterion => performance_criteria_coverage a
  | PerformanceEvidence => performance_evidence_coverage a
  | KnowledgeEvidence => knowledge_evidence_coverage a
  end.

(** *** The batch *)

Record batch_result : Type := {
  mappings : list pyval;
  analysis : coverage_analysis;
  assessment_type : str;
  total_questions : nat
}.

(** The loop of [execute] over the questions, from call [call]: a question
    whose mapping is [None] (or empty) raises [RuntimeError]. The loop that
    follows it in the source only writes the confidence of each mapping to
    the log. *)
Fixpoint map_all `{Service} (call : nat) (questions : list dict)
  (uoc_data : pyval) (assessment : str) (done : list pyval)
  : outcome (list pyval) :=
  match questions with
  | [] => Ok done
  | question :: rest =>
      do mapping <-
        _map_single_question_comprehensive call question uoc_data assessment in
      match mapping with
      | Some ((_ :: _) as m) =>
          map_all (S call) rest uoc_data assessment
            (done ++ [PDict (dict_set (lit "mapping_source") (PStr (lit "ai")) m)])
      | _ => Raise RuntimeError
      end
  end.

Definition execute `{Service} (api_key : str) (questions : list dict)
  (uoc_data : pyval) (assessment : str) : outcome batch_result :=
  try_except
    (if negb (nonempty api_key) then Raise RuntimeError
     else
       do all <- map_all 0 questions uoc_data assessment [] in
       do a <- _analyze_mapping_coverage all uoc_data in
       Ok {| mappings := all;
             analysis := a;
             assessment_type := assessment;
             total_questions := length questions |})
    (fun e => Raise e).

End Mapping.

(** ** agents/validation_agent.py *)

Module Validation.

(** [s.upper()] on one character. The characters whose capital lies above
    code point 255 are left as they are; none of them becomes a letter of
    the words [upper] is compared with below. *)
Definition upper_char (c : char) : char :=
  if is_lower_az c || between 224 246 c || between 248 254 c
  then ascii_of_nat (code c - 32) else c.

Definition upper (s : str) : str := map upper_char s.

(** A dict from strings to counts, in insertion order:
    [d[k] = d.get(k, 0) + 1]. *)
Fixpoint bump (k : str) (d : list (str * nat)) : list (str * nat) :=
  match d with
  | [] => [(k, 1)]
  | (k', n) :: d' => if eqs k k' then (k', S n) :: d' else (k', n) :: bump k d'
  end.

Fixpoint count_of (k : str) (d : list (str * nat)) : nat :=
  match d with
  | [] => 0
  | (k', n) :: d' => if eqs k k' then n else count_of k d'
  end.

(** An entry of [element_coverage]. *)
Record element_entry : Type := {
  count : nat;
  confidence_sum : Num.num;
  questions : list pyval
}.

(** [element_coverage[element_id]] created if missing, then updated. *)
Fixpoint attribute (element_id : str) (confidence : Num.num) (qid : pyval)
  (d : list (str * element_entry)) : list (str * element_entry) :=
  match d with
  | [] =>
      [ (element_id,
         {| count := 1;
            confidence_sum := Num.add (Num.NInt 0) confidence;
            questions := [qid] |}) ]
  | (k, e) :: d' =>
      if eqs element_id k then
        (k, {| count := S (count e);
               confidence_sum := Num.add (confidence_sum e) confidence;
               questions := questions e ++ [qid] |}) :: d'
      else (k, e) :: attribute element_id confidence qid d'
  end.

(** The local state of the loop over the mappings. *)
Record tallies : Type := {
  assessment_methods : list (str * nat);
  bloom_levels : list (str * nat);
  element_coverage : list (str * element_entry);
  low_confidence_qids : list pyval;
  missing_evidence_qids : list pyval;
  non_higher_order_qids : list pyval
}.

Definition no_tallies : tallies :=
  {| assessment_methods := []; bloom_levels := []; element_coverage := [];
     low_confidence_qids := []; missing_evidence_qids := [];
     non_higher_order_qids := [] |}.

(** A value read as a dict key or a label: these are strings in a session;
    a value of another type is outside the embedding. *)
Definition as_str (v : pyval) : outcome str :=
  match v with
  | PStr s => Ok s
  | _ => Raise TypeError
  end.

Definition as_number (v : pyval) : outcome Num.num :=
  match Num.as_num v with
  | Some n => Ok n
  | None => Raise TypeError
  end.

Definition higher_order_levels : list str :=
  map lit ["APPLY"; "ANALYZE"; "EVALUATE"; "CREATE"]%string.

Fixpoint attribute_elements (qid : pyval) (elements : list pyval)
  (d : list (str * element_entry)) : outcome (list (str * element_entry)) :=
  match elements with
  | [] => Ok d
  | element :: rest =>
      do id <- py_get (lit "element_id") (PStr (lit "Unknown")) element in
      do element_id <- as_str id in
      do score <- py_get (lit "confidence_score") (PInt 0) element in
      do confidence <- as_number score in
      attribute_elements qid rest (attribute element_id confidence qid d)
  end.

(** [for item in ma.get(cat, []) or []: scores.append(...)] *)
Definition scores_of (cat : str) (ma : pyval) : outcome (list pyval) :=
  do value <- py_get cat (PList []) ma in
  do items <- (if truthy value then py_iter value else Ok []) in
  map_outcome (py_get (lit "confidence_score") (PInt 0)) items.

Fixpoint sum_scores (scores : list pyval) (acc : Num.num) : outcome Num.num :=
  match scores with
  | [] => Ok acc
  | s :: rest => do n <- as_number s in sum_scores rest (Num.add acc n)
  end.

(** [x < threshold] for a float threshold. *)
Definition below (x : Num.num) (threshold : Q) : bool :=
  match x with
  | Num.NInt z => Num.Qltb (inject_Z z) threshold
  | Num.NFloat q => Num.Qltb q threshold
  | Num.NNonFinite NegInf => true
  | Num.NNonFinite _ => false
  end.

Definition analyse_mapping (t : tallies) (mapping : pyval) : outcome tallies :=
  do method_value <- py_get (lit "assessment_type") (PStr (lit "KBA")) mapping in
  do method <- as_str method_value in
  do bloom <- py_get (lit "bloom_taxonomy") (PDict []) mapping in
  do level_value <- py_get (lit "primary_level") (PStr (lit "UNDERSTAND")) bloom in
  do bloom_level <- as_str level_value in
  do qid <- py_get (lit "question_id") PNone mapping in
  do ma <- py_get (lit "mapping_analysis") (PDict []) mapping in
  do mapped_elements <- py_get (lit "mapped_elements") (PList []) ma in
  do elements <- py_iter mapped_elements in
  do coverage <- attribute_elements qid elements (element_coverage t) in
  do ke <- py_get (lit "mapped_knowledge_evidence") PNone ma in
  do pe <- py_get (lit "mapped_performance_evidence") PNone ma in
  do s1 <- scores_of (lit "mapped_elements") ma in
  do s2 <- scores_of (lit "mapped_performance_criteria") ma in
  do s3 <- scores_of (lit "mapped_performance_evidence") ma in
  do s4 <- scores_of (lit "mapped_knowledge_evidence") ma in
  let scores := s1 ++ s2 ++ s3 ++ s4 in
  do total <- sum_scores scores (Num.NInt 0) in
  let low :=
    match scores with
    | [] => false
    | _ :: _ => below (Num.div_count total (length scores)) (6 # 10)
    end in
  Ok {| assessment_methods := bump method (assessment_methods t);
        bloom_levels := bump bloom_level (bloom_levels t);
        element_coverage := coverage;
        low_confidence_qids :=
          low_confidence_qids t ++ (if low then [qid] else []);
        missing_evidence_qids :=
          missing_evidence_qids t
          ++ (if negb (truthy ke) && negb (truthy pe) then [qid] else []);
        non_higher_order_qids :=
          non_higher_order_qids t
          ++ (if existsb (eqs (upper bloom_level)) higher_order_levels
              then [] else [qid]) |}.

Fixpoint analyse_mappings (t : tallies) (actual_mappings : list pyval)
  : outcome tallies :=
  match actual_mappings with
  | [] => Ok t
  | mapping :: rest =>
      do t' <- analyse_mapping t mapping in analyse_mappings t' rest
  end.

Definition strs (l : list string) : pyval := PList (map (fun s => PStr (lit s)) l).

Definition element_ids (d : list (str * element_entry)) : pyval :=
  PList (map (fun kv => PStr (fst kv)) d).

(** The task of one under-covered element. *)
Definition element_task (element_id : str) (e : element_entry) : pyval :=
  PDict
    [ (lit "id", PStr (lit "remed_element_" ++ element_id));
      (lit "standard_code", PStr (lit "1.8"));
      (lit "category", PStr (lit "coverage"));
      (lit "severity", PStr (lit "moderate"));
      (lit "summary", PStr (lit "Increase coverage for " ++ element_id));
      (lit "rationale",
        PStr (element_id ++ lit " has only " ++ str_of_nat (count e)
              ++ lit " question(s)."));
      (lit "impacted_elements", PList [PStr element_id]);
      (lit "impacted_questions", PList (questions e));
      (lit "suggested_actions",
        strs [ "Draft 1-2 additional assessment items aligned to this element";
               "Ensure at least one Performance Criterion under this element is explicitly assessed" ]);
      (lit "owner_role", PStr (lit "assessor"));
      (lit "due_days", PInt 7);
      (lit "acceptance_criteria",
        strs [ "At least 2 questions map to the element";
               "Minimum one PC under the element covered with >=70% mapping confidence" ]) ].

(** [for element_id, coverage in element_coverage.items():
       if coverage['count'] < 2: remediation_tasks.append(...)] *)
Definition element_tasks (d : list (str * element_entry)) : list pyval :=
  flat_map
    (fun kv => if count (snd kv) <? 2 then [element_task (fst kv) (snd kv)] else [])
    d.

Definition task (id standard category severity summary : string)
  (rationale : str)
  (impacted_elements impacted_questions : pyval) (actions : list string)
  (owner : string) (due : Z) (acceptance : list string) : pyval :=
  PDict
    [ (lit "id", PStr (lit id));
      (lit "standard_code", PStr (lit standard));
      (lit "category", PStr (lit category));
      (lit "severity", PStr (lit severity));
      (lit "summary", PStr (lit summary));
      (lit "rationale", PStr rationale);
      (lit "impacted_elements", impacted_elements);
      (lit "impacted_questions", impacted_questions);
      (lit "suggested_actions", strs actions);
      (lit "owner_role", PStr (lit owner));
      (lit "due_days", PInt due);
      (lit "acceptance_criteria", strs acceptance) ].

Definition pep_task (t : tallies) (total_questions : nat) : pyval :=
  task "remed_method_pep" "1.4" "assessment_method" "moderate"
    "Increase practical/workplace evidence (PEP)"
    (lit "PEP items are "
     ++ str_of_nat (count_of (lit "PEP") (assessment_methods t))
     ++ lit " of " ++ str_of_nat total_questions
     ++ lit "; target at least 20%.")
    (element_ids (element_coverage t)) (PList (non_higher_order_qids t))
    [ "Add 2-3 workplace scenario tasks with observable performance evidence";
      "Collect third-party reports or logs demonstrating competency in context" ]
    "assessor" 10 [ "PEP items reach >=20% of total questions" ].

Definition higher_order_count (t : tallies) : nat :=
  count_of (lit "EVALUATE") (bloom_levels t)
  + count_of (lit "ANALYZE") (bloom_levels t)
  + count_of (lit "CREATE") (bloom_levels t).

(** The remediation tasks, in the order they are appended. The tests
    [x / max(1, total) < 0.2] and [... < 0.1] are [5 * x < max(1, total)]
    and [10 * x < max(1, total)]. The en dash of the suggested actions
    (code point 8211) is written as a hyphen. *)
Definition remediation_tasks_of (t : tallies) (total_questions : nat)
  : list pyval :=
  let denominator := Nat.max 1 total_questions in
  element_tasks (element_coverage t)
  ++ (if 5 * count_of (lit "PEP") (assessment_methods t) <? denominator
      then [pep_task t total_questions] else [])
  ++ (if 10 * higher_order_count t <? denominator
      then [ task "remed_bloom_higher" "1.4" "cognitive_progression" "moderate"
               "Add higher-order questions (ANALYZE/EVALUATE/CREATE)"
               (lit "Higher-order questions below 10% threshold.")
               (element_ids (element_coverage t))
               (PList (non_higher_order_qids t))
               [ "Add 2-3 evaluation-level prompts requiring rationale and justification";
                 "Convert 1-2 recall items into scenario-based analysis tasks" ]
               "assessor" 7
               [ ">=10% items at ANALYZE/EVALUATE/CREATE levels" ] ]
      else [])
  ++ (match missing_evidence_qids t with
      | [] => []
      | _ :: _ =>
          [ task "remed_evidence_alignment" "1.5" "evidence" "high"
              "Add Knowledge/Performance Evidence alignment"
              (lit "Some questions lack explicit KE/PE mapping.")
              (element_ids (element_coverage t))
              (PList (missing_evidence_qids t))
              [ "Amend items to reference specific KE/PE requirements";
                "Attach marking guidance explaining how evidence is judged sufficient/authentic/current" ]
              "assessor" 5
              [ "All items have KE or PE linkage documented" ] ]
      end)
  ++ (match low_confidence_qids t with
      | [] => []
      | _ :: _ =>
          [ task "remed_low_confidence" "1.6" "judgement_quality" "medium"
              "Refine low-confidence mappings"
              (lit "Average mapping confidence <60% for listed items.")
              (element_ids (element_coverage t))
              (PList (low_confidence_qids t))
              [ "Clarify wording of the question to target the intended element/PC";
                "Add assessor notes with explicit evidence indicators" ]
              "validator" 5
              [ "Re-mapped items reach >=70% confidence" ] ]
      end).

(** What is kept of the result of [analyze_coverage_quality]: the element
    tallies and the remediation tasks. The summary metrics, the percentage
    tables and the gap texts are derived from the same tallies. *)
Record coverage_quality : Type := {
  element_analysis : list (str * element_entry);
  remediation_tasks : list pyval
}.

(** [session_data.get('mappings', [])], unwrapped when it is the result
    record of the mapping stage. *)
Definition actual_mappings_of (session_data : pyval) : outcome (list pyval) :=
  do mappings <- py_get (lit "mappings") (PList []) session_data in
  match mappings with
  | PDict d =>
      match dict_get (lit "mappings") d with
      | Some inner => py_iter inner
      | None => py_iter mappings
      end
  | other => py_iter other
  end.

Definition analyze_coverage_quality (session_data : pyval)
  : outcome coverage_quality :=
  do actual_mappings <- actual_mappings_of session_data in
  do t <- analyse_mappings no_tallies actual_mappings in
  Ok {| element_analysis := element_coverage t;
        remediation_tasks := remediation_tasks_of t (length actual_mappings) |}.

End Validation.

(** * Properties *)

(** ** Characters and strings *)

Lemma eqc_eq (a b : char) : eqc a b = true <-> a = b.
Proof.
  unfold eqc, code. rewrite Nat.eqb_eq. split; [|congruence].
  intros E. rewrite <- (ascii_nat_embedding a), <- (ascii_nat_embedding b).
  now rewrite E.
Qed.

Lemma eqc_refl (a : char) : eqc a a = true.
Proof. now apply eqc_eq. Qed.

Lemma eqs_eq (a b : str) : eqs a b = true <-> a = b.
Proof.
  revert b. induction a as [|x a IH]; intros [|y b]; simpl; try easy.
  rewrite andb_true_iff, eqc_eq, IH. split.
  - intros [-> ->]. reflexivity.
  - intros E. inversion E. auto.
Qed.

Lemma eqs_refl (a : str) : eqs a a = true.
Proof. now apply eqs_eq. Qed.

Lemma drop_while_idem (p : char -> bool) (s : str) :
  drop_while p (drop_while p s) = drop_while p s.
Proof.
  induction s as [|c s IH]; simpl; [reflexivity|].
  destruct (p c) eqn:E; [exact IH|]. simpl. now rewrite E.
Qed.

Lemma take_drop_while (p : char -> bool) (s : str) :
  take_while p s ++ drop_while p s = s.
Proof.
  induction s as [|c s IH]; simpl; [reflexivity|].
  destruct (p c); simpl; [now rewrite IH | reflexivity].
Qed.

Lemma length_drop_while (p : char -> bool) (s : str) :
  length (drop_while p s) <= length s.
Proof.
  induction s as [|c s IH]; simpl; [lia|]. destruct (p c); simpl; lia.
Qed.

(** A text that does not start with a blank. *)
Definition head_ok (s : str) : Prop :=
  match s with
  | [] => True
  | c :: _ => is_space c = false
  end.

Lemma head_ok_drop_while (s : str) : head_ok (drop_while is_space s).
Proof.
  induction s as [|c s IH]; simpl; [exact I|].
  destruct (is_space c) eqn:E; [exact IH | exact E].
Qed.

Lemma drop_while_head_ok (s : str) : head_ok s -> drop_while is_space s = s.
Proof. destruct s as [|c s]; simpl; [reflexivity|]. now intros ->. Qed.

Lemma head_ok_app (s t : str) : s <> [] -> head_ok s -> head_ok (s ++ t).
Proof. destruct s; simpl; [congruence | auto]. Qed.

(** A text that [strip] leaves alone and that is not empty. *)
Definition trimmed (s : str) : Prop :=
  s <> [] /\ head_ok s /\ head_ok (rev s).

Lemma strip_trimmed (s : str) : trimmed s -> strip s = s.
Proof.
  intros (_ & Hh & Hl). unfold strip, lstrip, rstrip.
  rewrite (drop_while_head_ok s Hh), (drop_while_head_ok _ Hl).
  apply rev_involutive.
Qed.

Lemma rev_eq_nil {A : Type} (l : list A) : rev l = [] -> l = [].
Proof.
  intros E. apply (f_equal (@length A)) in E. rewrite length_rev in E.
  destruct l; [reflexivity | discriminate].
Qed.

Lemma head_ok_rstrip (t : str) : head_ok t -> head_ok (rstrip t).
Proof.
  unfold rstrip. destruct t as [|c t]; [intros _; exact I|].
  simpl. intros Hc.
  assert (H : exists u, drop_while is_space (rev t ++ [c]) = u ++ [c]).
  { induction (rev t) as [|x r IH]; simpl.
    - rewrite Hc. now exists [].
    - destruct (is_space x).
      + exact IH.
      + now exists (x :: r). }
  destruct H as [u ->]. rewrite rev_app_distr. simpl. exact Hc.
Qed.

Lemma trimmed_strip (s : str) : strip s <> [] -> trimmed (strip s).
Proof.
  intros Hne. split; [exact Hne|]. split.
  - apply head_ok_rstrip, head_ok_drop_while.
  - unfold strip, rstrip. rewrite rev_involutive. apply head_ok_drop_while.
Qed.

(** ** Chunk planning (ChunkPlanner) *)

Section ChunkPlanner.
Import Extract.

Lemma join_cons2 (sep a b : str) (l : list str) :
  join sep (a :: b :: l) = a ++ sep ++ join sep (b :: l).
Proof. reflexivity. Qed.

Lemma join_snoc (sep : str) (run : list str) (q : str) :
  run <> [] -> join sep (run ++ [q]) = join sep run ++ sep ++ q.
Proof.
  induction run as [|a run IH]; [congruence|]. intros _.
  destruct run as [|b run]; [reflexivity|].
  change ((a :: b :: run) ++ [q]) with (a :: b :: (run ++ [q])).
  rewrite !join_cons2.
  change (b :: run ++ [q]) with ((b :: run) ++ [q]).
  rewrite IH by discriminate. now rewrite <- !app_assoc.
Qed.

Lemma join_nonempty (sep : str) (run : list str) :
  Forall trimmed run -> run <> [] -> join sep run <> [].
Proof.
  intros H Hne. destruct run as [|a run]; [congruence|].
  inversion H as [|? ? (Ha & _) _]; subst.
  destruct run; simpl; [exact Ha|]. destruct a; [congruence | discriminate].
Qed.

Lemma trimmed_join (run : list str) :
  Forall trimmed run -> run <> [] -> trimmed (join nl run).
Proof.
  intros H Hne. split; [now apply join_nonempty|]. split.
  - destruct run as [|a run]; [congruence|].
    inversion H as [|? ? (Ha & Hh & _) _]; subst.
    destruct run; [exact Hh|]. rewrite join_cons2. now apply head_ok_app.
  - induction run as [|a run IH]; [congruence|].
    inversion H as [|? ? (Ha & _ & Hl) Hrun]; subst.
    destruct run as [|b run]; [exact Hl|].
    rewrite join_cons2, !rev_app_distr, <- app_assoc.
    apply head_ok_app.
    + intros E. apply rev_eq_nil in E. revert E.
      apply join_nonempty; [exact Hrun | discriminate].
    + apply IH; [exact Hrun | discriminate].
Qed.

Lemma nonempty_true (s : str) : nonempty s = true <-> s <> [].
Proof. destruct s; simpl; split; congruence. Qed.

Lemma nonempty_join (run : list str) :
  Forall trimmed run -> nonempty (join nl run) = true <-> run <> [].
Proof.
  intros H. rewrite nonempty_true. split.
  - intros Hj ->. now apply Hj.
  - now apply join_nonempty.
Qed.


(** The loop of [_group_into_chunks] on runs of fragments instead of
    joined text. *)
Fixpoint pack (max_size : Z) (qs : list str) (closed : list (list str))
  (run : list str) : list (list str) * list str :=
  match qs with
  | [] => (closed, run)
  | q :: rest =>
      if (max_size <? len (join nl run ++ q))%Z && nonempty (join nl run)
      then pack max_size rest (closed ++ [run]) [q]
      else pack max_size rest closed (run ++ [q])
  end.

Lemma group_loop_pack (max_size : Z) (qs : list str) :
  forall closed run,
    Forall trimmed qs -> Forall trimmed run ->
    group_loop max_size qs (map (join nl) closed) (join nl run)
    = (map (join nl) (fst (pack max_size qs closed run)),
       join nl (snd (pack max_size qs closed run))).
Proof.
  induction qs as [|q qs IH]; intros closed run Hqs Hrun; [reflexivity|].
  inversion Hqs as [|? ? Hq Hqs']; subst. cbn [group_loop pack].
  destruct ((max_size <? len (join nl run ++ q))%Z && nonempty (join nl run))
    eqn:E.
  - apply andb_true_iff in E as [_ Hne].
    apply (nonempty_join run Hrun) in Hne.
    rewrite (strip_trimmed (join nl run)) by now apply trimmed_join.
    assert (Hq1 : Forall trimmed [q]) by (constructor; [exact Hq | constructor]).
    specialize (IH (closed ++ [run]) [q] Hqs' Hq1).
    rewrite map_app in IH. exact IH.
  - assert (Ej : (if nonempty (join nl run) then join nl run ++ nl ++ q else q)
                 = join nl (run ++ [q])).
    { destruct run as [|a run]; [reflexivity|].
      assert (Hne : a :: run <> []) by discriminate.
      rewrite (proj2 (nonempty_join (a :: run) Hrun) Hne).
      now rewrite join_snoc. }
    rewrite Ej. apply IH; [exact Hqs'|].
    apply Forall_app. split; [exact Hrun | constructor; [exact Hq | constructor]].
Qed.

Lemma pack_concat (max_size : Z) (qs : list str) :
  forall closed run,
    Forall trimmed qs -> Forall trimmed run ->
    Forall (fun r => r <> []) closed ->
    concat (fst (pack max_size qs closed run)) ++ snd (pack max_size qs closed run)
    = concat closed ++ run ++ qs
    /\ Forall (fun r => r <> []) (fst (pack max_size qs closed run))
    /\ Forall trimmed (snd (pack max_size qs closed run)).
Proof.
  induction qs as [|q qs IH]; intros closed run Hqs Hrun Hclosed;
    cbn [pack].
  - simpl. now rewrite app_nil_r.
  - inversion Hqs as [|? ? Hq Hqs']; subst.
    assert (Hq1 : Forall trimmed [q]) by (constructor; [exact Hq | constructor]).
    destruct ((max_size <? len (join nl run ++ q))%Z && nonempty (join nl run))
      eqn:E.
    + apply andb_true_iff in E as [_ Hne].
      apply (nonempty_join run Hrun) in Hne.
      destruct (IH (closed ++ [run]) [q] Hqs' Hq1) as (Hc & Hf & Ht).
      * apply Forall_app. split; [exact Hclosed | constructor; [exact Hne | constructor]].
      * split; [|split; assumption]. rewrite Hc, concat_app. simpl.
        now rewrite app_nil_r, <- !app_assoc.
    + destruct (IH closed (run ++ [q]) Hqs') as (Hc & Hf & Ht).
      * apply Forall_app. split; assumption.
      * exact Hclosed.
      * split; [|split; assumption]. rewrite Hc. now rewrite <- !app_assoc.
Qed.

(** The fragments [_split_by_questions] keeps are trimmed. *)
Lemma split_by_questions_trimmed (text : str) :
  Forall trimmed (_split_by_questions text).
Proof.
  unfold _split_by_questions. apply Forall_forall. intros f Hf.
  apply list_elem_of_filter in Hf as [Hs Hin].
  apply list_elem_of_In, in_map_iff in Hin as (piece & <- & _).
  apply trimmed_strip. unfold substantial in Hs.
  apply andb_true_iff in Hs as [Hne _]. now apply nonempty_true.
Qed.

Lemma join_concat (runs : list (list str)) :
  Forall (fun r => r <> []) runs -> Forall (Forall trimmed) runs ->
  join nl (map (join nl) runs) = join nl (concat runs).
Proof.
  induction runs as [|r runs IH]; intros Hne Ht; [reflexivity|].
  inversion Hne as [|? ? Hr Hne']; inversion Ht as [|? ? Htr Ht']; subst.
  destruct runs as [|r2 runs].
  - simpl. now rewrite app_nil_r.
  - change (map (join nl) (r :: r2 :: runs))
      with (join nl r :: join nl r2 :: map (join nl) runs).
    rewrite join_cons2.
    change (join nl r2 :: map (join nl) runs) with (map (join nl) (r2 :: runs)).
    rewrite IH by assumption.
    change (concat (r :: r2 :: runs)) with (r ++ concat (r2 :: runs)).
    assert (Hc : concat (r2 :: runs) <> []).
    { inversion Hne' as [|? ? Hr2 _]; subst. simpl. destruct r2; [congruence|discriminate]. }
    clear IH. revert Hr. generalize (concat (r2 :: runs)) Hc. clear.
    intros c Hc Hr. induction r as [|a r IHr]; [congruence|].
    destruct r as [|b r].
    + destruct c; [congruence | reflexivity].
    + change ((a :: b :: r) ++ c) with (a :: b :: (r ++ c)).
      rewrite !join_cons2. change (b :: r ++ c) with ((b :: r) ++ c).
      rewrite <- IHr by discriminate. now rewrite <- !app_assoc.
Qed.

Lemma re_split_go_concat (cur s : str) :
  concat (re_split_go cur s) = rev cur ++ s.
Proof.
  revert cur. induction s as [|c s IH]; intros cur; simpl.
  - now rewrite !app_nil_r.
  - destruct (at_number_token (c :: s)); simpl; rewrite IH; simpl.
    + reflexivity.
    + now rewrite <- app_assoc.
Qed.

(** The plan [_process_in_chunks] makes for a text. *)
Definition chunk_plan (text : str) (max_size : Z) : list str :=
  _group_into_chunks (_split_by_questions text) max_size.

(** The groups the specification speaks of: the pieces of the text that
    begin at a question-number token, blanks stripped. *)
Definition question_number_groups (text : str) : list str :=
  filter (fun g => at_number_token g = true) (map strip (re_split_numbers text)).

Definition short_group_text : str :=
  join nl [lit "1. Yes"; lit "2. Describe the procedure for hand hygiene"].

(** C2, as stated, fails: the group [1. Yes] of [short_group_text] is one of
    its question-number groups and occurs in no chunk of the plan. *)
Lemma chunk_round_trip_counterexample :
  In (lit "1. Yes") (question_number_groups short_group_text)
  /\ chunk_plan short_group_text 3500
     = [lit "2. Describe the procedure for hand hygiene"]
  /\ existsb (contains (lit "1. Yes")) (chunk_plan short_group_text 3500) = false.
Proof.
  split; [|split].
  - apply list_elem_of_In. vm_compute. left.
  - vm_compute. reflexivity.
  - vm_compute. reflexivity.
Qed.

(** The chunks are the newline joins of consecutive non-empty runs of the
    kept fragments, each fragment whole and in exactly one run, in the
    order of the text. *)
Lemma chunk_plan_runs (text : str) (max_size : Z) :
  exists runs : list (list str),
    concat runs = _split_by_questions text
    /\ Forall (fun r => r <> []) runs
    /\ chunk_plan text max_size = map (join nl) runs
    /\ join nl (chunk_plan text max_size)
       = join nl (_split_by_questions text).
Proof.
  pose proof (split_by_questions_trimmed text) as Ht.
  set (frags := _split_by_questions text) in *.
  pose proof (group_loop_pack max_size frags [] [] Ht (List.Forall_nil _)) as Hg.
  destruct (pack_concat max_size frags [] [] Ht (List.Forall_nil _) (List.Forall_nil _))
    as (Hc & Hf & Htr).
  simpl in Hg, Hc.
  set (p := pack max_size frags [] []) in *.
  assert (Hruns : exists runs, concat runs = frags
                    /\ Forall (fun r => r <> []) runs
                    /\ Forall (Forall trimmed) runs
                    /\ chunk_plan text max_size = map (join nl) runs).
  { assert (Hall : Forall (Forall trimmed) (fst p)).
    { apply List.Forall_forall. intros r Hr.
      apply List.Forall_forall. intros x Hx.
      apply (proj1 (List.Forall_forall trimmed frags) Ht).
      rewrite <- Hc. apply in_or_app. left.
      apply in_concat. exists r. split; assumption. }
    unfold chunk_plan, _group_into_chunks. fold frags. rewrite Hg.
    destruct (snd p) as [|a r] eqn:Er.
    - exists (fst p). rewrite app_nil_r in Hc. simpl. auto.
    - exists (fst p ++ [a :: r]).
      assert (Hne : nonempty (join nl (a :: r)) = true).
      { apply nonempty_join; [exact Htr | discriminate]. }
      rewrite Hne.
      rewrite (strip_trimmed (join nl (a :: r)))
        by (apply trimmed_join; [exact Htr | discriminate]).
      rewrite map_app, concat_app. simpl. rewrite app_nil_r.
      repeat split; try assumption.
      + apply Forall_app. split; [exact Hf|]. constructor; [discriminate | constructor].
      + apply Forall_app. split; [exact Hall|]. constructor; [exact Htr | constructor]. }
  destruct Hruns as (runs & H1 & H2 & H3 & H4).
  exists runs. repeat split; try assumption.
  rewrite H4, <- H1. now apply join_concat.
Qed.


(** *** Where the text is cut *)

(** A text that begins with a question-number token: one or more decimal
    digits, then a dot. *)
Definition begins_with_number (s : str) : Prop :=
  exists digits rest,
    digits <> []
    /\ Forall (fun c => is_decimal c = true) digits
    /\ s = digits ++ "."%char :: rest.

(** The question numbers of a text have one digit: no number token begins
    right after a digit. *)
Definition one_digit_numbers (text : str) : Prop :=
  forall before c rest,
    text = before ++ c :: rest -> is_decimal c = true ->
    ~ begins_with_number rest.

Lemma take_while_all (p : char -> bool) (s : str) :
  Forall (fun c => p c = true) (take_while p s).
Proof.
  induction s as [|c s IH]; cbn [take_while]; [constructor|].
  destruct (p c) eqn:E; [now constructor|constructor].
Qed.

(** The lookahead of the splitter holds where a number token begins. *)
Lemma at_number_token_spec (s : str) :
  at_number_token s = true <-> begins_with_number s.
Proof.
  unfold at_number_token, begins_with_number. split.
  - pose proof (take_drop_while is_decimal s) as Hs.
    pose proof (take_while_all is_decimal s) as Hd.
    destruct (take_while is_decimal s) as [|d ds]; [discriminate|].
    destruct (drop_while is_decimal s) as [|c r]; [discriminate|].
    intros Hc. apply eqc_eq in Hc. subst c.
    exists (d :: ds), r. split; [discriminate|]. split; [exact Hd|].
    now rewrite Hs.
  - intros (digits & rest & Hne & Hd & ->).
    assert (take_while is_decimal (digits ++ "."%char :: rest) = digits
            /\ drop_while is_decimal (digits ++ "."%char :: rest)
               = "."%char :: rest) as [-> ->].
    { clear Hne. induction Hd as [|d ds Hdd Hds IH]; [now split|].
      cbn [app take_while drop_while]. rewrite Hdd.
      destruct IH as [-> ->]. now split. }
    destruct digits; [congruence|reflexivity].
Qed.

(** No lookahead holds right after a digit. *)
Definition quiet_after_digits (s : str) : Prop :=
  forall before c rest,
    s = before ++ c :: rest -> is_decimal c = true ->
    at_number_token rest = false.

Lemma one_digit_quiet (text : str) :
  one_digit_numbers text -> quiet_after_digits text.
Proof.
  intros H before c rest Ht Hc.
  destruct (at_number_token rest) eqn:E; [|reflexivity].
  apply at_number_token_spec in E. now destruct (H before c rest Ht Hc).
Qed.

Lemma quiet_after_digits_tail (c : char) (s : str) :
  quiet_after_digits (c :: s) -> quiet_after_digits s.
Proof.
  intros H before d rest Hs Hd. apply (H (c :: before) d rest); [|exact Hd].
  now rewrite Hs.
Qed.

(** A token of one digit: the digit, then the dot. *)
Lemma one_digit_token (c : char) (s : str) :
  at_number_token (c :: s) = true -> at_number_token s = false ->
  is_decimal c = true /\ exists r, s = "."%char :: r.
Proof.
  unfold at_number_token. cbn [take_while drop_while].
  destruct (is_decimal c) eqn:Hc; [|discriminate].
  destruct s as [|d s]; [discriminate|]. cbn [take_while drop_while].
  destruct (is_decimal d) eqn:Hd.
  - intros H1 H2. rewrite H1 in H2. discriminate.
  - intros H1 _. apply eqc_eq in H1. subst d. split; [reflexivity|].
    now exists s.
Qed.

(** No lookahead holds inside a piece, the text that follows taken into
    account. *)
Fixpoint cut_ok (pieces : list str) : Prop :=
  match pieces with
  | [] => True
  | g :: rest =>
      (forall a b, g = a ++ b -> a <> [] -> b <> [] ->
                   at_number_token (b ++ concat rest) = false)
      /\ cut_ok rest
  end.

Lemma re_split_go_pieces (s : str) :
  quiet_after_digits s ->
  forall cur,
  exists first rest,
    re_split_go cur s = (rev cur ++ first) :: rest
    /\ s = first ++ concat rest
    /\ (forall a b, first = a ++ b -> b <> [] ->
                    at_number_token (b ++ concat rest) = false)
    /\ (rest = [] \/ at_number_token (concat rest) = true)
    /\ Forall begins_with_number rest
    /\ cut_ok rest.
Proof.
  induction s as [|c s IH]; intros Hq cur.
  - exists [], []. cbn. rewrite app_nil_r. repeat split; auto.
    intros a b Hab Hb. destruct a; destruct b; try discriminate. congruence.
  - specialize (IH (quiet_after_digits_tail c s Hq)).
    cbn [re_split_go]. destruct (at_number_token (c :: s)) eqn:E.
    + destruct (IH [c]) as (first & rest & Hr & Hs & Hquiet & Hnext & Hb & Hc).
      assert (at_number_token s = false) as Hs0.
      { apply (Hq [] c s); [reflexivity|].
        unfold at_number_token in E. cbn [take_while] in E.
        destruct (is_decimal c); [reflexivity|discriminate]. }
      destruct (one_digit_token c s E Hs0) as [Hdigit [r Hdot]].
      assert (exists f, first = "."%char :: f) as [f Hf].
      { destruct first as [|x f].
        - cbn [app] in Hs. destruct Hnext as [->|Hnext].
          + cbn in Hs. congruence.
          + rewrite <- Hs in Hnext. congruence.
        - rewrite Hdot in Hs. injection Hs as <- _. now exists f. }
      exists [], ((c :: first) :: rest). rewrite app_nil_r, Hr.
      cbn [rev app concat]. split; [reflexivity|].
      split; [now rewrite Hs|]. split.
      { intros a b Hab Hne. destruct a; destruct b; try discriminate.
        congruence. }
      split; [right; now rewrite <- Hs|]. split.
      * constructor; [|exact Hb]. exists [c], f. rewrite Hf.
        repeat split; [discriminate|].
        constructor; [exact Hdigit|constructor].
      * split; [|exact Hc]. intros a b Hab Ha Hne.
        destruct a as [|x a]; [congruence|]. injection Hab as _ Hab.
        now apply (Hquiet a b).
    + destruct (IH (c :: cur)) as (first & rest & Hr & Hs & Hquiet & Hnext & Hb & Hc).
      exists (c :: first), rest. rewrite Hr. cbn [rev].
      rewrite <- app_assoc. cbn [app]. split; [reflexivity|].
      split; [now rewrite Hs|]. split; [|auto].
      intros a b Hab Hne. destruct a as [|x a].
      * cbn [app] in Hab. subst b. cbn [app]. now rewrite <- Hs.
      * injection Hab as _ Hab. now apply (Hquiet a b).
Qed.

(** Where the lookahead holds, a piece begins. *)
Lemma cut_ok_starts (rest : list str) :
  cut_ok rest ->
  forall before after,
    concat rest = before ++ after -> at_number_token after = true ->
    exists i, before = concat (firstn i rest) /\ after = concat (skipn i rest).
Proof.
  induction rest as [|g rest IH]; intros Hc before after Hs Ha.
  - cbn in Hs. destruct before; destruct after; try discriminate.
  - destruct Hc as [Hg Hc]. cbn [concat] in Hs.
    apply app_eq_app in Hs as [l [[-> ->]|[-> Hs]]].
    + destruct before as [|x before].
      * exists 0. split; [reflexivity|]. cbn. reflexivity.
      * destruct l as [|y l].
        -- exists 1. cbn. now rewrite !app_nil_r.
        -- rewrite (Hg (x :: before) (y :: l)) in Ha; try discriminate.
           reflexivity.
    + destruct (IH Hc l after Hs Ha) as (i & -> & ->).
      exists (S i). cbn. split; reflexivity.
Qed.

Lemma not_space_digit (c : char) : is_decimal c = true -> is_space c = false.
Proof.
  unfold is_decimal, is_space, between. intros H.
  apply andb_true_iff in H as [H1 H2].
  apply Nat.leb_le in H1, H2.
  repeat match goal with
         | |- context [?a <=? ?b] => destruct (Nat.leb_spec a b)
         | |- context [?a =? ?b] => destruct (Nat.eqb_spec a b)
         end; cbn; lia.
Qed.

(** Stripping a group leaves its number token in place. *)
Lemma strip_begins_with_number (g : str) :
  begins_with_number g -> begins_with_number (strip g).
Proof.
  intros (digits & rest & Hne & Hd & ->).
  destruct digits as [|d digits]; [congruence|].
  inversion Hd as [|? ? Hd0 Hds]; subst.
  unfold strip, lstrip. cbn [app drop_while].
  rewrite (not_space_digit d Hd0).
  exists (d :: digits), (rev (drop_while is_space (rev rest))).
  split; [discriminate|]. split; [exact Hd|].
  unfold rstrip. change (d :: digits ++ "."%char :: rest)
    with ((d :: digits) ++ "."%char :: rest).
  generalize (d :: digits). intros l. rewrite rev_app_distr. cbn [rev].
  rewrite <- app_assoc. cbn [app].
  induction (rev rest) as [|x r IH]; cbn [app drop_while].
  - change (is_space ".") with false. cbn. now rewrite rev_involutive.
  - destruct (is_space x) eqn:Ex; [exact IH|].
    cbn [rev]. rewrite !rev_app_distr. cbn.
    rewrite rev_involutive, <- !app_assoc. reflexivity.
Qed.

Lemma substantial_long (q : str) : substantial q = true <-> 10 < length q.
Proof.
  unfold substantial. rewrite andb_true_iff, Nat.ltb_lt. split; [tauto|].
  intros H. split; [|exact H]. destruct q; [cbn in H; lia|reflexivity].
Qed.

(** C2 (amended): in a text whose question numbers have one digit the
    splitter cuts exactly before the number tokens: the pieces are the
    text before the first token and the question-number groups, each of
    which begins with its token, and every place of the text where a token
    begins is the beginning of a group. The fragments kept are the
    stripped pieces longer than 10 characters, in the order of the text,
    and a stripped group still begins with its token. The chunks are the
    newline joins of consecutive non-empty runs of the kept fragments,
    each fragment whole and in exactly one run; so the chunks joined by
    newlines are the kept fragments joined by newlines. *)
Theorem chunks_pack_question_groups (text : str) (max_size : Z) :
  one_digit_numbers text ->
  exists preamble groups,
    re_split_numbers text = preamble :: groups
    /\ text = preamble ++ concat groups
    /\ Forall begins_with_number groups
    /\ (forall before after,
          text = before ++ after -> begins_with_number after ->
          exists i,
            before = preamble ++ concat (firstn i groups)
            /\ after = concat (skipn i groups))
    /\ _split_by_questions text
       = filter (fun f => 10 < length f) (map strip (preamble :: groups))
    /\ Forall begins_with_number (map strip groups)
    /\ exists runs : list (list str),
         concat runs = _split_by_questions text
         /\ Forall (fun r => r <> []) runs
         /\ chunk_plan text max_size = map (join nl) runs
         /\ join nl (chunk_plan text max_size)
            = join nl (_split_by_questions text).
Proof.
  intros Hone. apply one_digit_quiet in Hone.
  destruct (re_split_go_pieces text Hone [])
    as (preamble & groups & Hr & Hs & Hquiet & _ & Hb & Hc).
  cbn [rev app] in Hr. exists preamble, groups.
  split; [exact Hr|]. split; [exact Hs|]. split; [exact Hb|]. split.
  { intros before after Ht Ha. apply at_number_token_spec in Ha.
    rewrite Hs in Ht. apply app_eq_app in Ht as [l [[-> Hl]|[-> Hl]]].
    - destruct l as [|x l].
      + exists 0. cbn. rewrite !app_nil_r. split; [reflexivity|].
        now rewrite Hl.
      + rewrite Hl, (Hquiet before (x :: l)) in Ha; try discriminate.
        reflexivity.
    - destruct (cut_ok_starts groups Hc l after Hl Ha) as (i & -> & ->).
      exists i. split; reflexivity. }
  split.
  { unfold _split_by_questions. unfold re_split_numbers in *. rewrite Hr.
    apply list_filter_iff. intros q. apply substantial_long. }
  split.
  { apply List.Forall_forall. intros f Hf. apply in_map_iff in Hf as (g & <- & Hg).
    apply strip_begins_with_number.
    exact (proj1 (List.Forall_forall _ _) Hb g Hg). }
  exact (chunk_plan_runs text max_size).
Qed.

(** The check of [one_digit_numbers] on a given text. *)
Fixpoint one_digit_check (s : str) : bool :=
  match s with
  | [] => true
  | c :: s' => negb (is_decimal c && at_number_token s') && one_digit_check s'
  end.

Lemma one_digit_check_ok (text : str) :
  one_digit_check text = true -> one_digit_numbers text.
Proof.
  intros Hc before c rest -> Hd Hb. apply at_number_token_spec in Hb.
  induction before as [|x before IH]; cbn [app one_digit_check] in Hc.
  - rewrite Hd, Hb in Hc. discriminate.
  - apply andb_true_iff in Hc as [_ Hc]. exact (IH Hc).
Qed.

End ChunkPlanner.

Lemma chunks_pack_question_groups_witness :
  exists preamble groups,
    Extract.re_split_numbers short_group_text = preamble :: groups
    /\ Forall begins_with_number groups
    /\ chunk_plan short_group_text 3500
       = [lit "2. Describe the procedure for hand hygiene"].
Proof.
  destruct (chunks_pack_question_groups short_group_text 3500)
    as (preamble & groups & Hr & _ & Hb & _).
  - apply one_digit_check_ok. vm_compute. reflexivity.
  - exists preamble, groups. split; [exact Hr|]. split; [exact Hb|].
    vm_compute. reflexivity.
Defined.

(** Outside that hypothesis: before the number 10 the splitter cuts twice,
    once before each digit. *)
Example number_ten_is_cut_twice :
  Extract.re_split_numbers (lit "9. Wash. 10. Dry.")
  = [ []; lit "9. Wash. "; lit "1"; lit "0. Dry." ].
Proof. vm_compute. reflexivity. Qed.

(** ** Question extraction (QuestionExtractor) *)

Section Extractor.
Import Extract.

Lemma str_of_nat_inj (n m : nat) : str_of_nat n = str_of_nat m -> n = m.
Proof.
  unfold str_of_nat. intros E.
  apply (f_equal string_of_list_ascii) in E.
  rewrite !string_of_list_ascii_of_string in E.
  apply (f_equal NilEmpty.uint_of_string) in E.
  rewrite !NilEmpty.usu in E. injection E as E.
  apply (f_equal Nat.of_uint) in E.
  now rewrite !DecimalNat.Unsigned.of_to in E.
Qed.

Lemma Qid_inj (n m : nat) : Qid n = Qid m -> n = m.
Proof. unfold Qid. intros E. apply app_inv_head in E. now apply str_of_nat_inj. Qed.

Lemma suffixed_inj (base : str) (n m : nat) :
  suffixed base n = suffixed base m -> n = m.
Proof.
  unfold suffixed. intros E. do 2 apply app_inv_head in E.
  now apply str_of_nat_inj.
Qed.

Lemma first_free_none (mk : nat -> str) (used : gset str) (fuel : nat) :
  forall n, first_free mk used fuel n = None ->
            forall i, i < fuel -> mk (n + i) ∈ used.
Proof.
  induction fuel as [|fuel IH]; intros n Hn i Hi; [lia|].
  simpl in Hn. destruct (bool_decide (mk n ∈ used)) eqn:E; [|discriminate].
  apply bool_decide_eq_true in E.
  destruct i as [|i]; [now rewrite Nat.add_0_r|].
  replace (n + S i) with (S n + i) by lia. apply (IH (S n) Hn). lia.
Qed.

Lemma first_free_some (mk : nat -> str) (used : gset str) (fuel : nat) :
  forall n m, first_free mk used fuel n = Some m -> mk m ∉ used.
Proof.
  induction fuel as [|fuel IH]; intros n m Hm; [discriminate|].
  simpl in Hm. destruct (bool_decide (mk n ∈ used)) eqn:E.
  - now apply (IH (S n)).
  - apply bool_decide_eq_false in E. now injection Hm as <-.
Qed.

(** The identifier loops end: among [S (size used)] distinct candidates one
    is free. *)
Lemma first_free_total (mk : nat -> str) (used : gset str) (n : nat) :
  (forall a b, mk a = mk b -> a = b) ->
  exists m, first_free mk used (S (size used)) n = Some m.
Proof.
  intros Hinj.
  destruct (first_free mk used (S (size used)) n) as [m|] eqn:E; [now exists m|].
  exfalso.
  pose proof (first_free_none mk used _ n E) as Hall.
  set (cands := mk <$> seq n (S (size used))).
  assert (Hi : Inj (=) (=) mk) by (intros a b; apply Hinj).
  assert (Hnd : NoDup cands) by (apply NoDup_fmap_2; [exact Hi | apply NoDup_seq]).
  assert (Hsub : (list_to_set cands : gset str) ⊆ used).
  { intros x Hx. apply elem_of_list_to_set, list_elem_of_fmap in Hx.
    destruct Hx as (k & -> & Hk). apply elem_of_seq in Hk.
    replace k with (n + (k - n)) by lia. apply Hall. lia. }
  apply subseteq_size in Hsub.
  rewrite (size_list_to_set cands Hnd) in Hsub.
  unfold cands in Hsub. rewrite length_fmap, length_seq in Hsub. lia.
Qed.

Lemma drop_while_app_ne (p : char -> bool) (x y : str) :
  drop_while p x <> [] -> drop_while p (x ++ y) = drop_while p x ++ y.
Proof.
  induction x as [|c x IH]; simpl; [congruence|].
  destruct (p c); [exact IH | reflexivity].
Qed.

Lemma length_rstrip_app (a b : str) :
  length (rstrip b) <= length (rstrip (a ++ b)).
Proof.
  unfold rstrip. rewrite !length_rev, rev_app_distr.
  destruct (drop_while is_space (rev b)) as [|c t] eqn:E; [simpl; lia|].
  rewrite drop_while_app_ne by (rewrite E; discriminate).
  rewrite E, length_app. lia.
Qed.

Lemma length_strip_le (s : str) : length (strip s) <= length s.
Proof.
  unfold strip, rstrip, lstrip. rewrite length_rev.
  etransitivity; [apply length_drop_while|]. rewrite length_rev.
  apply length_drop_while.
Qed.

Lemma length_strip_suffix (pre g : str) :
  head_ok (pre ++ g) -> length (strip g) <= length (strip (pre ++ g)).
Proof.
  intros Hh. unfold strip at 2. unfold lstrip.
  rewrite (drop_while_head_ok _ Hh).
  rewrite <- (take_drop_while is_space g) at 2.
  rewrite app_assoc. apply length_rstrip_app.
Qed.

Lemma lazy_rest_cases (r g : str) :
  lazy_rest r = Some g ->
  (g = drop_while is_space r /\ g <> []) \/ length g = 1.
Proof.
  unfold lazy_rest. destruct (drop_while is_space r) as [|c t] eqn:E.
  - destruct (rev r); [discriminate|]. intros [= <-]. now right.
  - intros [= <-]. left. split; [reflexivity | discriminate].
Qed.

(** The heading pattern is tried first and matches every line the
    sub-question pattern matches, with a longer text: a line that passes
    the sub-question test has passed the heading test, so the sub-question
    branch of [step] is never taken. *)
Lemma sub_line_shadowed (line : str) :
  heading_line line = None -> sub_line line = None.
Proof.
  unfold heading_line, sub_line, main_match, sub_match.
  destruct (number_dot line) as [[num r]|]; [|reflexivity].
  destruct (digits_then_rest (drop_while is_space r)) as [[sub g]|] eqn:Ed;
    [|reflexivity].
  pose proof (head_ok_drop_while r) as Hh.
  set (r' := drop_while is_space r) in *.
  assert (Hr' : r' <> []).
  { intros E. rewrite E in Ed. discriminate. }
  assert (Hl : lazy_rest r = Some r').
  { unfold lazy_rest. fold r'. destruct r'; [congruence | reflexivity]. }
  rewrite Hl.
  destruct (5 <? length (strip r')) eqn:E5; [discriminate|]. intros _.
  apply Nat.ltb_ge in E5.
  assert (Hg : length (strip g) <= 10).
  { unfold digits_then_rest in Ed.
    destruct (take_while is_decimal r') as [|d ds] eqn:Et; [discriminate|].
    destruct (lazy_rest (drop_while is_decimal r')) as [t|] eqn:El.
    - injection Ed as _ <-.
      apply lazy_rest_cases in El as [[El _]|El].
      + assert (Er : r' = (take_while is_decimal r'
                           ++ take_while is_space (drop_while is_decimal r')) ++ t).
        { rewrite <- app_assoc, El, take_drop_while, take_drop_while. reflexivity. }
        rewrite Er in Hh, E5.
        pose proof (length_strip_suffix _ t Hh). lia.
      + pose proof (length_strip_le t). lia.
    - destruct (rev (d :: ds)) as [|c [|c2 t]]; try discriminate.
      injection Ed as _ <-. pose proof (length_strip_le [c]). simpl in *. lia. }
  apply Nat.ltb_ge in Hg. now rewrite Hg.
Qed.

Context `{Helpers}.

Lemma sub_question_id_total (used : gset str) (main_num sub_num : str) :
  exists id, sub_question_id used main_num sub_num = Ok id.
Proof.
  unfold sub_question_id.
  destruct (bool_decide _); [|eauto].
  destruct (first_free_total
              (suffixed (lit "Q" ++ main_num ++ lit "." ++ sub_num)) used 1
              (suffixed_inj _)) as [k ->].
  eauto.
Qed.

Lemma try_patterns_total (ps : list (str * (str -> option str)))
  (lines : list str) (i : nat) (line : str) (st : state) :
  exists st', try_patterns ps lines i line st = Ok st'.
Proof.
  induction ps as [|[pattern matcher] ps IH]; cbn [try_patterns]; [eauto|].
  destruct (matcher line) as [g|]; [|exact IH].
  destruct (10 <? length (strip g)); [|exact IH].
  destruct (first_free_total Qid (used_ids st) (question_counter st) Qid_inj)
    as [n ->].
  eauto.
Qed.

(** What [step] does, the unreachable branch left out. *)
Lemma step_cases (lines : list str) (i : nat) (raw : str) (st : state) :
  step lines i raw st
  = if negb (nonempty (strip raw)) then Ok st
    else match heading_line (strip raw) with
         | Some (num, text) =>
             Ok {| questions := questions st;
                   question_counter := question_counter st;
                   used_ids := used_ids st;
                   main_questions :=
                     <[ num := (None, heading_dict num text i) ]>
                       (main_questions st) |}
         | None => try_patterns question_patterns lines i (strip raw) st
         end.
Proof.
  unfold step. destruct (negb (nonempty (strip raw))); [reflexivity|].
  destruct (heading_line (strip raw)) as [[num text]|] eqn:E; [reflexivity|].
  now rewrite (sub_line_shadowed _ E).
Qed.

Lemma step_total (lines : list str) (i : nat) (raw : str) (st : state) :
  exists st', step lines i raw st = Ok st'.
Proof.
  rewrite step_cases. destruct (negb _); [eauto|].
  destruct (heading_line _) as [[num text]|]; [eauto|].
  apply try_patterns_total.
Qed.

Lemma scan_lines_total (lines rest : list str) :
  forall i st, exists st', scan_lines lines i rest st = Ok st'.
Proof.
  induction rest as [|raw rest IH]; intros i st; simpl; [eauto|].
  destruct (step_total lines i raw st) as [st' ->]. simpl. apply IH.
Qed.

(** The pattern-based extractor always returns a list. *)
Lemma extract_questions_from_text_total (text : str) :
  exists qs, _extract_questions_from_text text = Ok qs.
Proof.
  unfold _extract_questions_from_text.
  destruct (scan_lines_total (split_nl text) (split_nl text) 0 initial_state)
    as [st ->].
  simpl. eauto.
Qed.

Lemma chunks_loop_total (chunks : list str) :
  forall all_results, exists qs, chunks_loop [] chunks all_results = Ok qs.
Proof.
  induction chunks as [|chunk chunks IH]; intros all_results; simpl; [eauto|].
  unfold extract_with. simpl.
  destruct (extract_questions_from_text_total (_format_assessment_text chunk))
    as [qs ->].
  simpl. apply IH.
Qed.

(** C6: for every input text, without an API key, [execute_from_text]
    returns a list of question records and raises nothing, and so does the
    pattern-based extractor [_extract_questions_from_text] it falls back
    to; the identifier loops inside always end. *)
Theorem question_extraction_never_raises (text : str) :
  (exists qs, execute_from_text [] text = Ok qs)
  /\ (exists qs, _extract_questions_from_text text = Ok qs).
Proof.
  split; [|apply extract_questions_from_text_total].
  unfold execute_from_text.
  destruct (too_short text); [simpl; eauto|].
  destruct (5000 <? length text).
  - unfold _process_in_chunks.
    destruct (chunks_loop_total
                (_group_into_chunks (_split_by_questions text) 3500) [])
      as [qs ->].
    simpl. eauto.
  - unfold extract_with. simpl.
    destruct (extract_questions_from_text_total (_format_assessment_text text))
      as [qs ->].
    simpl. eauto.
Qed.

(** A record that names a parent: a sub-question. *)
Definition has_parent (q : pyval) : bool :=
  match q with
  | PDict d => dict_has (lit "parent_question") d
  | _ => false
  end.

Lemma eqs_trans_false (k k1 k2 : str) :
  eqs k k1 = false -> eqs k1 k2 = true -> eqs k k2 = false.
Proof. intros H1 H2. apply eqs_eq in H2. now subst. Qed.

Lemma dict_get_set_other (k k' : str) (v : pyval) (d : dict) :
  eqs k k' = false -> dict_get k (dict_set k' v d) = dict_get k d.
Proof.
  intros Hk. induction d as [|[k2 v2] d IH]; simpl.
  - now rewrite Hk.
  - destruct (eqs k' k2) eqn:E; simpl.
    + assert (eqs k k2 = false) as -> by (eapply eqs_trans_false; eauto).
      reflexivity.
    + now rewrite IH.
Qed.

Lemma dict_has_set_other (k k' : str) (v : pyval) (d : dict) :
  eqs k k' = false -> dict_has k (dict_set k' v d) = dict_has k d.
Proof. intros Hk. unfold dict_has. now rewrite dict_get_set_other. Qed.

Lemma dict_has_setdefault_other (k k' : str) (v : pyval) (d : dict) :
  eqs k k' = false -> dict_has k (dict_setdefault k' v d) = dict_has k d.
Proof.
  intros Hk. unfold dict_setdefault. destruct (dict_has k' d); [reflexivity|].
  now apply dict_has_set_other.
Qed.

Lemma validate_one_parent (i : nat) (d : dict) :
  dict_has (lit "parent_question") (validate_one i d)
  = dict_has (lit "parent_question") d.
Proof.
  unfold validate_one.
  repeat first
    [ rewrite dict_has_setdefault_other by reflexivity
    | rewrite dict_has_set_other by reflexivity
    | match goal with |- context [if ?b then _ else _] => destruct b end ];
    reflexivity.
Qed.

Lemma validate_from_no_parent (qs : list pyval) :
  forall i, existsb has_parent qs = false ->
            existsb has_parent (validate_from i qs) = false.
Proof.
  induction qs as [|q qs IH]; intros i Hq; [reflexivity|].
  simpl in Hq. apply orb_false_iff in Hq as [Hq Hqs].
  destruct q; cbn [validate_from existsb]; try (now rewrite Hq, Hqs).
  cbn [has_parent] in *. rewrite validate_one_parent, Hq. now apply IH.
Qed.

Lemma existsb_snoc_false {A : Type} (p : A -> bool) (l : list A) (x : A) :
  existsb p l = false -> p x = false -> existsb p (l ++ [x]) = false.
Proof. intros Hl Hx. rewrite existsb_app. simpl. now rewrite Hl, Hx. Qed.

Lemma try_patterns_no_parent (ps : list (str * (str -> option str)))
  (lines : list str) (i : nat) (line : str) (st st' : state) :
  try_patterns ps lines i line st = Ok st' ->
  existsb has_parent (questions st) = false ->
  existsb has_parent (questions st') = false.
Proof.
  induction ps as [|[pattern matcher] ps IH]; cbn [try_patterns].
  - now intros [= <-].
  - destruct (matcher line) as [g|]; [|exact IH].
    destruct (10 <? length (strip g)); [|exact IH].
    destruct (first_free _ _ _ _); [|discriminate].
    intros [= <-] Hq. simpl. now apply existsb_snoc_false.
Qed.

Lemma scan_lines_no_parent (lines rest : list str) :
  forall i st st',
    scan_lines lines i rest st = Ok st' ->
    existsb has_parent (questions st) = false ->
    existsb has_parent (questions st') = false.
Proof.
  induction rest as [|raw rest IH]; intros i st st'; simpl.
  - now intros [= <-].
  - destruct (step lines i raw st) as [st1| |] eqn:Es; try discriminate.
    simpl. intros Hscan Hq. apply (IH _ _ _ Hscan).
    rewrite step_cases in Es.
    destruct (negb _); [now injection Es as <-|].
    destruct (heading_line _) as [[num text]|].
    + now injection Es as <-.
    + now apply (try_patterns_no_parent _ _ _ _ _ _ Es).
Qed.

Lemma potential_loop_no_parent (rest : list str) :
  forall i acc, existsb has_parent acc = false ->
                existsb has_parent (potential_loop i rest acc) = false.
Proof.
  induction rest as [|raw rest IH]; intros i acc Hacc; simpl; [exact Hacc|].
  destruct (nonempty (strip raw) && looks_like_question (strip raw)).
  - apply IH. now apply existsb_snoc_false.
  - now apply IH.
Qed.

(** No sub-question is ever emitted: whatever the text, the result of the
    pattern-based extractor holds no record with a ['parent_question']. *)
Lemma no_sub_question_emitted (text : str) :
  exists qs, _extract_questions_from_text text = Ok qs
             /\ existsb has_parent qs = false.
Proof.
  unfold _extract_questions_from_text.
  destruct (scan_lines_total (split_nl text) (split_nl text) 0 initial_state)
    as [st Hst].
  rewrite Hst. simpl. eexists. split; [reflexivity|].
  apply validate_from_no_parent.
  pose proof (scan_lines_no_parent _ _ _ _ _ Hst eq_refl) as Hq.
  destruct (questions st); [|exact Hq].
  now apply potential_loop_no_parent.
Qed.

Definition orphan_sub_question_text : str :=
  lit "3.1 List three hand hygiene steps".

(** C3: the code does not do what the claim says. On the text
    [orphan_sub_question_text], one sub-question line whose parent 3 was
    never seen, the claim expects the sub-question Q3.1 and a synthesized
    placeholder Q3 in the result; the extractor reads the line as the
    heading of question 3 and returns the empty list. More generally the
    heading pattern shadows the sub-question pattern, so no record with a
    parent is emitted for any text. *)
Theorem orphan_sub_question_is_lost :
  _extract_questions_from_text orphan_sub_question_text = Ok []
  /\ (forall text, exists qs, _extract_questions_from_text text = Ok qs
                              /\ existsb has_parent qs = false).
Proof.
  split; [vm_compute; reflexivity | exact no_sub_question_emitted].
Qed.

End Extractor.

(** ** The file entry point *)

Section FileEntryPoint.
Import Extract.
Context `{Helpers} `{FileSystem}.

(** The extensions [execute] has a reader for, compared in lower case. *)
Definition supported_extensions : list str :=
  [lit ".docx"; lit ".pdf"; lit ".doc"].

Lemma eqs_neq (a b : str) : a <> b -> eqs a b = false.
Proof.
  intros Hab. destruct (eqs a b) eqn:E; [|reflexivity].
  apply eqs_eq in E. contradiction.
Qed.

Lemma read_document_unsupported (ext path : str) :
  ~ In ext supported_extensions -> read_document ext path = Raise ValueError.
Proof.
  intros Hext. unfold read_document.
  rewrite !eqs_neq; [reflexivity| | |];
    intros ->; apply Hext; unfold supported_extensions; simpl; auto.
Qed.

(** C10: for a path whose file does not exist, or whose extension (as the
    code compares it, in lower case) is none of .docx, .pdf and .doc,
    [execute] returns the empty list and raises nothing, with or without an
    API key and whatever the readers would do. *)
Theorem execute_absorbs_bad_paths (api_key file_path : str) :
  path_exists file_path = false
  \/ ~ In (lower (splitext_ext file_path)) supported_extensions ->
  execute api_key file_path = Ok [].
Proof.
  intros [Hmissing | Hext]; unfold execute.
  - now rewrite Hmissing.
  - destruct (path_exists file_path); [|reflexivity].
    cbn [negb]. now rewrite (read_document_unsupported _ _ Hext).
Qed.

End FileEntryPoint.

(** A run without the language model: the helpers answer as the source's
    fallbacks do, and a disk holds one text file and one Word file. *)
Definition offline_helpers : Extract.Helpers := {|
  Extract._classify_question_type := fun _ => lit "short_answer";
  Extract._extract_choices := fun _ _ => [];
  Extract._get_full_question_text := fun lines i => strip (nth i lines []);
  Extract._format_assessment_text := fun text => text;
  Extract._extract_questions_with_llm := fun _ => Raise RuntimeError
|}.

Definition long_text : str :=
  lit "1. Describe the procedure for hand hygiene before patient contact".

Definition small_disk : Extract.FileSystem := {|
  Extract.path_exists := fun p =>
    eqs p (lit "notes.txt") || eqs p (lit "quiz.docx");
  Extract._extract_from_docx := fun _ => Ok long_text;
  Extract._extract_from_pdf := fun _ => Ok long_text;
  Extract._extract_from_doc := fun _ => Ok long_text
|}.

Lemma execute_absorbs_bad_paths_witness :
  @Extract.execute offline_helpers small_disk [] (lit "notes.txt") = Ok []
  /\ @Extract.execute offline_helpers small_disk [] (lit "missing.docx") = Ok [].
Proof.
  split; apply execute_absorbs_bad_paths.
  - right. vm_compute. intros [E|[E|[E|[]]]]; discriminate E.
  - left. reflexivity.
Defined.

(** ** Identifier normalisation *)

Section Normalisation.
Import Mapping.

Lemma startswith_split (p s : str) :
  startswith p s = true -> s = p ++ skipn (length p) s.
Proof.
  revert s. induction p as [|a p IH]; intros [|b s]; simpl; try easy.
  intros Hs. apply andb_true_iff in Hs as [Hab Hs]. apply eqc_eq in Hab.
  subst b. f_equal. now apply IH.
Qed.

Lemma startswith_app_same (p a b : str) :
  startswith (p ++ a) (p ++ b) = startswith a b.
Proof. induction p as [|c p IH]; simpl; [reflexivity|]. now rewrite eqc_refl. Qed.

Lemma startswith_self_app (p t : str) : startswith p (p ++ t) = true.
Proof.
  rewrite <- (app_nil_r p) at 1. rewrite startswith_app_same. now destruct t.
Qed.

Lemma startswith_length (p s : str) :
  startswith p s = true -> length p <= length s.
Proof.
  intros Hs. rewrite (startswith_split _ _ Hs), length_app. lia.
Qed.

Lemma skipn_self_app (p t : str) : skipn (length p) (p ++ t) = t.
Proof. induction p; simpl; auto. Qed.

(** A prefix that matches only once the last character is there ends with
    that character. *)
Lemma startswith_last (p rest : str) (c : char) :
  startswith p (rest ++ [c]) = true -> startswith p rest = false -> In c p.
Proof.
  revert rest. induction p as [|a p IH]; intros [|b rest]; simpl; try easy.
  - intros Hs _. apply andb_true_iff in Hs as [Hac _]. apply eqc_eq in Hac.
    now left.
  - intros Hs Hn. apply andb_true_iff in Hs as [Hab Hs]. rewrite Hab in Hn.
    right. now apply (IH rest).
Qed.

Lemma undouble_single (prefix : str) (fuel : nat) (id : str) :
  startswith (prefix ++ prefix) id = false -> undouble prefix fuel id = id.
Proof. intros Hid. destruct fuel; simpl; [reflexivity|]. now rewrite Hid. Qed.

(** The loop that collapses a doubled prefix ends within [length id] steps. *)
Lemma undouble_done (prefix : str) :
  prefix <> [] ->
  forall fuel id,
    length id <= fuel ->
    startswith (prefix ++ prefix) (undouble prefix fuel id) = false.
Proof.
  intros Hp. induction fuel as [|fuel IH]; intros id Hlen.
  - destruct id; [|simpl in Hlen; lia]. destruct prefix; [easy|reflexivity].
  - simpl. destruct (startswith (prefix ++ prefix) id) eqn:Hs; [|exact Hs].
    apply IH. apply startswith_length in Hs. rewrite length_app in Hs.
    rewrite length_skipn. destruct prefix; [easy|]. simpl in *. lia.
Qed.

(** A code in canonical form: the prefix once, and a digit after it. *)
Definition canonical (prefix id : str) : bool :=
  startswith prefix id
  && negb (startswith (prefix ++ prefix) id)
  && existsb isdigit (skipn (length prefix) id).

Lemma canonical_unchanged (prefix id : str) :
  canonical prefix id = true -> normalize_id prefix id = id.
Proof.
  unfold canonical, normalize_id. intros Hc.
  apply andb_true_iff in Hc as [Hc Hd]. apply andb_true_iff in Hc as [Hp Hn].
  apply negb_true_iff in Hn.
  rewrite (undouble_single _ _ _ Hn). cbv zeta. now rewrite Hp, Hd.
Qed.

Lemma normalize_id_canonical (prefix id : str) :
  prefix <> [] -> existsb isdigit prefix = false ->
  canonical prefix (normalize_id prefix id) = true.
Proof.
  intros Hne Hnd. unfold normalize_id.
  pose proof (undouble_done prefix Hne (length id) id (Nat.le_refl _)) as H1.
  set (id1 := undouble prefix (length id) id) in *. cbv zeta.
  set (id2 := if startswith prefix id1 then id1 else prefix ++ id1).
  assert (startswith prefix id2 = true /\ startswith (prefix ++ prefix) id2 = false)
    as [Hp Hn].
  { subst id2. destruct (startswith prefix id1) eqn:E; [now split|].
    split; [apply startswith_self_app|]. now rewrite startswith_app_same. }
  destruct (existsb isdigit (skipn (length prefix) id2)) eqn:Hd.
  - unfold canonical. now rewrite Hp, Hn, Hd.
  - pose proof (startswith_split _ _ Hp) as Hsplit.
    set (rest := skipn (length prefix) id2) in *.
    unfold canonical. rewrite Hsplit, <- !app_assoc.
    rewrite startswith_self_app, startswith_app_same, skipn_self_app.
    rewrite existsb_app. cbn [lit list_ascii_of_string].
    replace (existsb isdigit ["1"%char]) with true by reflexivity.
    rewrite orb_true_r, andb_true_r. cbn [andb]. apply negb_true_iff.
    destruct (startswith prefix (rest ++ ["1"%char])) eqn:Hs; [|reflexivity].
    exfalso. rewrite Hsplit, startswith_app_same in Hn.
    pose proof (startswith_last _ _ _ Hs Hn) as Hin.
    assert (existsb isdigit prefix = true) as Hex
      by (apply existsb_exists; exists "1"%char; now split).
    congruence.
Qed.

Lemma normalize_id_idempotent (prefix id : str) :
  prefix <> [] -> existsb isdigit prefix = false ->
  normalize_id prefix (normalize_id prefix id) = normalize_id prefix id.
Proof.
  intros Hne Hnd. apply canonical_unchanged. now apply normalize_id_canonical.
Qed.

Lemma normalize_id_nonempty (prefix id : str) :
  prefix <> [] -> existsb isdigit prefix = false ->
  nonempty (normalize_id prefix id) = true.
Proof.
  intros Hne Hnd. pose proof (normalize_id_canonical prefix id Hne Hnd) as Hc.
  unfold canonical in Hc. apply andb_true_iff in Hc as [_ Hd].
  destruct (normalize_id prefix id); [|reflexivity].
  now rewrite skipn_nil in Hd.
Qed.

Lemma dict_get_set_same (k : str) (v : pyval) (d : dict) :
  dict_get k (dict_set k v d) = Some v.
Proof.
  induction d as [|[k' v'] d IH]; simpl.
  - now rewrite eqs_refl.
  - destruct (eqs k k') eqn:E; simpl; now rewrite E.
Qed.

Lemma dict_set_same (k : str) (v : pyval) (d : dict) :
  dict_get k d = Some v -> dict_set k v d = d.
Proof.
  induction d as [|[k' v'] d IH]; simpl; [discriminate|].
  destruct (eqs k k'); [now intros [= ->]|]. intros Hd. now rewrite IH.
Qed.

(** What makes a field of [_clean_mapping_ids] well formed: the id and the
    code are kept under two keys, and the prefix is a word without digits. *)
Definition field_ok (f : str * str * str) : bool :=
  let '(id_key, code_key, prefix) := f in
  negb (eqs id_key code_key) && nonempty prefix && negb (existsb isdigit prefix).

(** Two fields that share no key. *)
Definition apart (f g : str * str * str) : bool :=
  let '(id_key, code_key, _) := f in
  let '(id_key', code_key', _) := g in
  negb (eqs id_key id_key') && negb (eqs id_key code_key')
  && negb (eqs code_key id_key') && negb (eqs code_key code_key').

Fixpoint fields_ok (fields : list (str * str * str)) : bool :=
  match fields with
  | [] => true
  | f :: rest => field_ok f && forallb (apart f) rest && fields_ok rest
  end.

(** An item on which the clean-up of field [f] changes nothing. *)
Definition settled (f : str * str * str) (item : pyval) : Prop :=
  let '(id_key, code_key, prefix) := f in
  clean_field id_key code_key prefix item = Ok item.

Definition settled_dict (f : str * str * str) (d : dict) : Prop :=
  let '(id_key, code_key, prefix) := f in
  match dict_get id_key d with
  | None => True
  | Some id =>
      if truthy id
      then exists s, id = PStr s /\ normalize_id prefix s = s
                     /\ dict_get code_key d = Some id
      else True
  end.

Lemma clean_field_dict (id_key code_key prefix : str) (d : dict) :
  clean_field id_key code_key prefix (PDict d)
  = match dict_get id_key d with
    | None => Ok (PDict d)
    | Some id =>
        if truthy id then
          match id with
          | PStr s =>
              let fixed := PStr (normalize_id prefix s) in
              Ok (PDict (dict_set code_key fixed (dict_set id_key fixed d)))
          | _ => Raise AttributeError
          end
        else Ok (PDict d)
    end.
Proof.
  unfold clean_field, py_in, py_getitem, dict_has.
  destruct (dict_get id_key d); reflexivity.
Qed.

Lemma clean_field_other (id_key code_key prefix : str) (item item' : pyval) :
  (forall d, item <> PDict d) ->
  clean_field id_key code_key prefix item = Ok item' -> item' = item.
Proof.
  intros Hnd. unfold clean_field.
  destruct item; simpl; try discriminate;
    try (destruct (contains _ _); simpl; [discriminate|congruence]);
    try (destruct (existsb _ _); simpl; [discriminate|congruence]).
  now destruct (Hnd d).
Qed.

Lemma settled_dict_iff (f : str * str * str) (d : dict) :
  field_ok f = true -> settled f (PDict d) <-> settled_dict f d.
Proof.
  destruct f as [[id_key code_key] prefix]. unfold field_ok, settled, settled_dict.
  intros Hok. apply andb_true_iff in Hok as [Hok _].
  apply andb_true_iff in Hok as [Hkeys _]. apply negb_true_iff in Hkeys.
  rewrite clean_field_dict. destruct (dict_get id_key d) as [id|] eqn:Hid; [|easy].
  destruct (truthy id) eqn:Ht; [|easy]. split.
  - destruct id; try discriminate. cbv zeta. intros [= Hd].
    assert (dict_get id_key d = Some (PStr (normalize_id prefix s))) as Hget.
    { rewrite <- Hd at 1. rewrite dict_get_set_other by exact Hkeys.
      apply dict_get_set_same. }
    rewrite Hid in Hget. injection Hget as Hs. exists s. repeat split; auto.
    rewrite <- Hd at 1. rewrite dict_get_set_same. now rewrite <- Hs.
  - intros (s & -> & Hs & Hcode). cbv zeta. rewrite Hs.
    rewrite (dict_set_same _ _ _ Hid). now rewrite (dict_set_same _ _ _ Hcode).
Qed.

Lemma eqs_sym (a b : str) : eqs a b = eqs b a.
Proof.
  destruct (eqs a b) eqn:E.
  - apply eqs_eq in E. subst. now rewrite eqs_refl.
  - destruct (eqs b a) eqn:E'; [|reflexivity].
    apply eqs_eq in E'. subst. now rewrite eqs_refl in E.
Qed.

(** The clean-up of one field settles it. *)
Lemma clean_field_settles (id_key code_key prefix : str) (item item' : pyval) :
  field_ok (id_key, code_key, prefix) = true ->
  clean_field id_key code_key prefix item = Ok item' ->
  settled (id_key, code_key, prefix) item'.
Proof.
  intros Hok Hc. pose proof Hok as Hok'. unfold field_ok in Hok'.
  apply andb_true_iff in Hok' as [Hok' Hnd].
  apply andb_true_iff in Hok' as [Hkeys Hne].
  apply negb_true_iff in Hkeys, Hnd.
  assert (prefix <> []) as Hne' by (destruct prefix; easy).
  destruct item as [| | | | | |l|d];
    try (pose proof Hc as Hc'; apply clean_field_other in Hc'; [|easy];
         subst item'; exact Hc).
  rewrite clean_field_dict in Hc.
  destruct (dict_get id_key d) as [id|] eqn:Hid.
  2:{ injection Hc as <-. apply settled_dict_iff; [exact Hok|].
      unfold settled_dict. now rewrite Hid. }
  destruct (truthy id) eqn:Ht.
  2:{ injection Hc as <-. apply settled_dict_iff; [exact Hok|].
      unfold settled_dict. now rewrite Hid, Ht. }
  destruct id; try discriminate. cbv zeta in Hc. injection Hc as <-.
  apply settled_dict_iff; [exact Hok|]. unfold settled_dict.
  rewrite dict_get_set_other by exact Hkeys. rewrite dict_get_set_same.
  cbn [truthy]. rewrite normalize_id_nonempty by assumption.
  exists (normalize_id prefix s). repeat split.
  - now apply normalize_id_idempotent.
  - apply dict_get_set_same.
Qed.

(** The clean-up of a field leaves the fields apart from it settled. *)
Lemma clean_field_keeps (f : str * str * str) (id_key code_key prefix : str)
  (item item' : pyval) :
  field_ok f = true -> apart f (id_key, code_key, prefix) = true ->
  clean_field id_key code_key prefix item = Ok item' ->
  settled f item -> settled f item'.
Proof.
  intros Hok Hap Hc Hs.
  destruct item as [| | | | | |l|d];
    try (apply clean_field_other in Hc; [now subst item'|easy]).
  rewrite clean_field_dict in Hc.
  destruct (dict_get id_key d) as [id|]; [|now injection Hc as <-].
  destruct (truthy id); [|now injection Hc as <-].
  destruct id; try discriminate. cbv zeta in Hc. injection Hc as <-.
  apply settled_dict_iff; [exact Hok|]. apply settled_dict_iff in Hs; [|exact Hok].
  destruct f as [[ik ck] p]. unfold apart in Hap.
  repeat (apply andb_true_iff in Hap as [Hap ?]).
  repeat match goal with H : negb _ = true |- _ => apply negb_true_iff in H end.
  unfold settled_dict in *.
  now rewrite !dict_get_set_other by assumption.
Qed.

Lemma clean_fields_keeps (f : str * str * str) (fields : list (str * str * str)) :
  field_ok f = true -> forallb (apart f) fields = true ->
  forall item item',
    clean_fields fields item = Ok item' -> settled f item -> settled f item'.
Proof.
  intros Hok. induction fields as [|[[ik ck] p] rest IH]; intros Hap item item'.
  - now intros [= <-].
  - cbn [forallb] in Hap. apply andb_true_iff in Hap as [Hap Hrest].
    cbn [clean_fields]. destruct (clean_field ik ck p item) as [i1| |] eqn:E1;
      try discriminate.
    cbn [bind]. intros Hc Hs. apply (IH Hrest i1 item' Hc).
    now apply (clean_field_keeps f ik ck p item i1).
Qed.

Lemma clean_fields_settles (fields : list (str * str * str)) :
  fields_ok fields = true ->
  forall item item',
    clean_fields fields item = Ok item' ->
    Forall (fun f => settled f item') fields.
Proof.
  induction fields as [|[[ik ck] p] rest IH]; intros Hok item item' Hc.
  - constructor.
  - cbn [fields_ok] in Hok. apply andb_true_iff in Hok as [Hok Hrest].
    apply andb_true_iff in Hok as [Hf Hap].
    cbn [clean_fields] in Hc.
    destruct (clean_field ik ck p item) as [i1| |] eqn:E1; try discriminate.
    cbn [bind] in Hc. constructor.
    + apply (clean_fields_keeps _ rest Hf Hap i1 item' Hc).
      now apply (clean_field_settles ik ck p item i1).
    + now apply (IH Hrest i1).
Qed.

Lemma clean_fields_settled (fields : list (str * str * str)) (item : pyval) :
  Forall (fun f => settled f item) fields -> clean_fields fields item = Ok item.
Proof.
  induction 1 as [|[[ik ck] p] rest Hf _ IH]; [reflexivity|].
  cbn [clean_fields]. unfold settled in Hf. rewrite Hf. exact IH.
Qed.

Lemma clean_fields_idempotent (fields : list (str * str * str))
  (item item' : pyval) :
  fields_ok fields = true ->
  clean_fields fields item = Ok item' -> clean_fields fields item' = Ok item'.
Proof.
  intros Hok Hc. apply clean_fields_settled.
  now apply (clean_fields_settles fields Hok item).
Qed.

Lemma map_outcome_idempotent {A : Type} (f : A -> outcome A) :
  (forall a b, f a = Ok b -> f b = Ok b) ->
  forall l l', map_outcome f l = Ok l' -> map_outcome f l' = Ok l'.
Proof.
  intros Hf. induction l as [|a l IH]; intros l'; cbn [map_outcome].
  - now intros [= <-].
  - destruct (f a) as [b| |] eqn:Ea; try discriminate. cbn [bind].
    destruct (map_outcome f l) as [bs| |] eqn:El; try discriminate.
    cbn [bind]. intros [= <-]. cbn [map_outcome].
    now rewrite (Hf _ _ Ea), (IH _ eq_refl).
Qed.

(** A category value on which the loop of [_clean_mapping_ids] changes
    nothing. *)
Definition settled_value (fields : list (str * str * str)) (o : option pyval)
  : Prop :=
  match o with
  | None => True
  | Some (PList items) => map_outcome (clean_fields fields) items = Ok items
  | Some other =>
      exists items r, py_iter other = Ok items
                      /\ map_outcome (clean_fields fields) items = Ok r
  end.

Lemma clean_category_settled (category : str) (fields : list (str * str * str))
  (ma : dict) :
  settled_value fields (dict_get category ma) ->
  clean_category category fields ma = Ok ma.
Proof.
  unfold settled_value, clean_category.
  destruct (dict_get category ma) as [v|] eqn:Hv; [|reflexivity].
  destruct v;
    try (intros (items & r & Hi & Hr); rewrite Hi; cbn [bind];
         now rewrite Hr).
  intros Hm. rewrite Hm. cbn [bind]. now rewrite (dict_set_same _ _ _ Hv).
Qed.

Lemma clean_category_settles (category : str) (fields : list (str * str * str))
  (ma ma' : dict) :
  fields_ok fields = true ->
  clean_category category fields ma = Ok ma' ->
  settled_value fields (dict_get category ma')
  /\ (forall k, eqs k category = false -> dict_get k ma' = dict_get k ma).
Proof.
  intros Hok. unfold clean_category.
  destruct (dict_get category ma) as [v|] eqn:Hv.
  2:{ intros [= <-]. rewrite Hv. now split. }
  destruct v.
  7:{ destruct (map_outcome (clean_fields fields) l) as [items'| |] eqn:Hm;
        try discriminate.
      cbn [bind]. intros [= <-]. split.
      - rewrite dict_get_set_same. cbn [settled_value].
        apply (map_outcome_idempotent _ (fun a b => clean_fields_idempotent
                                                      fields a b Hok) l _ Hm).
      - intros k Hk. now apply dict_get_set_other. }
  all: destruct (py_iter _) as [items| |] eqn:Hi; try discriminate; cbn [bind];
    destruct (map_outcome (clean_fields fields) items) as [r| |] eqn:Hm;
    try discriminate; cbn [bind]; intros [= <-]; rewrite Hv;
    (split; [cbn [settled_value]; now exists items, r | reflexivity]).
Qed.

Lemma clean_category_idempotent (category : str)
  (fields : list (str * str * str)) (ma ma' : dict) :
  fields_ok fields = true ->
  clean_category category fields ma = Ok ma' ->
  clean_category category fields ma' = Ok ma'.
Proof.
  intros Hok Hc. apply clean_category_settled.
  now apply (clean_category_settles category fields ma ma' Hok).
Qed.

Lemma clean_mapping_ids_settles (ma ma' : dict) :
  _clean_mapping_ids ma = Ok ma' -> _clean_mapping_ids ma' = Ok ma'.
Proof.
  unfold _clean_mapping_ids.
  destruct (clean_category _ element_fields ma) as [m1| |] eqn:E1;
    try discriminate; cbn [bind].
  destruct (clean_category _ criterion_fields m1) as [m2| |] eqn:E2;
    try discriminate; cbn [bind].
  destruct (clean_category _ performance_evidence_fields m2) as [m3| |] eqn:E3;
    try discriminate; cbn [bind].
  intros E4.
  apply clean_category_settles in E1 as [S1 _]; [|reflexivity].
  apply clean_category_settles in E2 as [S2 K2]; [|reflexivity].
  apply clean_category_settles in E3 as [S3 K3]; [|reflexivity].
  apply clean_category_settles in E4 as [S4 K4]; [|reflexivity].
  rewrite <- K2, <- K3, <- K4 in S1 by reflexivity.
  rewrite <- K3, <- K4 in S2 by reflexivity.
  rewrite <- K4 in S3 by reflexivity.
  rewrite (clean_category_settled _ _ _ S1). cbn [bind].
  rewrite (clean_category_settled _ _ _ S2). cbn [bind].
  rewrite (clean_category_settled _ _ _ S3). cbn [bind].
  exact (clean_category_settled _ _ _ S4).
Qed.

(** The four prefixes of [_clean_mapping_ids]. *)
Definition prefixes : list str := [lit "E"; lit "PC"; lit "PE"; lit "KE"].

(** A mapping analysis with a doubled prefix, a bare number, a code already
    in canonical form, and a unit code without a digit. *)
Definition raw_analysis : dict :=
  [ (lit "mapped_elements",
     PList [ PDict [ (lit "element_id", PStr (lit "EE")) ] ]);
    (lit "mapped_performance_criteria",
     PList [ PDict [ (lit "criterion_id", PStr (lit "PCPC1.1")) ];
             PDict [ (lit "criterion_id", PStr (lit "1.1")) ];
             PDict [ (lit "criterion_id", PStr (lit "PC2.3"));
                     (lit "criterion_code", PStr (lit "PC2.3")) ] ]) ].

Definition cleaned_analysis : dict :=
  [ (lit "mapped_elements",
     PList [ PDict [ (lit "element_id", PStr (lit "E1"));
                     (lit "element_code", PStr (lit "E1")) ] ]);
    (lit "mapped_performance_criteria",
     PList [ PDict [ (lit "criterion_id", PStr (lit "PC1.1"));
                     (lit "criterion_code", PStr (lit "PC1.1")) ];
             PDict [ (lit "criterion_id", PStr (lit "PC1.1"));
                     (lit "criterion_code", PStr (lit "PC1.1")) ];
             PDict [ (lit "criterion_id", PStr (lit "PC2.3"));
                     (lit "criterion_code", PStr (lit "PC2.3")) ] ]) ].

(** C4: [_clean_mapping_ids] is idempotent: run on its own result it
    returns that result again, for every mapping analysis on which it
    returns at all. For each of the four prefixes the fix-up of one code is
    idempotent, leaves a code in canonical form (the prefix once, a digit
    after it) unchanged, and always yields such a code. The criterion ids
    PCPC1.1 and 1.1 both become PC1.1. *)
Theorem clean_mapping_ids_idempotent :
  (forall ma ma',
     _clean_mapping_ids ma = Ok ma' -> _clean_mapping_ids ma' = Ok ma')
  /\ (forall prefix id,
        In prefix prefixes ->
        normalize_id prefix (normalize_id prefix id) = normalize_id prefix id
        /\ canonical prefix (normalize_id prefix id) = true
        /\ (canonical prefix id = true -> normalize_id prefix id = id))
  /\ normalize_id (lit "PC") (lit "PCPC1.1") = lit "PC1.1"
  /\ normalize_id (lit "PC") (lit "1.1") = lit "PC1.1"
  /\ _clean_mapping_ids raw_analysis = Ok cleaned_analysis.
Proof.
  split; [exact clean_mapping_ids_settles|].
  split; [|repeat split; vm_compute; reflexivity].
  intros prefix id Hp.
  assert (prefix <> [] /\ existsb isdigit prefix = false) as [Hne Hnd].
  { unfold prefixes in Hp. simpl in Hp.
    destruct Hp as [<-|[<-|[<-|[<-|[]]]]]; split; try easy; reflexivity. }
  split; [now apply normalize_id_idempotent|].
  split; [now apply normalize_id_canonical|apply canonical_unchanged].
Qed.

Lemma clean_mapping_ids_idempotent_witness :
  _clean_mapping_ids cleaned_analysis = Ok cleaned_analysis
  /\ normalize_id (lit "KE") (lit "KE7") = lit "KE7".
Proof.
  split.
  - apply (proj1 clean_mapping_ids_idempotent raw_analysis).
    vm_compute. reflexivity.
  - apply (proj2 (proj1 (proj2 clean_mapping_ids_idempotent)
                    (lit "KE") (lit "KE7") ltac:(vm_compute; tauto))).
    vm_compute. reflexivity.
Defined.

End Normalisation.

(** ** Reply clean-up *)

(** Test data is written with an apostrophe where the text has a double
    quote. *)
Definition with_double_quotes (s : str) : str :=
  map (fun c => if eqc c "'"%char then "034"%char else c) s.

Section ReplyCleanup.
Import Mapping.

Definition fenced_reply : str :=
  with_double_quotes (lit "Here you go: ```json {'a':1,}```").

Definition fenced_reply_spaced : str :=
  with_double_quotes (lit "Here you go: ```json {'a':1,} ```").

(** C5: the code does not do what the claim says. On the reply
    [fenced_reply] of the scenario (and on [fenced_reply_spaced], the same
    with a blank before the closing fence) [_clean_json_response] returns
    [None], not a text that parses to the object with a = 1. Methods 1, 2
    and 4 try the object with its trailing comma as it stands; method 3,
    the only one that repairs, slices the raw reply at the positions found
    in the text without fences and so repairs a piece of the opening fence;
    and the repair itself, run on the object, escapes its first quote and
    yields a text that does not parse either. *)
Theorem fenced_reply_is_not_repaired :
  _clean_json_response fenced_reply = Ok None
  /\ _clean_json_response fenced_reply_spaced = Ok None
  /\ slice 13 21 fenced_reply = lit "```json "
  /\ _fix_common_json_issues (with_double_quotes (lit "{'a':1,}"))
     = with_double_quotes (lit "{\'a':1}")
  /\ parses (with_double_quotes (lit "{\'a':1}")) = Ok false
  /\ Json.loads (with_double_quotes (lit "{'a':1}"))
     = Ok (PDict [(lit "a", PInt 1)]).
Proof. repeat split; vm_compute; reflexivity. Qed.

End ReplyCleanup.

(** ** Which replies are accepted *)

Section ReplyAcceptance.
Import Mapping.
Context `{Service}.

(** The category holds a list. *)
Definition has_list (category : str) (mapping_analysis : dict) : bool :=
  match dict_get category mapping_analysis with
  | Some (PList _) => true
  | _ => false
  end.

Lemma dict_get_setdefault_other (k k' : str) (v : pyval) (d : dict) :
  eqs k k' = false -> dict_get k (dict_setdefault k' v d) = dict_get k d.
Proof.
  intros Hk. unfold dict_setdefault. destruct (dict_has k' d); [reflexivity|].
  now apply dict_get_set_other.
Qed.

Lemma dict_has_setdefault_same (k : str) (v : pyval) (d : dict) :
  dict_has k (dict_setdefault k v d) = true.
Proof.
  unfold dict_setdefault. destruct (dict_has k d) eqn:E; [exact E|].
  unfold dict_has. now rewrite dict_get_set_same.
Qed.

Lemma dict_has_setdefault_mono (k k' : str) (v : pyval) (d : dict) :
  dict_has k d = true -> dict_has k (dict_setdefault k' v d) = true.
Proof.
  intros Hd. destruct (eqs k k') eqn:E.
  - apply eqs_eq in E. subst. apply dict_has_setdefault_same.
  - now rewrite dict_has_setdefault_other.
Qed.

Lemma with_all_lists_has (mapping_analysis : dict) (category : str) :
  In category categories ->
  dict_has category (with_all_lists mapping_analysis) = true.
Proof.
  unfold with_all_lists, categories. cbn [map fold_left In].
  intros [<-|[<-|[<-|[<-|[]]]]];
    repeat first [ apply dict_has_setdefault_same
                 | apply dict_has_setdefault_mono ].
Qed.

Lemma clean_category_has (category : str) (fields : list (str * str * str))
  (ma ma' : dict) (k : str) :
  clean_category category fields ma = Ok ma' -> dict_has k ma' = dict_has k ma.
Proof.
  unfold clean_category. destruct (dict_get category ma) as [v|] eqn:Hv.
  2:{ now intros [= <-]. }
  destruct v.
  7:{ destruct (map_outcome _ l) as [items'| |]; try discriminate.
      cbn [bind]. intros [= <-]. destruct (eqs k category) eqn:E.
      - apply eqs_eq in E. subst k. unfold dict_has.
        now rewrite dict_get_set_same, Hv.
      - now apply dict_has_set_other. }
  all: destruct (py_iter _) as [items| |]; try discriminate; cbn [bind];
    destruct (map_outcome _ items) as [r| |]; try discriminate; cbn [bind];
    now intros [= <-].
Qed.

Lemma clean_mapping_ids_has (ma ma' : dict) (k : str) :
  _clean_mapping_ids ma = Ok ma' -> dict_has k ma' = dict_has k ma.
Proof.
  unfold _clean_mapping_ids.
  destruct (clean_category _ element_fields ma) as [m1| |] eqn:E1;
    try discriminate; cbn [bind].
  destruct (clean_category _ criterion_fields m1) as [m2| |] eqn:E2;
    try discriminate; cbn [bind].
  destruct (clean_category _ performance_evidence_fields m2) as [m3| |] eqn:E3;
    try discriminate; cbn [bind].
  intros E4.
  rewrite (clean_category_has _ _ _ _ k E4), (clean_category_has _ _ _ _ k E3),
    (clean_category_has _ _ _ _ k E2). exact (clean_category_has _ _ _ _ k E1).
Qed.

(** A category that is there is a list after its filter, and the filter
    leaves the other categories as they are. *)
Lemma filter_category_list (category id_key description_key : str)
  (d : dict) (r : pyval) :
  filter_category category id_key description_key (PDict d) = Ok r ->
  dict_has category d = true ->
  exists d', r = PDict d'
             /\ has_list category d' = true
             /\ (forall k, eqs k category = false ->
                           dict_get k d' = dict_get k d).
Proof.
  unfold filter_category. cbn [py_in bind]. intros Hf Hd. rewrite Hd in Hf.
  destruct (py_getitem category (PDict d)) as [value| |]; try discriminate.
  cbn [bind] in Hf. destruct (py_iter value) as [items| |]; try discriminate.
  cbn [bind] in Hf.
  destruct (filter_outcome _ items) as [kept| |]; try discriminate.
  cbn [bind] in Hf. injection Hf as <-. eexists. split; [reflexivity|]. split.
  - unfold has_list. now rewrite dict_get_set_same.
  - intros k Hk. now apply dict_get_set_other.
Qed.

Lemma has_list_has (category : str) (d : dict) :
  has_list category d = true -> dict_has category d = true.
Proof. unfold has_list, dict_has. now destruct (dict_get category d). Qed.

Lemma filter_analysis_lists (d : dict) (r : pyval) :
  filter_analysis (PDict d) = Ok r ->
  forallb (fun c => dict_has c d) categories = true ->
  exists d', r = PDict d' /\ forallb (fun c => has_list c d') categories = true.
Proof.
  unfold filter_analysis, categories. cbn [map forallb].
  intros Hf Hd. rewrite !andb_true_iff in Hd.
  destruct Hd as (H1 & H2 & H3 & H4 & _).
  destruct (filter_category _ _ _ (PDict d)) as [m1| |] eqn:E1;
    try discriminate; cbn [bind] in Hf.
  apply filter_category_list in E1 as (d1 & -> & L1 & K1); [|exact H1].
  destruct (filter_category _ _ _ (PDict d1)) as [m2| |] eqn:E2;
    try discriminate; cbn [bind] in Hf.
  apply filter_category_list in E2 as (d2 & -> & L2 & K2);
    [|unfold dict_has; rewrite K1 by reflexivity; exact H2].
  destruct (filter_category _ _ _ (PDict d2)) as [m3| |] eqn:E3;
    try discriminate; cbn [bind] in Hf.
  apply filter_category_list in E3 as (d3 & -> & L3 & K3);
    [|unfold dict_has; rewrite K2, K1 by reflexivity; exact H3].
  apply filter_category_list in Hf as (d4 & -> & L4 & K4);
    [|unfold dict_has; rewrite K3, K2, K1 by reflexivity; exact H4].
  exists d4. split; [reflexivity|].
  unfold has_list in *.
  rewrite K4, K3, K2 by reflexivity. rewrite L1.
  rewrite K4, K3 by reflexivity. rewrite L2.
  rewrite K4 by reflexivity. rewrite L3. now rewrite L4.
Qed.

Lemma ensure_complete_lists (mapping_data question completed : dict) :
  _ensure_complete_mapping_structure mapping_data question = Ok completed ->
  exists ma, dict_get (lit "mapping_analysis") completed = Some (PDict ma)
             /\ forallb (fun c => has_list c ma) categories = true.
Proof.
  unfold _ensure_complete_mapping_structure. cbv zeta.
  match goal with
  | |- context [dict_get _ ?d6] =>
      destruct (dict_get (lit "mapping_analysis") d6) as [[| | | | | | |ma]|];
      try discriminate
  end.
  destruct (_clean_mapping_ids (with_all_lists ma)) as [cleaned| |] eqn:Ec;
    try discriminate; cbn [bind].
  destruct (_log_id_validation_issues cleaned) as [issues| |];
    try discriminate; cbn [bind].
  destruct (_calculate_mapping_statistics cleaned) as [stats| |];
    try discriminate; cbn [bind].
  unfold _filter_empty_mappings.
  rewrite dict_get_set_other by reflexivity.
  rewrite !dict_get_setdefault_other by reflexivity.
  rewrite dict_get_set_same.
  destruct (filter_analysis (PDict cleaned)) as [filtered| |] eqn:Ef;
    try discriminate; cbn [bind].
  intros [= <-]. rewrite dict_get_set_same.
  apply filter_analysis_lists in Ef as (d' & -> & Hl).
  - now exists d'.
  - apply forallb_forall. intros c Hc.
    rewrite (clean_mapping_ids_has _ _ c Ec). now apply with_all_lists_has.
Qed.

(** What [_validate_basic_mapping_structure] asks of a parsed reply. *)
Lemma validated_reply (mapping_data : pyval) :
  _validate_basic_mapping_structure mapping_data = Ok true ->
  forall d, mapping_data = PDict d ->
  dict_has (lit "question_id") d = true
  /\ exists ma, dict_get (lit "mapping_analysis") d = Some (PDict ma)
                /\ has_list (lit "mapped_elements") ma = true
                /\ has_list (lit "mapped_performance_criteria") ma = true.
Proof.
  intros Hv d ->. unfold _validate_basic_mapping_structure in Hv.
  cbn [py_in py_get bind] in Hv.
  destruct (dict_has (lit "question_id") d); [|discriminate]. cbn [negb] in Hv.
  split; [reflexivity|].
  unfold dict_has, dict_get_or in Hv.
  destruct (dict_get (lit "mapping_analysis") d) as [ma|]; [|discriminate].
  cbn [negb] in Hv.
  destruct (py_in (lit "mapped_elements") ma) as [[|]| |] eqn:E1;
    try discriminate; cbn [bind negb] in Hv.
  destruct (py_getitem (lit "mapped_elements") ma) as [v1| |] eqn:G1;
    try discriminate; cbn [bind] in Hv.
  destruct ma as [| | | | | | |a]; try discriminate.
  exists a. split; [reflexivity|]. unfold has_list.
  cbn [py_getitem] in G1.
  destruct (dict_get (lit "mapped_elements") a) as [x1|]; [|discriminate].
  injection G1 as ->. destruct v1; try discriminate. cbn [negb] in Hv.
  cbn [py_in bind] in Hv.
  destruct (dict_has (lit "mapped_performance_criteria") a); [|discriminate].
  cbn [negb py_getitem] in Hv.
  destruct (dict_get (lit "mapped_performance_criteria") a) as [x2|];
    [|discriminate].
  cbn [bind] in Hv. destruct x2; try discriminate. now split.
Qed.

(** A parsed object that lacks one of the two required lists is refused. *)
Lemma unvalidated_reply (d ma : dict) :
  dict_get (lit "mapping_analysis") d = Some (PDict ma) ->
  has_list (lit "mapped_elements") ma = false
  \/ has_list (lit "mapped_performance_criteria") ma = false ->
  _validate_basic_mapping_structure (PDict d) = Ok false.
Proof.
  intros Hma Hl. unfold _validate_basic_mapping_structure.
  cbn [py_in py_get bind]. destruct (dict_has (lit "question_id") d);
    [|reflexivity].
  cbn [negb]. unfold dict_has at 1, dict_get_or. rewrite Hma. cbn [negb].
  cbn [py_in py_getitem bind]. unfold has_list, dict_has in *.
  destruct (dict_get (lit "mapped_elements") ma) as [x1|]; [|reflexivity].
  cbn [negb bind].
  destruct (dict_get (lit "mapped_performance_criteria") ma) as [x2|].
  - destruct x1; try reflexivity. cbn [negb bind].
    destruct x2; try reflexivity. destruct Hl; discriminate.
  - destruct x1; reflexivity.
Qed.

(** C7, as the code has it: a reply is accepted only if it parses to an
    object with a question id and a mapping analysis whose
    [mapped_elements] and [mapped_performance_criteria] are lists; an
    object whose analysis lacks one of these two lists gives no mapping.
    The two evidence lists are not required of the reply: every accepted
    mapping holds all four lists, those absent from the reply put in
    empty. *)
Theorem accepted_reply_has_two_lists :
  (forall call response question m,
     _parse_comprehensive_ai_response_robust call response question
     = Ok (Some m) ->
     (exists cleaned d ma,
        _clean_json_response response = Ok (Some cleaned)
        /\ Json.loads cleaned = Ok (PDict d)
        /\ dict_has (lit "question_id") d = true
        /\ dict_get (lit "mapping_analysis") d = Some (PDict ma)
        /\ has_list (lit "mapped_elements") ma = true
        /\ has_list (lit "mapped_performance_criteria") ma = true)
     /\ (exists ma',
           dict_get (lit "mapping_analysis") m = Some (PDict ma')
           /\ forallb (fun c => has_list c ma') categories = true))
  /\ (forall call response question cleaned d ma,
        _clean_json_response response = Ok (Some cleaned) ->
        Json.loads cleaned = Ok (PDict d) ->
        dict_get (lit "mapping_analysis") d = Some (PDict ma) ->
        has_list (lit "mapped_elements") ma = false
        \/ has_list (lit "mapped_performance_criteria") ma = false ->
        _parse_comprehensive_ai_response_robust call response question
        = Ok None).
Proof.
  split.
  - intros call response question m.
    unfold _parse_comprehensive_ai_response_robust.
    destruct (_clean_json_response response) as [[cleaned|]| |];
      cbn [bind try_except]; try discriminate.
    destruct (nonempty cleaned); cbn [negb]; [|discriminate].
    destruct (Json.loads cleaned) as [mapping_data| |] eqn:Ej;
      cbn [bind try_except]; try discriminate.
    destruct (_validate_basic_mapping_structure mapping_data) as [[|]| |] eqn:Ev;
      cbn [bind try_except]; try discriminate.
    destruct mapping_data as [| | | | | | |d]; cbn [try_except]; try discriminate.
    destruct (_ensure_complete_mapping_structure d question) as [completed| |]
      eqn:Ec; cbn [bind try_except]; try discriminate.
    intros [= <-].
    destruct (validated_reply _ Ev d eq_refl) as (Hq & ma & Hma & He & Hp).
    split; [exists cleaned, d, ma; repeat split; assumption|].
    destruct (ensure_complete_lists _ _ _ Ec) as (ma' & Hma' & Hl).
    exists ma'. split; [|exact Hl].
    now rewrite !dict_get_set_other by reflexivity.
  - intros call response question cleaned d ma Hc Hj Hma Hl.
    unfold _parse_comprehensive_ai_response_robust. rewrite Hc. cbn [bind].
    destruct (nonempty cleaned); cbn [negb]; [|reflexivity].
    rewrite Hj. cbn [bind]. now rewrite (unvalidated_reply d ma Hma Hl).
Qed.

End ReplyAcceptance.

(** A service that answers every call with the same reply. *)
Definition canned_service (reply : str) : Mapping.Service := {|
  Mapping._create_simplified_mapping_prompt := fun _ _ _ => Ok (lit "prompt");
  Mapping._call_ai_api := fun _ _ => Some reply;
  Mapping.now_isoformat := fun _ => lit "2025-01-01T00:00:00";
  Mapping.intelligent_insights := fun _ _ => Ok (PDict [])
|}.

Definition hand_hygiene_question : dict :=
  [ (lit "id", PStr (lit "Q1"));
    (lit "text", PStr (lit "Describe the procedure for hand hygiene")) ].

(** A reply with the two required lists and no evidence list. *)
Definition two_lists_reply : str :=
  with_double_quotes
    (lit "{'question_id':'Q1','mapping_analysis':{'mapped_elements':[{'element_id':'1','element_description':'Prepare for work'}],'mapped_performance_criteria':[]}}").

Definition two_lists_analysis : dict :=
  [ (lit "mapped_elements",
     PList [ PDict [ (lit "element_id", PStr (lit "1"));
                     (lit "element_description", PStr (lit "Prepare for work")) ] ]);
    (lit "mapped_performance_criteria", PList []) ].

Definition completed_analysis : dict :=
  [ (lit "mapped_elements",
     PList [ PDict [ (lit "element_id", PStr (lit "E1"));
                     (lit "element_description", PStr (lit "Prepare for work"));
                     (lit "element_code", PStr (lit "E1")) ] ]);
    (lit "mapped_performance_criteria", PList []);
    (lit "mapped_performance_evidence", PList []);
    (lit "mapped_knowledge_evidence", PList []) ].

(** C7, against the claim as it stands: the reply [two_lists_reply] holds
    neither [mapped_performance_evidence] nor [mapped_knowledge_evidence],
    and the mapping of the question succeeds with it. *)
Lemma reply_without_evidence_lists_is_accepted :
  Json.loads two_lists_reply
  = Ok (PDict [ (lit "question_id", PStr (lit "Q1"));
                (lit "mapping_analysis", PDict two_lists_analysis) ])
  /\ dict_has (lit "mapped_performance_evidence") two_lists_analysis = false
  /\ dict_has (lit "mapped_knowledge_evidence") two_lists_analysis = false
  /\ exists m,
       @Mapping._map_single_question_comprehensive
         (canned_service two_lists_reply) 0 hand_hygiene_question (PDict [])
         (lit "Mixed") = Ok (Some m)
       /\ dict_get (lit "mapping_analysis") m = Some (PDict completed_analysis).
Proof.
  split; [vm_compute; reflexivity|].
  split; [reflexivity|]. split; [reflexivity|].
  eexists. split; vm_compute; reflexivity.
Qed.

(** The mapping made of [two_lists_reply]. *)
Definition accepted_mapping : dict :=
  Eval vm_compute in
  match @Mapping._parse_comprehensive_ai_response_robust
          (canned_service two_lists_reply) 0 two_lists_reply
          hand_hygiene_question with
  | Ok (Some m) => m
  | _ => []
  end.

Lemma accepted_reply_has_two_lists_witness :
  exists ma',
    dict_get (lit "mapping_analysis") accepted_mapping = Some (PDict ma')
    /\ forallb (fun c => has_list c ma') Mapping.categories = true.
Proof.
  apply (proj1 (@accepted_reply_has_two_lists (canned_service two_lists_reply))
           0 two_lists_reply hand_hygiene_question accepted_mapping).
  vm_compute. reflexivity.
Defined.

(** ** The batch under the fail-fast policy *)

Section FailFast.
Import Mapping.
Context `{Service}.

Lemma map_all_fails (uoc_data : pyval) (assessment : str) (q : dict)
  (after : list dict) :
  forall (before : list dict) (call : nat) (done : list pyval),
    (forall j qj,
       nth_error before j = Some qj ->
       exists r,
         _map_single_question_comprehensive (call + j) qj uoc_data assessment
         = Ok r) ->
    _map_single_question_comprehensive (call + length before) q uoc_data
      assessment = Ok None ->
    map_all call (before ++ q :: after) uoc_data assessment done
    = Raise RuntimeError.
Proof.
  induction before as [|q0 before IH]; intros call done Hbefore Hq.
  - cbn [app map_all length] in *. rewrite Nat.add_0_r in Hq. now rewrite Hq.
  - cbn [app map_all]. destruct (Hbefore 0 q0 eq_refl) as [r Hr].
    rewrite Nat.add_0_r in Hr. rewrite Hr. cbn [bind].
    destruct r as [[|kv m]|]; try reflexivity.
    apply IH.
    + intros j qj Hj. rewrite Nat.add_succ_l, <- Nat.add_succ_r.
      now apply Hbefore.
    + cbn [length] in Hq. now rewrite Nat.add_succ_l, <- Nat.add_succ_r.
Qed.

(** The batch stops at the first question whose mapping is [None], once
    the calls for the questions before it have returned. *)
Lemma batch_aborts_at (api_key : str) (questions : list dict)
  (uoc_data : pyval) (assessment : str) (i : nat) (q : dict) :
  nth_error questions i = Some q ->
  (forall j qj,
     j < i -> nth_error questions j = Some qj ->
     exists r,
       _map_single_question_comprehensive j qj uoc_data assessment = Ok r) ->
  _map_single_question_comprehensive i q uoc_data assessment = Ok None ->
  execute api_key questions uoc_data assessment = Raise RuntimeError.
Proof.
  intros Hi Hbefore Hq. unfold execute.
  destruct (nonempty api_key); cbn [negb]; [|reflexivity].
  destruct (nth_error_split _ _ Hi) as (before & after & -> & Hlen).
  rewrite (map_all_fails uoc_data assessment q after before 0 []).
  - reflexivity.
  - intros j qj Hj. cbn [Nat.add]. apply Hbefore.
    + rewrite <- Hlen. apply nth_error_Some. congruence.
    + rewrite nth_error_app1; [exact Hj|]. apply nth_error_Some. congruence.
  - cbn [Nat.add]. now rewrite Hlen.
Qed.

End FailFast.

(** A service that answers the [i]-th call with the [i]-th reply of a
    script, and fails when the script is over. *)
Definition scripted_service (replies : list str) : Mapping.Service := {|
  Mapping._create_simplified_mapping_prompt := fun _ _ _ => Ok (lit "prompt");
  Mapping._call_ai_api := fun call _ => nth_error replies call;
  Mapping.now_isoformat := fun _ => lit "2025-01-01T00:00:00";
  Mapping.intelligent_insights := fun _ _ => Ok (PDict [])
|}.

Definition glove_question : dict :=
  [ (lit "id", PStr (lit "Q2"));
    (lit "text", PStr (lit "When are gloves required?")) ].

Definition second_call_fails : Mapping.Service :=
  scripted_service [two_lists_reply; lit "Sorry, I cannot help with that."].

(** ** Coverage *)

Section Rounding.
Import Num.

(** The rounded quotient is within one half of the quotient. *)
Lemma round_half_even_div_bounds (a : Z) (b : positive) :
  (2 * Zpos b * round_half_even_div a b - Zpos b <= 2 * a
   <= 2 * Zpos b * round_half_even_div a b + Zpos b)%Z.
Proof.
  unfold round_half_even_div.
  pose proof (Z.div_mod a (Zpos b) ltac:(lia)) as Hdm.
  pose proof (Z.mod_pos_bound a (Zpos b) ltac:(lia)) as Hr.
  destruct (Z.compare_spec (2 * (a mod Zpos b)) (Zpos b)) as [He|Hl|Hg].
  - destruct (Z.even (a / Zpos b)); nia.
  - nia.
  - nia.
Qed.

Lemma round_half_even_div_mono (a a' : Z) (b : positive) :
  (a <= a')%Z -> (round_half_even_div a b <= round_half_even_div a' b)%Z.
Proof.
  intros Ha.
  pose proof (round_half_even_div_bounds a b) as H1.
  pose proof (round_half_even_div_bounds a' b) as H2.
  destruct (Z.eq_dec a a') as [->|Hne]; [lia|].
  destruct (Z_le_gt_dec (round_half_even_div a b) (round_half_even_div a' b))
    as [Hle|Hgt]; [exact Hle|]. nia.
Qed.

Lemma round_half_even_div_exact (m : Z) (b : positive) :
  round_half_even_div (Zpos b * m) b = m.
Proof.
  unfold round_half_even_div.
  replace (Zpos b * m)%Z with (m * Zpos b)%Z by lia.
  rewrite Z.div_mul, Z.mod_mul by lia. reflexivity.
Qed.

End Rounding.

(** ** Binary floats *)

Section Floats.
Import Num.
Local Open Scope Z_scope.

(** Rounding a quotient does not depend on how the quotient is written. *)
Lemma round_half_even_div_scale (a : Z) (b c : positive) :
  round_half_even_div (a * Zpos c) (b * c) = round_half_even_div a b.
Proof.
  unfold round_half_even_div. rewrite Pos2Z.inj_mul.
  rewrite Z.div_mul_cancel_r by lia.
  rewrite Zmult_mod_distr_r.
  replace (2 * (a mod Zpos b * Zpos c)) with (2 * (a mod Zpos b) * Zpos c) by lia.
  rewrite <- Zmult_compare_compat_r by lia. reflexivity.
Qed.

Lemma nearest_even_mono (x y : Q) :
  (x <= y)%Q -> nearest_even x <= nearest_even y.
Proof.
  unfold Qle, nearest_even. intros Hxy.
  rewrite <- (round_half_even_div_scale (Qnum x) (Qden x) (Qden y)).
  rewrite <- (round_half_even_div_scale (Qnum y) (Qden y) (Qden x)).
  rewrite (Pos.mul_comm (Qden y) (Qden x)).
  now apply round_half_even_div_mono.
Qed.

Lemma nearest_even_inject (z : Z) : nearest_even (inject_Z z) = z.
Proof.
  unfold nearest_even, inject_Z. cbn [Qnum Qden].
  rewrite <- (round_half_even_div_exact z 1) at 2. f_equal. lia.
Qed.

Lemma nearest_even_eq (x y : Q) : (x == y)%Q -> nearest_even x = nearest_even y.
Proof.
  intros Hxy. apply Z.le_antisymm; apply nearest_even_mono; rewrite Hxy;
    apply Qle_refl.
Qed.

(** The nearest integer is within one half. *)
Lemma nearest_even_bounds (x : Q) :
  (inject_Z (nearest_even x) - (1 # 2) <= x
   /\ x <= inject_Z (nearest_even x) + (1 # 2))%Q.
Proof.
  pose proof (round_half_even_div_bounds (Qnum x) (Qden x)) as H.
  unfold nearest_even. destruct x as [n d]. cbn [Qnum Qden] in *.
  unfold Qle, Qminus, Qplus, Qopp, inject_Z. cbn [Qnum Qden].
  split; nia.
Qed.



Lemma pow2_pos (k : Z) : (0 < 2 ^ k)%Q.
Proof. now apply Qpower_0_lt. Qed.

Lemma pow2_add (a b : Z) : (2 ^ (a + b) == 2 ^ a * 2 ^ b)%Q.
Proof. now apply Qpower_plus. Qed.

Lemma pow2_le (a b : Z) : a <= b -> (2 ^ a <= 2 ^ b)%Q.
Proof. intros H. now apply Qpower_le_compat_l. Qed.

Lemma pow2_lt (a b : Z) : a < b -> (2 ^ a < 2 ^ b)%Q.
Proof. intros H. now apply Qpower_lt_compat_l. Qed.

Lemma pow2_inject (k : Z) : 0 <= k -> (2 ^ k == inject_Z (2 ^ k))%Q.
Proof. intros H. now rewrite Zpower_Qpower. Qed.

Lemma pow2_cancel (k : Z) : (2 ^ k * 2 ^ (- k) == 1)%Q.
Proof. rewrite <- pow2_add. now replace (k + - k) with 0 by lia. Qed.

Lemma Qmake_mult_den (x : Q) : (x * inject_Z (Zpos (Qden x)) == inject_Z (Qnum x))%Q.
Proof.
  destruct x as [n d]. unfold Qeq, Qmult, inject_Z. cbn [Qnum Qden]. lia.
Qed.

(** [binade] is the exponent of the leading bit. *)
Lemma binade_spec (x : Q) :
  (0 < x)%Q -> (2 ^ binade x <= x /\ x < 2 ^ (binade x + 1))%Q.
Proof.
  intros Hx.
  assert (0 < Qnum x) as Hn.
  { unfold Qlt in Hx. cbn in Hx. lia. }
  pose proof (Z.log2_spec (Qnum x) Hn) as [Hn1 Hn2].
  pose proof (Z.log2_spec (Zpos (Qden x)) ltac:(lia)) as [Hd1 Hd2].
  pose proof (Z.log2_nonneg (Qnum x)) as Ha.
  pose proof (Z.log2_nonneg (Zpos (Qden x))) as Hb.
  set (a := Z.log2 (Qnum x)) in *. set (b := Z.log2 (Zpos (Qden x))) in *.
  assert (0 < inject_Z (Zpos (Qden x)))%Q as Hdpos by reflexivity.
  assert (x < 2 ^ (a - b + 1))%Q as Hupper.
  { apply (Qmult_lt_r _ _ _ Hdpos). rewrite Qmake_mult_den.
    apply Qlt_le_trans with (2 ^ (a + 1))%Q.
    - rewrite pow2_inject by lia. rewrite <- Zlt_Qlt. exact Hn2.
    - replace (a + 1) with ((a - b + 1) + b) by lia. rewrite pow2_add.
      apply Qmult_le_l; [apply pow2_pos|].
      rewrite pow2_inject by lia. rewrite <- Zle_Qle. exact Hd1. }
  assert (2 ^ (a - b - 1) < x)%Q as Hlower.
  { apply (Qmult_lt_r _ _ _ Hdpos). rewrite Qmake_mult_den.
    apply Qlt_le_trans with (2 ^ a)%Q.
    - replace a with ((a - b - 1) + (b + 1)) at 2 by lia. rewrite pow2_add.
      apply Qmult_lt_l; [apply pow2_pos|].
      rewrite pow2_inject by lia. rewrite <- Zlt_Qlt. exact Hd2.
    - rewrite pow2_inject by lia. rewrite <- Zle_Qle. exact Hn1. }
  unfold binade. fold a b.
  destruct (Qle_bool (2 ^ (a - b)) x) eqn:E.
  - apply Qle_bool_iff in E. split; [exact E|exact Hupper].
  - split; [now apply Qlt_le_weak|].
    replace (a - b - 1 + 1) with (a - b) by lia.
    apply Qnot_le_lt. intros Hle. apply Qle_bool_iff in Hle. congruence.
Qed.

Lemma binade_mono (x y : Q) :
  (0 < x)%Q -> (x <= y)%Q -> binade x <= binade y.
Proof.
  intros Hx Hxy.
  destruct (binade_spec x Hx) as [Hx1 Hx2].
  destruct (binade_spec y (Qlt_le_trans _ _ _ Hx Hxy)) as [Hy1 Hy2].
  destruct (Z_le_gt_dec (binade x) (binade y)) as [H|H]; [exact H|].
  exfalso. apply (Qlt_irrefl x).
  apply Qle_lt_trans with y; [exact Hxy|].
  apply Qlt_le_trans with (2 ^ (binade y + 1))%Q; [exact Hy2|].
  apply Qle_trans with (2 ^ binade x)%Q; [|exact Hx1].
  apply pow2_le. lia.
Qed.


(** The significand before rounding lies between [2^52] and [2^53]. *)
Lemma significand_range (x : Q) :
  (0 < x)%Q ->
  (2 ^ 52 <= x * 2 ^ (52 - binade x) /\ x * 2 ^ (52 - binade x) < 2 ^ 53)%Q.
Proof.
  intros Hx. destruct (binade_spec x Hx) as [H1 H2].
  pose proof (pow2_pos (52 - binade x)) as Hk. split.
  - replace 52 with (binade x + (52 - binade x)) at 1 by lia.
    rewrite pow2_add. now apply Qmult_le_r.
  - replace 53 with ((binade x + 1) + (52 - binade x)) by lia.
    rewrite pow2_add. now apply Qmult_lt_r.
Qed.

Lemma round_positive_range (x : Q) :
  (0 < x)%Q ->
  (2 ^ binade x <= round_positive x /\ round_positive x <= 2 ^ (binade x + 1))%Q.
Proof.
  intros Hx. destruct (significand_range x Hx) as [H1 H2].
  unfold round_positive. cbv zeta.
  set (k := 52 - binade x) in *.
  pose proof (pow2_pos (- k)) as Hk.
  assert (2 ^ 52 <= nearest_even (x * 2 ^ k) <= 2 ^ 53) as [Hn1 Hn2].
  { split.
    - rewrite <- (nearest_even_inject (2 ^ 52)). apply nearest_even_mono.
      now rewrite <- (pow2_inject 52) by lia.
    - rewrite <- (nearest_even_inject (2 ^ 53)). apply nearest_even_mono.
      rewrite <- (pow2_inject 53) by lia. now apply Qlt_le_weak. }
  split.
  - replace (binade x) with (52 + - k) by lia. rewrite pow2_add.
    apply Qmult_le_r; [exact Hk|].
    rewrite (pow2_inject 52) by lia. now rewrite <- Zle_Qle.
  - replace (binade x + 1) with (53 + - k) by lia. rewrite pow2_add.
    apply Qmult_le_r; [exact Hk|].
    rewrite (pow2_inject 53) by lia. now rewrite <- Zle_Qle.
Qed.

Lemma round_positive_mono (x y : Q) :
  (0 < x)%Q -> (x <= y)%Q -> (round_positive x <= round_positive y)%Q.
Proof.
  intros Hx Hxy.
  assert (0 < y)%Q as Hy by exact (Qlt_le_trans _ _ _ Hx Hxy).
  pose proof (binade_mono x y Hx Hxy) as He.
  destruct (Z.eq_dec (binade x) (binade y)) as [E|E].
  - unfold round_positive. cbv zeta. rewrite E.
    apply Qmult_le_r; [apply pow2_pos|]. rewrite <- Zle_Qle.
    apply nearest_even_mono. apply Qmult_le_r; [apply pow2_pos|exact Hxy].
  - destruct (round_positive_range x Hx) as [_ H1].
    destruct (round_positive_range y Hy) as [H2 _].
    apply Qle_trans with (2 ^ (binade x + 1))%Q; [exact H1|].
    apply Qle_trans with (2 ^ binade y)%Q; [|exact H2].
    apply pow2_le. lia.
Qed.

Lemma round_positive_pos (x : Q) : (0 < x)%Q -> (0 < round_positive x)%Q.
Proof.
  intros Hx. destruct (round_positive_range x Hx) as [H _].
  exact (Qlt_le_trans _ _ _ (pow2_pos _) H).
Qed.

Lemma Qnum_pos (x : Q) : (0 < x)%Q <-> 0 < Qnum x.
Proof. unfold Qlt. cbn. lia. Qed.

Lemma round_float_positive (x : Q) :
  (0 < x)%Q -> round_float x = round_positive x.
Proof.
  intros Hx. apply Qnum_pos in Hx. unfold round_float.
  destruct (Qnum x); try lia. reflexivity.
Qed.

Lemma round_float_zero (x : Q) : (x == 0)%Q -> round_float x = 0%Q.
Proof.
  intros Hx. unfold round_float.
  assert (Qnum x = 0) as ->; [|reflexivity].
  unfold Qeq in Hx. cbn in Hx. lia.
Qed.

(** Rounding keeps the order of the results of two operations. *)
Lemma round_float_mono (x y : Q) :
  (0 <= x)%Q -> (x <= y)%Q -> (round_float x <= round_float y)%Q.
Proof.
  intros Hx Hxy.
  destruct (Qlt_le_dec 0 x) as [Hpos|Hzero].
  - rewrite !round_float_positive
      by (try exact Hpos; exact (Qlt_le_trans _ _ _ Hpos Hxy)).
    now apply round_positive_mono.
  - rewrite (round_float_zero x) by now apply Qle_antisym.
    destruct (Qlt_le_dec 0 y) as [Hy|Hy].
    + rewrite round_float_positive by exact Hy.
      apply Qlt_le_weak. now apply round_positive_pos.
    + rewrite (round_float_zero y); [apply Qle_refl|].
      apply Qle_antisym; [exact Hy|]. exact (Qle_trans _ _ _ Hx Hxy).
Qed.

Lemma round_float_nonneg (x : Q) : (0 <= x)%Q -> (0 <= round_float x)%Q.
Proof.
  intros Hx. change 0%Q with (round_float 0). apply round_float_mono;
    [apply Qle_refl|exact Hx].
Qed.

Lemma round_float_eq (x y : Q) :
  (0 <= x)%Q -> (x == y)%Q -> (round_float x == round_float y)%Q.
Proof.
  intros Hx Hxy.
  assert (0 <= y)%Q as Hy by now rewrite <- Hxy.
  apply Qle_antisym; apply round_float_mono; try assumption;
    rewrite Hxy; apply Qle_refl.
Qed.

(** The relative error of rounding is at most [2^-53]. *)
Lemma round_float_error (x : Q) :
  (0 <= x)%Q ->
  (x * (1 - 2 ^ (-53)) <= round_float x
   /\ round_float x <= x * (1 + 2 ^ (-53)))%Q.
Proof.
  intros Hx. destruct (Qlt_le_dec 0 x) as [Hpos|Hzero].
  - rewrite round_float_positive by exact Hpos.
    destruct (significand_range x Hpos) as [H1 _].
    unfold round_positive. cbv zeta. set (k := 52 - binade x) in *.
    pose proof (pow2_pos (- k)) as Hk.
    destruct (nearest_even_bounds (x * 2 ^ k)) as [Hlo Hhi].
    set (n := inject_Z (nearest_even (x * 2 ^ k))) in *.
    assert (1 # 2 <= x * 2 ^ k * 2 ^ (-53))%Q as Hhalf.
    { apply Qle_trans with (2 ^ 52 * 2 ^ (-53))%Q.
      - rewrite <- pow2_add. apply Qle_refl.
      - apply Qmult_le_r; [apply pow2_pos|exact H1]. }
    assert (x == x * 2 ^ k * 2 ^ (- k))%Q as Hxk.
    { rewrite <- Qmult_assoc, pow2_cancel. ring. }
    split.
    + apply Qle_trans with ((x * 2 ^ k - x * 2 ^ k * 2 ^ (-53)) * 2 ^ (- k))%Q.
      * rewrite Hxk at 1. apply Qle_lteq. right. ring.
      * apply Qmult_le_r; [exact Hk|].
        apply Qle_trans with (x * 2 ^ k - (1 # 2))%Q.
        -- apply Qplus_le_r. apply Qopp_le_compat. exact Hhalf.
        -- apply Qplus_le_l with (1 # 2)%Q. ring_simplify.
           ring_simplify in Hhi. exact Hhi.
    + apply Qle_trans with ((x * 2 ^ k + x * 2 ^ k * 2 ^ (-53)) * 2 ^ (- k))%Q.
      * apply Qmult_le_r; [exact Hk|].
        apply Qle_trans with (x * 2 ^ k + (1 # 2))%Q.
        -- apply Qplus_le_l with (- (1 # 2))%Q. ring_simplify.
           ring_simplify in Hlo. exact Hlo.
        -- apply Qplus_le_r. exact Hhalf.
      * rewrite Hxk at 3. apply Qle_lteq. right. ring.
  - assert (x == 0)%Q as Hz by now apply Qle_antisym.
    rewrite (round_float_zero x Hz). rewrite Hz. split; apply Qle_lteq; right; ring.
Qed.

End Floats.

(** ** The percentage of a kind *)

Section Percentage.
Import Num Mapping.
Local Open Scope Z_scope.

(** The product [mapped / total * 100] as the code computes it. *)
Definition ratio_times_100 (mapped total : nat) : Q :=
  fmul (fdiv (inject_Z (Z.of_nat mapped)) (inject_Z (Z.of_nat total))) 100.

(** The percentage of a kind with components, as a number of tenths. *)
Definition tenths (mapped total : nat) : Z :=
  nearest_even (ratio_times_100 mapped total * 10).

Lemma py_round_1 (x : Q) : py_round x 1 = Qmake (nearest_even (x * 10)) 10.
Proof.
  unfold py_round, nearest_even. cbv zeta.
  change (10 ^ Z.of_nat 1) with 10. change (Z.to_pos 10) with 10%positive.
  f_equal. destruct x as [n d]. cbn [Qnum Qden Qmult].
  rewrite <- (round_half_even_div_scale (n * 10) d 1).
  f_equal. lia.
Qed.

Lemma coverage_percentage_tenths (mapped total : nat) :
  (0 < total)%nat ->
  coverage_percentage mapped total = Qmake (tenths mapped total) 10.
Proof.
  intros Ht. unfold coverage_percentage.
  destruct total as [|t]; [lia|]. cbn [Nat.ltb Nat.leb].
  now rewrite py_round_1.
Qed.

Lemma quotient_nonneg (m t : nat) :
  (0 < t)%nat -> (0 <= inject_Z (Z.of_nat m) / inject_Z (Z.of_nat t))%Q.
Proof.
  intros Ht. apply Qle_shift_div_l.
  - change 0%Q with (inject_Z 0). rewrite <- Zlt_Qlt. lia.
  - rewrite Qmult_0_l. change 0%Q with (inject_Z 0). rewrite <- Zle_Qle. lia.
Qed.

Lemma quotient_mono (m m' t : nat) :
  (0 < t)%nat -> (m <= m')%nat ->
  (inject_Z (Z.of_nat m) / inject_Z (Z.of_nat t)
   <= inject_Z (Z.of_nat m') / inject_Z (Z.of_nat t))%Q.
Proof.
  intros Ht Hm. unfold Qdiv. apply Qmult_le_compat_r.
  - rewrite <- Zle_Qle. lia.
  - apply Qinv_le_0_compat. change 0%Q with (inject_Z 0).
    rewrite <- Zle_Qle. lia.
Qed.

Lemma ratio_times_100_mono (m m' t : nat) :
  (0 < t)%nat -> (m <= m')%nat ->
  (ratio_times_100 m t <= ratio_times_100 m' t)%Q.
Proof.
  intros Ht Hm. unfold ratio_times_100, fmul, fdiv.
  pose proof (quotient_nonneg m t Ht) as H0.
  pose proof (quotient_mono m m' t Ht Hm) as H1.
  pose proof (round_float_nonneg _ H0) as H2.
  pose proof (round_float_mono _ _ H0 H1) as H3.
  apply round_float_mono; lra.
Qed.

Lemma ratio_times_100_nonneg (m t : nat) :
  (0 < t)%nat -> (0 <= ratio_times_100 m t)%Q.
Proof.
  intros Ht. unfold ratio_times_100, fmul, fdiv.
  pose proof (round_float_nonneg _ (quotient_nonneg m t Ht)) as H.
  apply round_float_nonneg. lra.
Qed.

Lemma tenths_mono (m m' t : nat) :
  (0 < t)%nat -> (m <= m')%nat -> tenths m t <= tenths m' t.
Proof.
  intros Ht Hm. unfold tenths. apply nearest_even_mono.
  pose proof (ratio_times_100_mono m m' t Ht Hm). lra.
Qed.

Lemma round_float_1 : (round_float 1 == 1)%Q.
Proof. vm_compute. reflexivity. Qed.

Lemma round_float_100 : (round_float 100 == 100)%Q.
Proof. vm_compute. reflexivity. Qed.

Lemma ratio_times_100_full (t : nat) :
  (0 < t)%nat -> (ratio_times_100 t t == 100)%Q.
Proof.
  intros Ht. unfold ratio_times_100, fmul, fdiv.
  assert (inject_Z (Z.of_nat t) / inject_Z (Z.of_nat t) == 1)%Q as H1.
  { apply Qmult_inv_r. intros E. unfold Qeq in E. cbn in E. lia. }
  pose proof (round_float_eq _ _ (quotient_nonneg t t Ht) H1) as H2.
  rewrite round_float_1 in H2.
  apply Qeq_trans with (round_float 100); [|exact round_float_100].
  apply round_float_eq; lra.
Qed.

Lemma tenths_full (t : nat) : (0 < t)%nat -> tenths t t = 1000.
Proof.
  intros Ht. unfold tenths. rewrite <- (nearest_even_inject 1000).
  apply nearest_even_eq. rewrite (ratio_times_100_full t Ht). reflexivity.
Qed.

Lemma tenths_zero (t : nat) : (0 < t)%nat -> tenths 0 t = 0.
Proof.
  intros Ht. unfold tenths, ratio_times_100, fmul, fdiv.
  rewrite (round_float_zero (inject_Z (Z.of_nat 0) / inject_Z (Z.of_nat t))).
  - reflexivity.
  - cbn. unfold Qdiv. now rewrite Qmult_0_l.
Qed.


(** The relative error of one operation, as a number. *)
Lemma round_float_error_bound (x : Q) :
  (0 <= x)%Q ->
  (x * (1 - (1 # 9007199254740992)) <= round_float x
   /\ round_float x <= x * (1 + (1 # 9007199254740992)))%Q.
Proof. exact (round_float_error x). Qed.

(** [total] times the product, between its bounds. *)
Lemma ratio_times_100_error (m t : nat) :
  (0 < t)%nat ->
  let u := (1 # 9007199254740992)%Q in
  let M := inject_Z (Z.of_nat m) in
  let P := (inject_Z (Z.of_nat t) * ratio_times_100 m t)%Q in
  (100 * M * (1 - u) * (1 - u) <= P /\ P <= 100 * M * (1 + u) * (1 + u))%Q.
Proof.
  intros Ht u M P. subst P. unfold ratio_times_100, fmul, fdiv.
  set (T := inject_Z (Z.of_nat t)).
  assert (0 < T)%Q as HT.
  { subst T. change 0%Q with (inject_Z 0). rewrite <- Zlt_Qlt. lia. }
  pose proof (quotient_nonneg m t Ht) as Hq. fold M T in Hq.
  set (q := (M / T)%Q) in *.
  assert (T * q == M)%Q as HTq.
  { subst q. field. intros E. rewrite E in HT. now apply Qlt_irrefl in HT. }
  destruct (round_float_error_bound q Hq) as [H1 H2]. fold u in H1, H2.
  pose proof (round_float_nonneg q Hq) as H0.
  set (x1 := round_float q) in *.
  assert (0 <= x1 * 100)%Q as Hx by lra.
  destruct (round_float_error_bound (x1 * 100) Hx) as [H3 H4].
  fold u in H3, H4. set (x2 := round_float (x1 * 100)) in *.
  assert (M * (1 - u) <= T * x1 /\ T * x1 <= M * (1 + u))%Q as [H5 H6].
  { rewrite <- HTq. split.
    - rewrite <- Qmult_assoc. now apply Qmult_le_l.
    - rewrite <- Qmult_assoc. now apply Qmult_le_l. }
  assert (T * x1 * 100 * (1 - u) <= T * x2
          /\ T * x2 <= T * x1 * 100 * (1 + u))%Q as [H7 H8].
  { split.
    - setoid_replace (T * x1 * 100 * (1 - u))%Q
      with (T * (x1 * 100 * (1 - u)))%Q using relation Qeq by ring.
      now apply Qmult_le_l.
    - setoid_replace (T * x1 * 100 * (1 + u))%Q
      with (T * (x1 * 100 * (1 + u)))%Q using relation Qeq by ring.
      now apply Qmult_le_l. }
  set (A1 := (T * x1)%Q) in *. set (A2 := (T * x2)%Q) in *.
  assert (0 <= M)%Q as HM.
  { subst M. change 0%Q with (inject_Z 0). rewrite <- Zle_Qle. lia. }
  enough (100 * M * (1 - u) * (1 - u) <= A2
          /\ A2 <= 100 * M * (1 + u) * (1 + u))%Q as H by exact H.
  clearbody A1 A2 M. subst u. split; lra.
Qed.

(** One more code among at most a billion moves the percentage of a kind
    with at most 1000 components. *)
Lemma tenths_step (m t : nat) :
  (0 < t <= 1000)%nat -> Z.of_nat m < 1000000000 ->
  tenths m t < tenths (S m) t.
Proof.
  intros Ht Hm.
  set (tz := Z.of_nat t). set (mz := Z.of_nat m).
  set (j := (2000 * mz + tz) / (2 * tz)).
  pose proof (Z.div_mod (2000 * mz + tz) (2 * tz) ltac:(lia)) as Hdm.
  pose proof (Z.mod_pos_bound (2000 * mz + tz) (2 * tz) ltac:(lia)) as Hr.
  fold j in Hdm. set (r := (2000 * mz + tz) mod (2 * tz)) in *.
  assert (2 * (tz * j) + tz >= 2000 * mz + 1
          /\ 2 * (tz * j) + tz <= 2000 * (mz + 1) - 1) as [Hj1 Hj2].
  { destruct (Z.eq_dec tz 1000) as [E|E].
    - rewrite E in *. lia.
    - assert (tz <= 999) by lia. lia. }
  destruct (ratio_times_100_error m t ltac:(lia)) as [_ Hup].
  destruct (ratio_times_100_error (S m) t ltac:(lia)) as [Hlo _].
  cbv zeta in Hup, Hlo. fold tz in Hup, Hlo.
  replace (Z.of_nat (S m)) with (mz + 1) in Hlo by lia. fold mz in Hup.
  rewrite inject_Z_plus in Hlo. change (inject_Z 1) with 1%Q in Hlo.
  enough (tenths m t <= j /\ j + 1 <= tenths (S m) t) by lia.
  unfold tenths.
  destruct (nearest_even_bounds (ratio_times_100 m t * 10)) as [Hn _].
  destruct (nearest_even_bounds (ratio_times_100 (S m) t * 10)) as [_ Hn'].
  set (x := ratio_times_100 m t) in *.
  set (x' := ratio_times_100 (S m) t) in *.
  set (n := nearest_even (x * 10)) in *.
  set (n' := nearest_even (x' * 10)) in *.
  set (T := inject_Z tz) in *. set (M := inject_Z mz) in *.
  assert (0 < T)%Q as HT.
  { subst T. change 0%Q with (inject_Z 0). rewrite <- Zlt_Qlt. lia. }
  assert (0 <= M /\ M <= 1000000000)%Q as [HM0 HM1].
  { subst M. split.
    - change 0%Q with (inject_Z 0). rewrite <- Zle_Qle. lia.
    - change 1000000000%Q with (inject_Z 1000000000). rewrite <- Zle_Qle. lia. }
  assert (inject_Z (tz * j) == T * inject_Z j)%Q as HJ
    by (rewrite inject_Z_mult; reflexivity).
  assert (2 * (T * inject_Z j) + T >= 2000 * M + 1
          /\ 2 * (T * inject_Z j) + T <= 2000 * (M + 1) - 1)%Q as [HQ1 HQ2].
  { rewrite <- HJ. subst T M. split.
    - apply Z.ge_le in Hj1. rewrite Zle_Qle in Hj1.
      rewrite !inject_Z_plus, !inject_Z_mult in Hj1. exact Hj1.
    - rewrite Zle_Qle in Hj2. unfold Z.sub in Hj2.
      rewrite !inject_Z_plus, !inject_Z_mult, inject_Z_plus in Hj2.
      exact Hj2. }
  set (Jq := (T * inject_Z j)%Q) in *.
  split.
  - enough (inject_Z n < inject_Z (j + 1))%Q as H
      by (rewrite <- Zlt_Qlt in H; lia).
    rewrite inject_Z_plus. change (inject_Z 1) with 1%Q.
    enough (x * 10 < inject_Z j + (1 # 2))%Q by lra.
    apply (Qmult_lt_l _ _ T HT).
    setoid_replace (T * (inject_Z j + (1 # 2)))%Q
      with (Jq + T * (1 # 2))%Q using relation Qeq by (subst Jq; ring).
    setoid_replace (T * (x * 10))%Q
      with (T * x * 10)%Q using relation Qeq by ring.
    set (P := (T * x)%Q) in *. lra.
  - enough (inject_Z j < inject_Z n')%Q as H
      by (rewrite <- Zlt_Qlt in H; lia).
    enough (inject_Z j + (1 # 2) < x' * 10)%Q by lra.
    apply (Qmult_lt_l _ _ T HT).
    setoid_replace (T * (inject_Z j + (1 # 2)))%Q
      with (Jq + T * (1 # 2))%Q using relation Qeq by (subst Jq; ring).
    setoid_replace (T * (x' * 10))%Q
      with (T * x' * 10)%Q using relation Qeq by ring.
    set (P' := (T * x')%Q) in *. lra.
Qed.

Lemma tenths_strict (m m' t : nat) :
  (0 < t <= 1000)%nat -> (m < m')%nat -> Z.of_nat m' <= 1000000000 ->
  tenths m t < tenths m' t.
Proof.
  intros Ht Hm Hb.
  apply Z.lt_le_trans with (tenths (S m) t).
  - apply tenths_step; lia.
  - apply tenths_mono; lia.
Qed.

(** The percentages of 23 of 80, 49 of 80, 1 of 2000 and 1 of 2001
    components: 28.7, 61.3, 0.1 and 0.0, the products being just below
    28.75, just above 61.25, just above 0.05 and below 0.05. *)
Example percentages_of_floats :
  coverage_percentage 23 80 = (287 # 10)%Q
  /\ coverage_percentage 49 80 = (613 # 10)%Q
  /\ coverage_percentage 1 2000 = (1 # 10)%Q
  /\ coverage_percentage 1 2001 = (0 # 10)%Q
  /\ (ratio_times_100 23 80 < 2875 # 100)%Q
  /\ (6125 # 100 < ratio_times_100 49 80)%Q.
Proof. repeat split; vm_compute; reflexivity. Qed.

End Percentage.

Section CoverageMonotone.
Import Mapping.

Lemma coverage_percentage_mono (m m' total : nat) :
  m <= m' ->
  (coverage_percentage m total <= coverage_percentage m' total)%Q.
Proof.
  intros Hm. destruct total as [|t]; [apply Qle_refl|].
  rewrite !coverage_percentage_tenths by lia. unfold Qle. cbn [Qnum Qden].
  pose proof (tenths_mono m m' (S t) ltac:(lia) Hm). lia.
Qed.

(** Below 1000 components every further code moves the percentage. *)
Lemma coverage_percentage_strict (m m' total : nat) :
  m < m' -> (Z.of_nat m' <= 1000000000)%Z -> 0 < total <= 1000 ->
  (coverage_percentage m total < coverage_percentage m' total)%Q.
Proof.
  intros Hm Hb Ht. rewrite !coverage_percentage_tenths by lia.
  unfold Qlt. cbn [Qnum Qden].
  pose proof (tenths_strict m m' total Ht Hm Hb). lia.
Qed.

Lemma mapped_codes_snoc (k : kind) (m : pyval) (ms : list pyval) :
  forall acc,
    mapped_codes k (ms ++ [m]) acc
    = do s <- mapped_codes k ms acc in
      do codes <- codes_of_mapping k m in
      Ok (list_to_set codes ∪ s).
Proof.
  induction ms as [|m0 ms IH]; intros acc; cbn [app mapped_codes bind].
  - now destruct (codes_of_mapping k m).
  - destruct (codes_of_mapping k m0) as [codes0| |]; cbn [bind]; [|easy|easy].
    apply IH.
Qed.

Lemma analysis_coverage_for `{Service} (k : kind) (ms : list pyval)
  (uoc_data : pyval) (a : coverage_analysis) :
  _analyze_mapping_coverage ms uoc_data = Ok a ->
  coverage_of_kind k ms uoc_data = Ok (coverage_for k a).
Proof.
  unfold _analyze_mapping_coverage.
  destruct (coverage_of_kind Element ms uoc_data) as [e| |] eqn:Ee;
    try discriminate; cbn [bind].
  destruct (coverage_of_kind PerformanceCriterion ms uoc_data) as [pc| |] eqn:Epc;
    try discriminate; cbn [bind].
  destruct (coverage_of_kind PerformanceEvidence ms uoc_data) as [pe| |] eqn:Epe;
    try discriminate; cbn [bind].
  destruct (coverage_of_kind KnowledgeEvidence ms uoc_data) as [ke| |] eqn:Eke;
    try discriminate; cbn [bind].
  destruct (intelligent_insights ms uoc_data) as [i| |];
    try discriminate; cbn [bind].
  intros [= <-]. destruct k; assumption.
Qed.

(** What a coverage record says, in terms of the set of mapped codes and
    the list of components. *)
Lemma coverage_of_kind_reads (k : kind) (ms : list pyval) (uoc_data : pyval)
  (c : coverage) :
  coverage_of_kind k ms uoc_data = Ok c ->
  exists mapped_set components,
    mapped_codes k ms ∅ = Ok mapped_set
    /\ py_get (components_of k) (PList []) uoc_data = Ok components
    /\ py_len components = Ok (total c)
    /\ mapped c = size mapped_set
    /\ percentage c = coverage_percentage (size mapped_set) (total c).
Proof.
  unfold coverage_of_kind.
  destruct (mapped_codes k ms ∅) as [mapped_set| |] eqn:Es;
    try discriminate; cbn [bind].
  destruct (py_get (components_of k) (PList []) uoc_data) as [components| |]
    eqn:Ec; try discriminate; cbn [bind].
  destruct (py_len components) as [n| |] eqn:El; try discriminate; cbn [bind].
  destruct (_identify_unmapped_components _ _ _) as [missing| |];
    try discriminate; cbn [bind].
  intros [= <-]. exists mapped_set, components. cbn [total mapped percentage].
  repeat split; assumption || reflexivity.
Qed.

(** C9, as the code has it: one more mapping with a code that no earlier
    mapping of the list has for the kind makes the count of mapped codes of
    that kind larger and leaves the total as it is; the percentage, a
    float rounded to one decimal, does not go down, and it goes up when the
    kind has at most 1000 components (and the codes mapped are at most a
    billion, which keeps the error of the two float operations below the
    step of the percentage). *)
Theorem new_code_raises_coverage `{Service} (k : kind) (ms : list pyval)
  (m uoc_data : pyval) (earlier : gset str) (codes : list str) (code : str)
  (a0 a1 : coverage_analysis) :
  _analyze_mapping_coverage ms uoc_data = Ok a0 ->
  _analyze_mapping_coverage (ms ++ [m]) uoc_data = Ok a1 ->
  mapped_codes k ms ∅ = Ok earlier ->
  codes_of_mapping k m = Ok codes ->
  code ∈ codes -> code ∉ earlier ->
  mapped (coverage_for k a0) < mapped (coverage_for k a1)
  /\ total (coverage_for k a1) = total (coverage_for k a0)
  /\ (percentage (coverage_for k a0) <= percentage (coverage_for k a1))%Q
  /\ (0 < total (coverage_for k a0) <= 1000 ->
      (Z.of_nat (mapped (coverage_for k a1)) <= 1000000000)%Z ->
      (percentage (coverage_for k a0) < percentage (coverage_for k a1))%Q).
Proof.
  intros Ha0 Ha1 Hearlier Hcodes Hin Hnew.
  apply (analysis_coverage_for k) in Ha0, Ha1.
  apply coverage_of_kind_reads in Ha0 as (s0 & comps0 & Hs0 & Hc0 & Hl0 & Hm0 & Hp0).
  apply coverage_of_kind_reads in Ha1 as (s1 & comps1 & Hs1 & Hc1 & Hl1 & Hm1 & Hp1).
  rewrite Hearlier in Hs0. injection Hs0 as <-.
  rewrite mapped_codes_snoc, Hearlier in Hs1. cbn [bind] in Hs1.
  rewrite Hcodes in Hs1. cbn [bind] in Hs1. injection Hs1 as <-.
  rewrite Hc0 in Hc1. injection Hc1 as <-.
  rewrite Hl0 in Hl1. injection Hl1 as Ht.
  assert (size earlier < size (list_to_set codes ∪ earlier)) as Hsize.
  { apply subset_size. apply strict_spec_alt. split; [set_solver|].
    intros Heq. apply Hnew. rewrite Heq. apply elem_of_union_l.
    now apply elem_of_list_to_set. }
  rewrite Hm0, Hm1, Hp0, Hp1, <- Ht. split; [exact Hsize|].
  split; [reflexivity|]. split.
  - apply coverage_percentage_mono. lia.
  - intros Htot Hbound. now apply coverage_percentage_strict.
Qed.

End CoverageMonotone.

(** A unit of competency with [n] elements, E1 to En, of which only the
    identifiers are given. *)
Definition unit_with_elements (n : nat) : pyval :=
  PDict [ (lit "elements",
           PList (map (fun i =>
                         PDict [ (lit "element_id",
                                  PStr (lit "E" ++ str_of_nat i)) ])
                    (seq 1 n))) ].

(** A mapping of one question to the element E1. *)
Definition first_element_mapping : pyval :=
  PDict [ (lit "question_id", PStr (lit "Q1"));
          (lit "mapping_analysis",
           PDict [ (lit "mapped_elements",
                    PList [ PDict [ (lit "element_id", PStr (lit "E1"));
                                    (lit "element_description",
                                     PStr (lit "Element 1")) ] ]) ]) ].

Definition analysis_of (mappings : list pyval) (uoc_data : pyval)
  : option Mapping.coverage_analysis :=
  match @Mapping._analyze_mapping_coverage (canned_service []) mappings
          uoc_data with
  | Ok a => Some a
  | _ => None
  end.

Definition elements_of (a : option Mapping.coverage_analysis)
  : option (nat * nat * Q * nat) :=
  match a with
  | Some a =>
      let c := Mapping.elements_coverage a in
      Some (Mapping.mapped c, Mapping.total c, Mapping.percentage c,
            length (Mapping.unmapped c))
  | None => None
  end.

(** C9, against the claim as it stands: of 2001 elements none is mapped;
    a mapping to E1 is added; the count of mapped elements goes from 0 to 1
    and the unmapped ones from 2001 to 2000, and the percentage is 0.0
    before and after. *)
Lemma one_element_of_2001_is_rounded_away :
  elements_of (analysis_of [] (unit_with_elements 2001))
  = Some (0, 2001, 0 # 10, 2001)
  /\ elements_of (analysis_of [first_element_mapping] (unit_with_elements 2001))
     = Some (1, 2001, 0 # 10, 2000).
Proof. split; vm_compute; reflexivity. Qed.

Definition no_mapping_of_three : Mapping.coverage_analysis :=
  Eval vm_compute in
  match analysis_of [] (unit_with_elements 3) with
  | Some a => a
  | None => {| Mapping.elements_coverage := Mapping.Build_coverage 0 0 0 [];
               Mapping.performance_criteria_coverage :=
                 Mapping.Build_coverage 0 0 0 [];
               Mapping.performance_evidence_coverage :=
                 Mapping.Build_coverage 0 0 0 [];
               Mapping.knowledge_evidence_coverage :=
                 Mapping.Build_coverage 0 0 0 [];
               Mapping.insights := PNone |}
  end.

Definition one_mapping_of_three : Mapping.coverage_analysis :=
  Eval vm_compute in
  match analysis_of [first_element_mapping] (unit_with_elements 3) with
  | Some a => a
  | None => no_mapping_of_three
  end.

Lemma new_code_raises_coverage_witness :
  Mapping.mapped (Mapping.elements_coverage no_mapping_of_three)
  < Mapping.mapped (Mapping.elements_coverage one_mapping_of_three)
  /\ Mapping.total (Mapping.elements_coverage one_mapping_of_three)
     = Mapping.total (Mapping.elements_coverage no_mapping_of_three)
  /\ (Mapping.percentage (Mapping.elements_coverage no_mapping_of_three)
      <= Mapping.percentage (Mapping.elements_coverage one_mapping_of_three))%Q
  /\ (0 < Mapping.total (Mapping.elements_coverage no_mapping_of_three) <= 1000 ->
      (Z.of_nat (Mapping.mapped (Mapping.elements_coverage one_mapping_of_three))
       <= 1000000000)%Z ->
      (Mapping.percentage (Mapping.elements_coverage no_mapping_of_three)
       < Mapping.percentage (Mapping.elements_coverage one_mapping_of_three))%Q).
Proof.
  apply (@new_code_raises_coverage (canned_service []) Mapping.Element []
           first_element_mapping (unit_with_elements 3) ∅ [lit "E1"]
           (lit "E1")).
  - vm_compute. reflexivity.
  - vm_compute. reflexivity.
  - reflexivity.
  - vm_compute. reflexivity.
  - apply list_elem_of_here.
  - apply not_elem_of_empty.
Defined.

(** ** Remediation tasks for elements *)

Section ElementTasks.
Import Validation.

(** [element.get('element_id', 'Unknown')] for the elements one mapping
    lists, in order. *)
Definition mapped_element_ids (mapping : pyval) : outcome (list str) :=
  do ma <- py_get (lit "mapping_analysis") (PDict []) mapping in
  do mapped_elements <- py_get (lit "mapped_elements") (PList []) ma in
  do elements <- py_iter mapped_elements in
  map_outcome
    (fun element =>
       do id <- py_get (lit "element_id") (PStr (lit "Unknown")) element in
       as_str id)
    elements.

(** The elements the mappings attribute a question to, one entry for each
    attribution. *)
Fixpoint attributions (mappings : list pyval) : outcome (list str) :=
  match mappings with
  | [] => Ok []
  | mapping :: rest =>
      do ids <- mapped_element_ids mapping in
      do ids' <- attributions rest in
      Ok (ids ++ ids')
  end.

Fixpoint occurrences (id : str) (ids : list str) : nat :=
  match ids with
  | [] => 0
  | x :: rest => (if eqs id x then 1 else 0) + occurrences id rest
  end.

(** [element_coverage.get(element_id)] *)
Fixpoint entry_of (element_id : str) (d : list (str * element_entry))
  : option element_entry :=
  match d with
  | [] => None
  | (k, e) :: d' => if eqs element_id k then Some e else entry_of element_id d'
  end.

Definition count_in (element_id : str) (d : list (str * element_entry)) : nat :=
  match entry_of element_id d with
  | Some e => count e
  | None => 0
  end.

Definition fresh (k : str) (d : list (str * element_entry)) : bool :=
  forallb (fun kv => negb (eqs k (fst kv))) d.

(** The keys of a dict are distinct. *)
Fixpoint distinct (d : list (str * element_entry)) : bool :=
  match d with
  | [] => true
  | (k, _) :: d' => fresh k d' && distinct d'
  end.

Lemma occurrences_app (id : str) (a b : list str) :
  occurrences id (a ++ b) = occurrences id a + occurrences id b.
Proof. induction a as [|x a IH]; simpl; [reflexivity|]. rewrite IH. lia. Qed.

Lemma count_in_attribute (id id' : str) (c : Num.num) (q : pyval)
  (d : list (str * element_entry)) :
  count_in id (attribute id' c q d)
  = count_in id d + (if eqs id id' then 1 else 0).
Proof.
  unfold count_in. induction d as [|[k e] d IH]; cbn [attribute entry_of].
  - destruct (eqs id id'); reflexivity.
  - destruct (eqs id' k) eqn:E'.
    + apply eqs_eq in E'. subst k. cbn [entry_of].
      destruct (eqs id id'); cbn [count]; [lia|].
      destruct (entry_of id d); lia.
    + cbn [entry_of]. destruct (eqs id k) eqn:E; [|exact IH].
      destruct (eqs id id') eqn:E2; [|lia].
      apply eqs_eq in E, E2. subst. now rewrite eqs_refl in E'.
Qed.

Lemma fresh_attribute (k id : str) (c : Num.num) (q : pyval)
  (d : list (str * element_entry)) :
  fresh k d = true -> eqs k id = false -> fresh k (attribute id c q d) = true.
Proof.
  intros Hf Hk. induction d as [|[k0 e0] d IH]; cbn [attribute].
  - unfold fresh. cbn. now rewrite Hk.
  - unfold fresh in *. cbn [forallb fst] in Hf.
    apply andb_true_iff in Hf as [H0 Hd].
    destruct (eqs id k0); cbn [forallb fst]; rewrite H0; [exact Hd|].
    now apply IH.
Qed.

Lemma distinct_attribute (id : str) (c : Num.num) (q : pyval)
  (d : list (str * element_entry)) :
  distinct d = true -> distinct (attribute id c q d) = true.
Proof.
  induction d as [|[k0 e0] d IH]; cbn [attribute distinct]; [reflexivity|].
  intros Hd. apply andb_true_iff in Hd as [Hf Hd].
  destruct (eqs id k0) eqn:E; cbn [distinct].
  - now rewrite Hf, Hd.
  - rewrite (IH Hd), andb_true_r. apply fresh_attribute; [exact Hf|].
    now rewrite eqs_sym.
Qed.

Lemma positive_attribute (id : str) (c : Num.num) (q : pyval)
  (d : list (str * element_entry)) :
  Forall (fun kv => 1 <= count (snd kv)) d ->
  Forall (fun kv => 1 <= count (snd kv)) (attribute id c q d).
Proof.
  induction 1 as [|[k0 e0] d H0 Hd IH]; cbn [attribute].
  - constructor; [cbn; lia|constructor].
  - destruct (eqs id k0); constructor; cbn [snd count] in *; try lia; assumption.
Qed.

Lemma distinct_entry (k : str) (e : element_entry)
  (d : list (str * element_entry)) :
  distinct d = true -> In (k, e) d -> entry_of k d = Some e.
Proof.
  induction d as [|[k0 e0] d IH]; cbn [distinct entry_of In]; [easy|].
  intros Hd Hin. apply andb_true_iff in Hd as [Hf Hd].
  destruct Hin as [[= -> ->]|Hin]; [now rewrite eqs_refl|].
  destruct (eqs k k0) eqn:E; [|now apply IH].
  apply eqs_eq in E. subst k0. unfold fresh in Hf.
  rewrite forallb_forall in Hf. specialize (Hf _ Hin). cbn [fst] in Hf.
  now rewrite eqs_refl in Hf.
Qed.

Lemma entry_of_in (k : str) (e : element_entry)
  (d : list (str * element_entry)) :
  entry_of k d = Some e -> In (k, e) d.
Proof.
  induction d as [|[k0 e0] d IH]; cbn [entry_of In]; [easy|].
  destruct (eqs k k0) eqn:E.
  - apply eqs_eq in E. subst. intros [= ->]. now left.
  - intros He. right. now apply IH.
Qed.

(** One step through a sequence of calls that returned. *)
Ltac returned H :=
  match type of H with
  | bind ?c _ = Ok _ =>
      let E := fresh "E" in
      destruct c eqn:E; cbn [bind] in H; try discriminate H
  end.

Definition sound (d : list (str * element_entry)) : Prop :=
  distinct d = true /\ Forall (fun kv => 1 <= count (snd kv)) d.

Lemma attribute_elements_counts (qid : pyval) (elements : list pyval) :
  forall d d',
    attribute_elements qid elements d = Ok d' ->
    exists ids,
      map_outcome
        (fun element =>
           do id <- py_get (lit "element_id") (PStr (lit "Unknown")) element in
           as_str id)
        elements = Ok ids
      /\ (forall id, count_in id d' = count_in id d + occurrences id ids)
      /\ (sound d -> sound d').
Proof.
  induction elements as [|element rest IH]; intros d d' Ha.
  - injection Ha as <-. exists []. cbn. split; [reflexivity|].
    split; [intros; lia|easy].
  - cbn [attribute_elements] in Ha. returned Ha. returned Ha. returned Ha.
    returned Ha. apply IH in Ha as (ids & Hids & Hcount & Hsound).
    exists (a0 :: ids). cbn [map_outcome]. rewrite E. cbn [bind].
    rewrite E0. cbn [bind]. rewrite Hids. cbn [bind]. split; [reflexivity|].
    split.
    + intros id. rewrite Hcount, count_in_attribute. cbn [occurrences]. lia.
    + intros [Hd Hp]. apply Hsound. split.
      * now apply distinct_attribute.
      * now apply positive_attribute.
Qed.

Lemma analyse_mapping_counts (t t' : tallies) (mapping : pyval) :
  analyse_mapping t mapping = Ok t' ->
  exists ids,
    mapped_element_ids mapping = Ok ids
    /\ (forall id, count_in id (element_coverage t')
                   = count_in id (element_coverage t) + occurrences id ids)
    /\ (sound (element_coverage t) -> sound (element_coverage t')).
Proof.
  unfold analyse_mapping. intros Ha.
  do 10 returned Ha.
  match goal with
  | H : attribute_elements _ _ _ = Ok _ |- _ =>
      apply attribute_elements_counts in H as (ids & Hids & Hcount & Hsound)
  end.
  do 7 returned Ha. injection Ha as <-. cbn [element_coverage].
  exists ids. unfold mapped_element_ids.
  repeat match goal with
         | H : ?c = Ok _ |- context [bind ?c _] => rewrite H; cbn [bind]
         end.
  now split.
Qed.

Lemma analyse_mappings_counts (mappings : list pyval) :
  forall t t',
    analyse_mappings t mappings = Ok t' ->
    exists ids,
      attributions mappings = Ok ids
      /\ (forall id, count_in id (element_coverage t')
                     = count_in id (element_coverage t) + occurrences id ids)
      /\ (sound (element_coverage t) -> sound (element_coverage t')).
Proof.
  induction mappings as [|mapping rest IH]; intros t t' Ha.
  - injection Ha as <-. exists []. cbn. split; [reflexivity|].
    split; [intros; lia|easy].
  - cbn [analyse_mappings] in Ha. returned Ha.
    apply analyse_mapping_counts in E as (ids & Hids & Hcount & Hsound).
    apply IH in Ha as (ids' & Hids' & Hcount' & Hsound').
    exists (ids ++ ids'). cbn [attributions]. rewrite Hids. cbn [bind].
    rewrite Hids'. cbn [bind]. split; [reflexivity|]. split.
    + intros id. rewrite Hcount', Hcount, occurrences_app. lia.
    + auto.
Qed.

Definition task_field (k : str) (t : pyval) : option pyval :=
  match t with
  | PDict d => dict_get k d
  | _ => None
  end.

Lemma element_tasks_in (x : pyval) (d : list (str * element_entry)) :
  In x (element_tasks d)
  <-> exists k e, In (k, e) d /\ count e < 2 /\ x = element_task k e.
Proof.
  unfold element_tasks. rewrite in_flat_map. split.
  - intros ([k e] & Hin & Hx). cbn [fst snd] in Hx.
    destruct (count e <? 2) eqn:Hc; [|easy]. destruct Hx as [<-|[]].
    exists k, e. apply Nat.ltb_lt in Hc. now repeat split.
  - intros (k & e & Hin & Hc & ->). exists (k, e). split; [exact Hin|].
    cbn [fst snd]. apply Nat.ltb_lt in Hc. rewrite Hc. now left.
Qed.

Lemma element_task_element (k k' : str) (e e' : element_entry) :
  element_task k e = element_task k' e' -> k = k'.
Proof.
  intros Ht. apply (f_equal (task_field (lit "impacted_elements"))) in Ht.
  vm_compute in Ht. congruence.
Qed.

(** The tasks of standard 1.8 are those of the elements. *)
Lemma coverage_tasks (t : tallies) (n : nat) (id : str) (e : element_entry) :
  In (element_task id e) (remediation_tasks_of t n) ->
  In (element_task id e) (element_tasks (element_coverage t)).
Proof.
  unfold remediation_tasks_of. cbv zeta. intros Hin.
  repeat (apply in_app_or in Hin as [Hin|Hin]; [try exact Hin|]);
    try exact Hin.
  all: exfalso;
    repeat match type of Hin with
           | In _ (if ?b then _ else _) => destruct b
           | In _ (match ?l with [] => _ | _ :: _ => _ end) => destruct l
           end;
    cbn [In] in Hin; try contradiction; destruct Hin as [Hin|[]];
    apply (f_equal (task_field (lit "standard_code"))) in Hin;
    vm_compute in Hin; discriminate Hin.
Qed.

(** C8, as the code has it: the elements that get a task are those the
    mappings name, and among them those named exactly once. For every
    element id, a task of [element_task] is among the remediation tasks if
    and only if the mappings attribute exactly one question to the element;
    an element with no attributed question gets none. Every such task is of
    moderate severity and carries suggested actions and acceptance
    criteria. *)
Theorem element_task_iff_single_attribution (session_data : pyval)
  (r : coverage_quality) :
  analyze_coverage_quality session_data = Ok r ->
  exists mappings ids,
    actual_mappings_of session_data = Ok mappings
    /\ attributions mappings = Ok ids
    /\ (forall id,
          (exists e, In (element_task id e) (remediation_tasks r))
          <-> occurrences id ids = 1)
    /\ (forall id e,
          In (element_task id e) (remediation_tasks r) ->
          task_field (lit "severity") (element_task id e)
          = Some (PStr (lit "moderate"))
          /\ (exists action actions,
                task_field (lit "suggested_actions") (element_task id e)
                = Some (PList (action :: actions)))
          /\ (exists criterion criteria,
                task_field (lit "acceptance_criteria") (element_task id e)
                = Some (PList (criterion :: criteria)))).
Proof.
  unfold analyze_coverage_quality. intros Ha. returned Ha. returned Ha.
  injection Ha as <-. cbn [remediation_tasks].
  apply analyse_mappings_counts in E0 as (ids & Hids & Hcount & Hsound).
  destruct Hsound as [Hdistinct Hpositive]; [split; [reflexivity|constructor]|].
  exists a, ids. split; [reflexivity|]. split; [exact Hids|]. split.
  - intros id. rewrite <- (Nat.add_0_l (occurrences id ids)).
    change 0 with (count_in id (element_coverage no_tallies)) at 1.
    rewrite <- Hcount. split.
    + intros [e Hin]. apply coverage_tasks, element_tasks_in in Hin.
      destruct Hin as (k & e' & Hin & Hc & Ht).
      apply element_task_element in Ht. subst k.
      unfold count_in. rewrite (distinct_entry _ _ _ Hdistinct Hin).
      rewrite List.Forall_forall in Hpositive. specialize (Hpositive _ Hin).
      cbn [snd] in Hpositive. lia.
    + unfold count_in. destruct (entry_of id (element_coverage a0)) as [e|] eqn:He;
        [|discriminate].
      intros Hc. exists e. apply in_or_app. left. apply element_tasks_in.
      exists id, e. split; [now apply entry_of_in|]. split; [lia|reflexivity].
  - intros id e _. split; [reflexivity|]. split; eexists; eexists; reflexivity.
Qed.

End ElementTasks.

(** A session on a unit with the elements E1 and E2, in which the only
    question is mapped to E1. *)
Definition session_with_uncovered_element : pyval :=
  PDict
    [ (lit "uoc_data",
       PDict [ (lit "elements",
                PList [ PDict [ (lit "element_id", PStr (lit "E1"));
                                (lit "description", PStr (lit "Prepare for work")) ];
                        PDict [ (lit "element_id", PStr (lit "E2"));
                                (lit "description", PStr (lit "Clean hands")) ] ]) ]);
      (lit "mappings", PList [first_element_mapping]) ].

Definition task_ids (r : outcome Validation.coverage_quality)
  : list (option pyval) :=
  match r with
  | Ok r => map (task_field (lit "id")) (Validation.remediation_tasks r)
  | _ => []
  end.

Definition impacted_elements (r : outcome Validation.coverage_quality)
  : list (option pyval) :=
  match r with
  | Ok r =>
      map (task_field (lit "impacted_elements")) (Validation.remediation_tasks r)
  | _ => []
  end.

(** C8, against the claim as it stands: E2 is an element of the unit, no
    question is attributed to it, and no remediation task is emitted for
    it: the only element task is that of E1, and E1 is the only element any
    task names. *)
Lemma uncovered_element_gets_no_task :
  Validation.actual_mappings_of session_with_uncovered_element
  = Ok [first_element_mapping]
  /\ attributions [first_element_mapping] = Ok [lit "E1"]
  /\ occurrences (lit "E2") [lit "E1"] = 0
  /\ task_ids (Validation.analyze_coverage_quality session_with_uncovered_element)
     = map (fun s => Some (PStr (lit s)))
         [ "remed_element_E1"; "remed_method_pep"; "remed_bloom_higher";
           "remed_evidence_alignment"; "remed_low_confidence" ]%string
  /\ impacted_elements
       (Validation.analyze_coverage_quality session_with_uncovered_element)
     = repeat (Some (PList [PStr (lit "E1")])) 5.
Proof. repeat split; vm_compute; reflexivity. Qed.

Definition quality_of_uncovered_session : Validation.coverage_quality :=
  Eval vm_compute in
  match Validation.analyze_coverage_quality session_with_uncovered_element with
  | Ok r => r
  | _ => {| Validation.element_analysis := [];
            Validation.remediation_tasks := [] |}
  end.

Lemma element_task_iff_single_attribution_witness :
  (exists e,
     In (Validation.element_task (lit "E1") e)
       (Validation.remediation_tasks quality_of_uncovered_session))
  /\ ~ (exists e,
          In (Validation.element_task (lit "E2") e)
            (Validation.remediation_tasks quality_of_uncovered_session)).
Proof.
  destruct (element_task_iff_single_attribution session_with_uncovered_element
              quality_of_uncovered_session)
    as (mappings & ids & Hm & Hids & Hiff & _).
  - vm_compute. reflexivity.
  - vm_compute in Hm. injection Hm as <-.
    vm_compute in Hids. injection Hids as <-. split.
    + apply Hiff. reflexivity.
    + intros He. apply Hiff in He. discriminate He.
Defined.

(** ** The JSON reader always answers *)

Section JsonFuel.
Import Json.

Lemma skip_ws_cons (s r : str) (d : char) :
  skip_ws s = d :: r -> S (length r) <= length s.
Proof.
  intros Hs. pose proof (length_drop_while json_ws s) as Hl.
  unfold skip_ws in Hs. rewrite Hs in Hl. exact Hl.
Qed.

Lemma skip_ws_le (s : str) : length (skip_ws s) <= length s.
Proof. apply length_drop_while. Qed.

Lemma scan_string_shorter (n : nat) :
  forall s acc t rest,
    length s <= n -> scan_string s acc = Some (t, rest) ->
    S (length rest) <= length s.
Proof.
  induction n as [|n IH]; intros s acc t rest Hn Hs.
  - destruct s; [discriminate|simpl in Hn; lia].
  - destruct s as [|c s']; [discriminate|]. cbn [scan_string] in Hs.
    cbn [length] in *.
    destruct (eqc c "034"%char); [injection Hs as _ <-; lia|].
    destruct (eqc c "\"%char).
    + destruct s' as [|e s'']; [discriminate|]. cbn [length] in *.
      destruct (eqc e "u"%char).
      * destruct s'' as [|h1 [|h2 [|h3 [|h4 s5]]]]; try discriminate.
        cbn [length] in *.
        destruct (hex4 h1 h2 h3 h4) as [k|]; [|discriminate].
        destruct (k <? 256); [|discriminate].
        apply IH in Hs; lia.
      * destruct (escape e); [|discriminate]. apply IH in Hs; lia.
    + destruct (code c <? 32); [discriminate|]. apply IH in Hs; lia.
Qed.

Lemma scan_number_le (s : str) (v : pyval) (rest : str) :
  scan_number s = Some (v, rest) -> length rest <= length s.
Proof.
  unfold scan_number.
  set (p := match s with
            | c :: r => if eqc c "-"%char then (true, r) else (false, s)
            | [] => (false, s)
            end).
  assert (length (snd p) <= length s) as Hp.
  { subst p. destruct s as [|c r]; [reflexivity|].
    destruct (eqc c "-"%char); cbn; lia. }
  destruct p as [negative s1]. cbn [snd] in Hp.
  destruct (scan_int s1) as [[int_digits s2]|] eqn:Hi; [|discriminate].
  assert (length s2 <= length s1) as H2.
  { unfold scan_int in Hi. destruct s1 as [|c r]; [discriminate|].
    destruct (eqc c "0"%char); [injection Hi as _ <-; cbn; lia|].
    destruct (between 49 57 c); [|discriminate]. injection Hi as _ <-.
    exact (length_drop_while is_decimal (c :: r)). }
  destruct (scan_frac s2) as [frac_digits s3] eqn:Hf.
  assert (length s3 <= length s2) as H3.
  { unfold scan_frac in Hf. destruct s2 as [|c r]; [now injection Hf as _ <-|].
    destruct (eqc c "."%char && nonempty (take_while is_decimal r));
      injection Hf as _ <-; [|lia].
    pose proof (length_drop_while is_decimal r). cbn. lia. }
  destruct (scan_exp s3) as [exponent s4] eqn:He.
  assert (length s4 <= length s3) as H4.
  { unfold scan_exp in He. destruct s3 as [|c r]; [now injection He as _ <-|].
    destruct (eqc c "e"%char || eqc c "E"%char); [|now injection He as _ <-].
    set (q := match r with
              | sg :: r1 =>
                  if eqc sg "-"%char then (true, r1)
                  else if eqc sg "+"%char then (false, r1) else (false, r)
              | [] => (false, r)
              end) in He.
    assert (length (snd q) <= length r) as Hq.
    { subst q. destruct r as [|sg r1]; [reflexivity|].
      destruct (eqc sg "-"%char); [cbn; lia|].
      destruct (eqc sg "+"%char); cbn; lia. }
    destruct q as [neg r']. cbn [snd] in Hq.
    destruct (take_while is_decimal r'); injection He as _ <-; [lia|].
    pose proof (length_drop_while is_decimal r'). cbn. lia. }
  intros Hs.
  assert (rest = s4) as ->; [|lia].
  destruct frac_digits, exponent; now injection Hs as _ <-.
Qed.

Lemma scan_atom_le (s : str) (v : pyval) (rest : str) :
  scan_atom s = Some (v, rest) -> length rest <= length s.
Proof.
  assert (forall w x, word w x s = Some (v, rest) -> length rest <= length s)
    as Hword.
  { intros w x. unfold word. destruct (startswith (lit w) s); [|discriminate].
    intros [= _ <-]. rewrite length_skipn. lia. }
  unfold scan_atom. destruct s as [|c r]; [discriminate|].
  repeat match goal with
         | |- context [if ?b then _ else _] => destruct b; [now apply Hword|]
         end.
  apply scan_number_le.
Qed.

(** What is left after a term is no longer than the text. *)
Lemma parse_rest_le (fuel : nat) :
  (forall s v rest,
     parse_value fuel s = Parsed v rest -> length rest <= length s)
  /\ (forall acc s v rest,
        parse_members fuel acc s = Parsed v rest -> length rest <= length s)
  /\ (forall acc s v rest,
        parse_elements fuel acc s = Parsed v rest -> length rest <= length s).
Proof.
  induction fuel as [|fuel (IHv & IHm & IHe)]; [repeat split; discriminate|].
  repeat split.
  - intros s v rest. cbn [parse_value]. destruct s as [|c r]; [discriminate|].
    cbn [length].
    destruct (eqc c "034"%char).
    { destruct (scan_string r []) as [[t rest']|] eqn:Hs; [|discriminate].
      intros [= _ <-]. apply (scan_string_shorter _ _ _ _ _ (Nat.le_refl _)) in Hs.
      lia. }
    destruct (eqc c "{"%char).
    { destruct (skip_ws r) as [|d r'] eqn:Hw; [discriminate|].
      pose proof (skip_ws_le r) as Hl. rewrite Hw in Hl. cbn [length] in Hl.
      destruct (eqc d "}"%char); [intros [= _ <-]; lia|].
      intros Hm. apply IHm in Hm. cbn [length] in Hm. lia. }
    destruct (eqc c "["%char).
    { destruct (skip_ws r) as [|d r'] eqn:Hw; [discriminate|].
      pose proof (skip_ws_le r) as Hl. rewrite Hw in Hl. cbn [length] in Hl.
      destruct (eqc d "]"%char); [intros [= _ <-]; lia|].
      intros Hm. apply IHe in Hm. cbn [length] in Hm. lia. }
    destruct (scan_atom (c :: r)) as [[v' rest']|] eqn:Ha; [|discriminate].
    intros [= _ <-]. apply scan_atom_le in Ha. exact Ha.
  - intros acc s v rest. cbn [parse_members].
    destruct s as [|q r]; [discriminate|]. cbn [length].
    destruct (eqc q "034"%char); [|discriminate].
    destruct (scan_string r []) as [[key r1]|] eqn:Hs; [|discriminate].
    apply (scan_string_shorter _ _ _ _ _ (Nat.le_refl _)) in Hs.
    destruct (skip_ws r1) as [|colon r2] eqn:Hw; [discriminate|].
    apply skip_ws_cons in Hw.
    destruct (eqc colon ":"%char); [|discriminate].
    destruct (parse_value fuel (skip_ws r2)) as [v' r3| |] eqn:Hv;
      try discriminate.
    apply IHv in Hv. pose proof (skip_ws_le r2) as Hl2.
    destruct (skip_ws r3) as [|d r4] eqn:Hw3; [discriminate|].
    apply skip_ws_cons in Hw3.
    destruct (eqc d "}"%char); [intros [= _ <-]; lia|].
    destruct (eqc d ","%char); [|discriminate].
    intros Hm. apply IHm in Hm. pose proof (skip_ws_le r4). lia.
  - intros acc s v rest. cbn [parse_elements].
    destruct (parse_value fuel s) as [v' r1| |] eqn:Hv; try discriminate.
    apply IHv in Hv.
    destruct (skip_ws r1) as [|d r2] eqn:Hw; [discriminate|].
    apply skip_ws_cons in Hw.
    destruct (eqc d "]"%char); [intros [= _ <-]; lia|].
    destruct (eqc d ","%char); [|discriminate].
    intros Hm. apply IHe in Hm. pose proof (skip_ws_le r2). lia.
Qed.

(** A nested term costs two units of fuel and at least one character. *)
Lemma parse_fuel (fuel : nat) :
  (forall s, 2 * length s + 1 <= fuel -> parse_value fuel s <> OutOfFuel)
  /\ (forall acc s,
        2 * length s + 2 <= fuel -> parse_members fuel acc s <> OutOfFuel)
  /\ (forall acc s,
        2 * length s + 2 <= fuel -> parse_elements fuel acc s <> OutOfFuel).
Proof.
  induction fuel as [|fuel (IHv & IHm & IHe)]; [repeat split; intros; lia|].
  destruct (parse_rest_le fuel) as (Lv & Lm & Le).
  repeat split.
  - intros s Hf. cbn [parse_value]. destruct s as [|c r]; [discriminate|].
    cbn [length] in Hf.
    destruct (eqc c "034"%char);
      [now destruct (scan_string r []) as [[t rest]|]|].
    destruct (eqc c "{"%char).
    { destruct (skip_ws r) as [|d r'] eqn:Hw; [discriminate|].
      pose proof (skip_ws_le r) as Hl. rewrite Hw in Hl. cbn [length] in Hl.
      destruct (eqc d "}"%char); [discriminate|].
      apply IHm. cbn [length]. lia. }
    destruct (eqc c "["%char).
    { destruct (skip_ws r) as [|d r'] eqn:Hw; [discriminate|].
      pose proof (skip_ws_le r) as Hl. rewrite Hw in Hl. cbn [length] in Hl.
      destruct (eqc d "]"%char); [discriminate|].
      apply IHe. cbn [length]. lia. }
    now destruct (scan_atom (c :: r)) as [[v' rest']|].
  - intros acc s Hf. cbn [parse_members].
    destruct s as [|q r]; [discriminate|]. cbn [length] in Hf.
    destruct (eqc q "034"%char); [|discriminate].
    destruct (scan_string r []) as [[key r1]|] eqn:Hs; [|discriminate].
    apply (scan_string_shorter _ _ _ _ _ (Nat.le_refl _)) in Hs.
    destruct (skip_ws r1) as [|colon r2] eqn:Hw; [discriminate|].
    apply skip_ws_cons in Hw.
    destruct (eqc colon ":"%char); [|discriminate].
    pose proof (skip_ws_le r2) as Hl2.
    destruct (parse_value fuel (skip_ws r2)) as [v' r3| |] eqn:Hv;
      [|discriminate|exfalso; revert Hv; apply IHv; lia].
    apply Lv in Hv.
    destruct (skip_ws r3) as [|d r4] eqn:Hw3; [discriminate|].
    apply skip_ws_cons in Hw3.
    destruct (eqc d "}"%char); [discriminate|].
    destruct (eqc d ","%char); [|discriminate].
    apply IHm. pose proof (skip_ws_le r4). lia.
  - intros acc s Hf. cbn [parse_elements].
    destruct (parse_value fuel s) as [v' r1| |] eqn:Hv;
      [|discriminate|exfalso; revert Hv; apply IHv; lia].
    apply Lv in Hv.
    destruct (skip_ws r1) as [|d r2] eqn:Hw; [discriminate|].
    apply skip_ws_cons in Hw.
    destruct (eqc d "]"%char); [discriminate|].
    destruct (eqc d ","%char); [|discriminate].
    apply IHe. pose proof (skip_ws_le r2). lia.
Qed.

(** [json.loads] returns a value or raises: the fuel it is given is
    enough for every text. *)
Lemma loads_answers (s : str) : loads s <> Diverge.
Proof.
  unfold loads.
  destruct (parse_value (S (S (2 * length s))) (skip_ws s)) as [v rest| |] eqn:Hp.
  - now destruct (skip_ws rest).
  - discriminate.
  - exfalso. revert Hp. apply parse_fuel. pose proof (skip_ws_le s). lia.
Qed.

End JsonFuel.

(** ** The per-question mapping always answers *)

(** A call that returns or raises. *)
Definition answers {A : Type} (c : outcome A) : Prop := c <> Diverge.

Lemma answers_ok {A : Type} (a : A) : answers (Ok a).
Proof. discriminate. Qed.

Lemma answers_raise {A : Type} (e : exn) : answers (@Raise A e).
Proof. discriminate. Qed.

Lemma answers_bind {A B : Type} (c : outcome A) (k : A -> outcome B) :
  answers c -> (forall a, answers (k a)) -> answers (bind c k).
Proof. unfold answers. destruct c; cbn [bind]; auto. Qed.

Lemma answers_try {A : Type} (body : outcome A) (handler : exn -> outcome A) :
  answers body -> (forall e, answers (handler e)) ->
  answers (try_except body handler).
Proof. unfold answers. destruct body; cbn [try_except]; auto. Qed.

(** A body that answers, under a handler that returns: the call returns. *)
Lemma caught_returns {A : Type} (body : outcome A) (fallback : A) :
  answers body -> exists r, try_except body (fun _ => Ok fallback) = Ok r.
Proof.
  unfold answers. destruct body; cbn [try_except]; eauto. contradiction.
Qed.

Create HintDb answers.

#[local] Hint Resolve answers_ok answers_raise : answers.

Ltac answer :=
  repeat first
    [ progress intros
    | apply answers_ok
    | apply answers_raise
    | solve [auto with answers]
    | match goal with
      | |- answers (bind _ _) => apply answers_bind
      | |- answers (try_except _ _) => apply answers_try
      | |- answers (if ?b then _ else _) => destruct b
      | |- answers (match ?x with _ => _ end) => destruct x
      end
    | progress cbv zeta ].

Section Answers.
Import Mapping.

Lemma py_in_answers (k : str) (v : pyval) : answers (py_in k v).
Proof. destruct v; discriminate. Qed.

Lemma py_get_answers (k : str) (default v : pyval) :
  answers (py_get k default v).
Proof. destruct v; discriminate. Qed.

Lemma py_getitem_answers (k : str) (v : pyval) : answers (py_getitem k v).
Proof.
  destruct v; try discriminate. unfold answers. cbn [py_getitem].
  destruct (dict_get k d); discriminate.
Qed.

Lemma py_iter_answers (v : pyval) : answers (py_iter v).
Proof. destruct v; discriminate. Qed.

Lemma py_len_answers (v : pyval) : answers (py_len v).
Proof. destruct v; discriminate. Qed.

#[local] Hint Resolve py_in_answers py_get_answers py_getitem_answers
  py_iter_answers py_len_answers : answers.

Lemma map_outcome_answers {A B : Type} (f : A -> outcome B) (l : list A) :
  (forall a, answers (f a)) -> answers (map_outcome f l).
Proof. intros Hf. induction l; cbn [map_outcome]; answer. Qed.

Lemma filter_outcome_answers (p : pyval -> outcome bool) (l : list pyval) :
  (forall a, answers (p a)) -> answers (filter_outcome p l).
Proof. intros Hp. induction l; cbn [filter_outcome]; answer. Qed.

Lemma parses_answers (candidate : str) : answers (parses candidate).
Proof.
  unfold parses. pose proof (loads_answers candidate) as Hl.
  destruct (Json.loads candidate); [discriminate|discriminate|contradiction].
Qed.

Lemma json_loads_answers (s : str) : answers (Json.loads s).
Proof. exact (loads_answers s). Qed.

#[local] Hint Resolve parses_answers json_loads_answers : answers.

Lemma first_parsing_answers (candidates : list str) :
  answers (first_parsing candidates).
Proof. induction candidates; cbn [first_parsing]; answer. Qed.

#[local] Hint Resolve first_parsing_answers : answers.

Lemma clean_json_response_answers (response : str) :
  answers (_clean_json_response response).
Proof. unfold _clean_json_response. answer. Qed.

Lemma validate_basic_answers (mapping_data : pyval) :
  answers (_validate_basic_mapping_structure mapping_data).
Proof. unfold _validate_basic_mapping_structure. answer. Qed.

Lemma clean_field_answers (id_key code_key prefix : str) (item : pyval) :
  answers (clean_field id_key code_key prefix item).
Proof. unfold clean_field. answer. Qed.

#[local] Hint Resolve clean_field_answers : answers.

Lemma clean_fields_answers (fields : list (str * str * str)) :
  forall item, answers (clean_fields fields item).
Proof.
  induction fields as [|[[ik ck] p] rest IH]; intros item;
    cbn [clean_fields]; answer.
Qed.

#[local] Hint Resolve clean_fields_answers : answers.

Lemma clean_category_answers (category : str)
  (fields : list (str * str * str)) (ma : dict) :
  answers (clean_category category fields ma).
Proof.
  unfold clean_category. answer; apply map_outcome_answers; answer.
Qed.

#[local] Hint Resolve clean_category_answers : answers.

Lemma clean_mapping_ids_answers (ma : dict) : answers (_clean_mapping_ids ma).
Proof. unfold _clean_mapping_ids. answer. Qed.

Lemma validate_id_format_answers (id : pyval) (prefix : str) :
  answers (_validate_id_format id prefix).
Proof. unfold _validate_id_format. answer. Qed.

#[local] Hint Resolve validate_id_format_answers : answers.

Lemma log_category_answers (category id_key prefix : str) (ma : dict) :
  answers (log_category category id_key prefix ma).
Proof. unfold log_category. answer. apply map_outcome_answers. answer. Qed.

#[local] Hint Resolve log_category_answers : answers.

Lemma log_id_validation_issues_answers (ma : dict) :
  answers (_log_id_validation_issues ma).
Proof. unfold _log_id_validation_issues. answer. Qed.

Lemma tally_item_answers (t : tally) (mapping : pyval) :
  answers (tally_item t mapping).
Proof. unfold tally_item. answer. Qed.

#[local] Hint Resolve tally_item_answers : answers.

Lemma tally_items_answers (items : list pyval) :
  forall t, answers (tally_items t items).
Proof. induction items; intros t; cbn [tally_items]; answer. Qed.

#[local] Hint Resolve tally_items_answers : answers.

Lemma tally_categories_answers (cats : list str) (ma : dict) :
  forall t, answers (tally_categories t cats ma).
Proof. induction cats; intros t; cbn [tally_categories]; answer. Qed.

#[local] Hint Resolve tally_categories_answers : answers.

Lemma calculate_mapping_statistics_answers (ma : dict) :
  answers (_calculate_mapping_statistics ma).
Proof. unfold _calculate_mapping_statistics. answer. Qed.

Lemma keeps_answers (id_key description_key : str) (item : pyval) :
  answers (keeps id_key description_key item).
Proof. unfold keeps. answer. Qed.

#[local] Hint Resolve keeps_answers : answers.

Lemma filter_category_answers (category id_key description_key : str)
  (ma : pyval) :
  answers (filter_category category id_key description_key ma).
Proof.
  unfold filter_category. answer; apply filter_outcome_answers; answer.
Qed.

#[local] Hint Resolve filter_category_answers : answers.

Lemma filter_analysis_answers (ma : pyval) : answers (filter_analysis ma).
Proof. unfold filter_analysis. answer. Qed.

#[local] Hint Resolve filter_analysis_answers : answers.

Lemma filter_empty_mappings_answers (mapping_data : dict) :
  answers (_filter_empty_mappings mapping_data).
Proof. unfold _filter_empty_mappings. answer. Qed.

#[local] Hint Resolve clean_json_response_answers validate_basic_answers
  clean_mapping_ids_answers log_id_validation_issues_answers
  calculate_mapping_statistics_answers filter_empty_mappings_answers : answers.

Lemma ensure_complete_answers (mapping_data question : dict) :
  answers (_ensure_complete_mapping_structure mapping_data question).
Proof. unfold _ensure_complete_mapping_structure. answer. Qed.

#[local] Hint Resolve ensure_complete_answers : answers.

Context `{Service}.

(** The reply parser returns, a mapping or [None], for every reply. *)
Lemma parse_reply_returns (call : nat) (response : str) (question : dict) :
  exists r,
    _parse_comprehensive_ai_response_robust call response question = Ok r.
Proof.
  unfold _parse_comprehensive_ai_response_robust. apply caught_returns. answer.
Qed.

(** The mapping of one question returns, a mapping or [None], when the
    prompt builder answers. *)
Lemma map_single_question_returns (call : nat) (question : dict)
  (uoc_data : pyval) (assessment : str) :
  answers (_create_simplified_mapping_prompt question uoc_data assessment) ->
  exists r,
    _map_single_question_comprehensive call question uoc_data assessment
    = Ok r.
Proof.
  intros Hprompt. unfold _map_single_question_comprehensive.
  apply caught_returns. apply answers_bind; [exact Hprompt|]. intros prompt.
  destruct (_call_ai_api call prompt) as [response|]; [|answer].
  destruct (nonempty response); [|answer].
  destruct (parse_reply_returns call response question) as [r ->]. answer.
Qed.

End Answers.

(** ** The batch under the fail-fast policy, for every service *)

Section FailFastBatch.
Import Mapping.
Context `{Service}.

(** C1: for a service whose prompt builder answers, when the mapping of
    one question of the batch fails (the call for it returns [None]),
    [execute] raises [RuntimeError]: no result record, and so no mapping of
    the questions before it, is returned. The mapping of a question fails
    when the service gives no reply for it, and when no JSON text can be
    taken out of the reply. *)
Theorem failed_question_aborts_batch (uoc_data : pyval) (assessment : str) :
  (forall question,
     answers (_create_simplified_mapping_prompt question uoc_data assessment)) ->
  (forall api_key questions i q,
     nth_error questions i = Some q ->
     _map_single_question_comprehensive i q uoc_data assessment = Ok None ->
     execute api_key questions uoc_data assessment = Raise RuntimeError)
  /\ (forall i q prompt,
        _create_simplified_mapping_prompt q uoc_data assessment = Ok prompt ->
        _call_ai_api i prompt = None
        \/ (exists response,
              _call_ai_api i prompt = Some response
              /\ _clean_json_response response = Ok None) ->
        _map_single_question_comprehensive i q uoc_data assessment = Ok None).
Proof.
  intros Hprompt. split.
  - intros api_key questions i q Hi Hq.
    apply (batch_aborts_at api_key questions uoc_data assessment i q Hi);
      [|exact Hq].
    intros j qj _ _. apply map_single_question_returns, Hprompt.
  - intros i q prompt Hp Hreply. unfold _map_single_question_comprehensive.
    rewrite Hp. cbn [bind].
    destruct Hreply as [->|(response & -> & Hclean)]; [reflexivity|].
    destruct (nonempty response); [|reflexivity].
    unfold _parse_comprehensive_ai_response_robust. now rewrite Hclean.
Qed.

End FailFastBatch.

Lemma failed_question_aborts_batch_witness :
  @Mapping.execute second_call_fails (lit "key")
    [hand_hygiene_question; glove_question] (PDict []) (lit "Mixed")
  = Raise RuntimeError.
Proof.
  apply (proj1 (@failed_question_aborts_batch second_call_fails (PDict [])
                  (lit "Mixed") ltac:(discriminate))
           (lit "key") [hand_hygiene_question; glove_question] 1 glove_question).
  - reflexivity.
  - vm_compute. reflexivity.
Defined.

(** * Further properties of the code *)

(** ** The fields of a validated question *)

Section ValidatedQuestions.
Import Extract.

(** The fields [_validate_questions] ensures. *)
Definition required_fields : list str :=
  map lit [ "question_id"; "id"; "text"; "question_number"; "type";
            "question_type"; "choices"; "confidence"; "line_number";
            "pattern_used" ]%string.

(** A record with every required field, and a text that is not empty. *)
Definition complete (d : dict) : bool :=
  forallb (fun k => dict_has k d) required_fields
  && truthy (dict_get_or (lit "text") PNone d).

Lemma dict_has_set_same (k : str) (v : pyval) (d : dict) :
  dict_has k (dict_set k v d) = true.
Proof. unfold dict_has. now rewrite dict_get_set_same. Qed.

Lemma dict_has_set_mono (k k' : str) (v : pyval) (d : dict) :
  dict_has k d = true -> dict_has k (dict_set k' v d) = true.
Proof.
  intros Hd. destruct (eqs k k') eqn:E.
  - apply eqs_eq in E. subst. apply dict_has_set_same.
  - now rewrite dict_has_set_other.
Qed.

Lemma dict_get_set_keep (k k' : str) (v v' : pyval) (d : dict) :
  dict_get k d = Some v -> eqs k k' = false ->
  dict_get k (dict_set k' v' d) = Some v.
Proof. intros Hd Hk. now rewrite dict_get_set_other. Qed.

Lemma dict_get_setdefault_keep (k k' : str) (v v' : pyval) (d : dict) :
  dict_get k d = Some v -> dict_get k (dict_setdefault k' v' d) = Some v.
Proof.
  intros Hd. unfold dict_setdefault. destruct (dict_has k' d) eqn:Hk; [exact Hd|].
  rewrite dict_get_set_other; [exact Hd|].
  destruct (eqs k k') eqn:E; [|reflexivity]. apply eqs_eq in E. subst.
  unfold dict_has in Hk. now rewrite Hd in Hk.
Qed.

Lemma dict_setdefault_present (k : str) (v : pyval) (d : dict) :
  dict_has k d = true -> dict_setdefault k v d = d.
Proof. intros Hd. unfold dict_setdefault. now rewrite Hd. Qed.

(** [validate_one] as a chain of [setdefault]s around the repair of the
    text. *)
Lemma validate_one_chain (i : nat) (question : dict) :
  validate_one i question
  = let q1 := dict_setdefault (lit "question_id")
                (dict_get_or (lit "id") (PStr (Qid (i + 1))) question)
                question in
    let q2 := dict_setdefault (lit "id")
                (dict_get_or (lit "question_id") PNone q1) q1 in
    let q3 :=
      if negb (dict_has (lit "text") q2)
         || negb (truthy (dict_get_or (lit "text") PNone q2))
      then dict_set (lit "text") (PStr (lit "Question " ++ str_of_nat (i + 1))) q2
      else q2 in
    dict_setdefault (lit "pattern_used") (PStr (lit "validated"))
      (dict_setdefault (lit "line_number") (line_no i)
         (dict_setdefault (lit "confidence") (PStr (lit "medium"))
            (dict_setdefault (lit "choices") (PList [])
               (let q5 := dict_setdefault (lit "type") (PStr (lit "unknown"))
                            (dict_setdefault (lit "question_number")
                               (PStr (str_of_nat (i + 1))) q3) in
                dict_setdefault (lit "question_type")
                  (dict_get_or (lit "type") PNone q5) q5)))).
Proof. reflexivity. Qed.

Ltac has_field :=
  repeat first
    [ apply dict_has_setdefault_same
    | apply dict_has_set_same
    | apply dict_has_setdefault_mono
    | apply dict_has_set_mono ].

Lemma validate_one_text (i : nat) (q2 : dict) :
  let q3 :=
    if negb (dict_has (lit "text") q2)
       || negb (truthy (dict_get_or (lit "text") PNone q2))
    then dict_set (lit "text") (PStr (lit "Question " ++ str_of_nat (i + 1))) q2
    else q2 in
  dict_has (lit "text") q3 = true
  /\ exists v, dict_get (lit "text") q3 = Some v /\ truthy v = true.
Proof.
  cbv zeta. destruct (dict_has (lit "text") q2) eqn:Hh; cbn [negb orb].
  - unfold dict_get_or. unfold dict_has in Hh.
    destruct (dict_get (lit "text") q2) as [v|] eqn:Hg; [|discriminate].
    destruct (truthy v) eqn:Ht; cbn [negb].
    + split; [unfold dict_has; now rewrite Hg|]. now exists v.
    + split; [apply dict_has_set_same|]. rewrite dict_get_set_same.
      eexists. split; reflexivity.
  - split; [apply dict_has_set_same|]. rewrite dict_get_set_same.
    eexists. split; reflexivity.
Qed.

Lemma validate_one_complete (i : nat) (question : dict) :
  complete (validate_one i question) = true.
Proof.
  rewrite validate_one_chain. cbv zeta.
  set (q1 := dict_setdefault (lit "question_id") _ question).
  set (q2 := dict_setdefault (lit "id") _ q1).
  pose proof (validate_one_text i q2) as Htext. cbv zeta in Htext.
  match goal with
  | |- context [dict_setdefault (lit "question_number") _ ?q3] =>
      set (third := q3) in *
  end.
  destruct Htext as [Hhas (v & Hv & Ht)].
  assert (dict_has (lit "question_id") third = true
          /\ dict_has (lit "id") third = true) as [Hqid Hid].
  { subst third q2 q1.
    match goal with
    | |- context [if ?b then _ else _] => destruct b
    end; split; has_field. }
  unfold complete. apply andb_true_iff. split.
  - unfold required_fields. cbn [map forallb]. rewrite !andb_true_iff.
    repeat split; has_field; assumption.
  - unfold dict_get_or at 1.
    match goal with
    | |- context [dict_get (lit "text") ?d] =>
        assert (dict_get (lit "text") d = Some v) as ->
          by (repeat apply dict_get_setdefault_keep; exact Hv)
    end.
    exact Ht.
Qed.

Lemma complete_fields (d : dict) :
  complete d = true ->
  (forall k, In k required_fields -> dict_has k d = true)
  /\ truthy (dict_get_or (lit "text") PNone d) = true.
Proof.
  unfold complete. intros Hc. apply andb_true_iff in Hc as [Hf Ht].
  split; [|exact Ht]. now rewrite forallb_forall in Hf.
Qed.

Ltac required :=
  unfold required_fields; cbn [map In];
  repeat first [ left; reflexivity | right ].

(** A complete record is left as it is, whatever its position. *)
Lemma validate_one_fixed (i : nat) (d : dict) :
  complete d = true -> validate_one i d = d.
Proof.
  intros Hc. apply complete_fields in Hc as [Hf Ht].
  rewrite validate_one_chain. cbv zeta.
  rewrite (dict_setdefault_present (lit "question_id")) by (apply Hf; required).
  rewrite (dict_setdefault_present (lit "id")) by (apply Hf; required).
  rewrite (Hf (lit "text")) by required. rewrite Ht. cbn [negb orb].
  rewrite (dict_setdefault_present (lit "question_number")) by (apply Hf; required).
  rewrite (dict_setdefault_present (lit "type")) by (apply Hf; required).
  rewrite (dict_setdefault_present (lit "question_type")) by (apply Hf; required).
  rewrite (dict_setdefault_present (lit "choices")) by (apply Hf; required).
  rewrite (dict_setdefault_present (lit "confidence")) by (apply Hf; required).
  rewrite (dict_setdefault_present (lit "line_number")) by (apply Hf; required).
  now rewrite (dict_setdefault_present (lit "pattern_used")) by (apply Hf; required).
Qed.

(** What a record holds is kept, but a text that is empty. *)
Lemma validate_one_keeps (i : nat) (d : dict) (k : str) (v : pyval) :
  dict_get k d = Some v ->
  eqs k (lit "text") = false \/ truthy v = true ->
  dict_get k (validate_one i d) = Some v.
Proof.
  intros Hd Hk. rewrite validate_one_chain. cbv zeta.
  set (q1 := dict_setdefault (lit "question_id") _ d).
  set (q2 := dict_setdefault (lit "id") _ q1).
  assert (dict_get k q2 = Some v) as H2
    by (subst q2 q1; repeat apply dict_get_setdefault_keep; exact Hd).
  repeat apply dict_get_setdefault_keep.
  destruct Hk as [Hk|Hv].
  - destruct (_ || _); [now apply dict_get_set_keep|exact H2].
  - destruct (eqs k (lit "text")) eqn:E.
    + apply eqs_eq in E. subst k. unfold dict_has, dict_get_or.
      rewrite H2, Hv. exact H2.
    + destruct (_ || _); [now apply dict_get_set_keep|exact H2].
Qed.

(** A record without ['question_id'] gets its ['id'], or [Q<i+1>]. *)
Lemma validate_one_question_id (i : nat) (d : dict) :
  dict_has (lit "question_id") d = false ->
  dict_get (lit "question_id") (validate_one i d)
  = Some (dict_get_or (lit "id") (PStr (Qid (i + 1))) d).
Proof.
  intros Hd. rewrite validate_one_chain. cbv zeta.
  repeat apply dict_get_setdefault_keep.
  match goal with
  | |- dict_get _ (if ?b then _ else _) = _ =>
      destruct b; [apply dict_get_set_keep; [|reflexivity]|]
  end;
    apply dict_get_setdefault_keep; unfold dict_setdefault; rewrite Hd;
    apply dict_get_set_same.
Qed.

(** The loop of [_validate_questions] on a list of dicts. *)
Fixpoint validate_dicts (i : nat) (ds : list dict) : list dict :=
  match ds with
  | [] => []
  | d :: rest => validate_one i d :: validate_dicts (S i) rest
  end.

Lemma validate_from_dicts (ds : list dict) :
  forall i, validate_from i (map PDict ds) = map PDict (validate_dicts i ds).
Proof.
  induction ds as [|d ds IH]; intros i; [reflexivity|].
  cbn [map validate_from validate_dicts]. now rewrite IH.
Qed.

Lemma validate_dicts_length (ds : list dict) :
  forall i, length (validate_dicts i ds) = length ds.
Proof. induction ds; intros i; cbn; [reflexivity|]. now rewrite IHds. Qed.

Lemma validate_dicts_nth (ds : list dict) :
  forall i n d,
    nth_error ds n = Some d ->
    nth_error (validate_dicts i ds) n = Some (validate_one (i + n) d).
Proof.
  induction ds as [|d0 ds IH]; intros i [|n] d Hn; try discriminate.
  - injection Hn as <-. cbn. now rewrite Nat.add_0_r.
  - cbn. rewrite (IH (S i) n d Hn). do 2 f_equal. lia.
Qed.

Lemma validate_dicts_complete (ds : list dict) :
  forall i, Forall (fun d => complete d = true) (validate_dicts i ds).
Proof.
  induction ds as [|d ds IH]; intros i; cbn [validate_dicts]; constructor.
  - apply validate_one_complete.
  - apply IH.
Qed.

Lemma validate_from_idempotent (qs : list pyval) :
  forall i j, validate_from j (validate_from i qs) = validate_from i qs.
Proof.
  induction qs as [|q qs IH]; intros i j; [reflexivity|].
  destruct q; try reflexivity.
  cbn [validate_from]. rewrite IH.
  now rewrite (validate_one_fixed j _ (validate_one_complete i d)).
Qed.

(** X1: On a list of dicts [_validate_questions] returns as many records,
    in the same order; every record has the ten required fields and a text
    that is not empty; what a record held is kept (an empty text apart),
    and a record without ['question_id'] gets its ['id'], or [Q<n+1>] for
    the record at position [n]. *)
Theorem validated_questions_are_complete (ds : list dict) :
  exists ds',
    _validate_questions (map PDict ds) = map PDict ds'
    /\ length ds' = length ds
    /\ Forall (fun d' => complete d' = true) ds'
    /\ (forall n d d',
          nth_error ds n = Some d -> nth_error ds' n = Some d' ->
          (forall k v,
             dict_get k d = Some v ->
             eqs k (lit "text") = false \/ truthy v = true ->
             dict_get k d' = Some v)
          /\ (dict_has (lit "question_id") d = false ->
              dict_get (lit "question_id") d'
              = Some (dict_get_or (lit "id") (PStr (Qid (n + 1))) d))).
Proof.
  exists (validate_dicts 0 ds). unfold _validate_questions.
  split; [apply validate_from_dicts|].
  split; [apply validate_dicts_length|].
  split; [apply validate_dicts_complete|].
  intros n d d' Hd Hd'. rewrite (validate_dicts_nth ds 0 n d Hd) in Hd'.
  injection Hd' as <-. cbn [Nat.add]. split.
  - intros k v. apply validate_one_keeps.
  - apply validate_one_question_id.
Qed.

(** X2: [_validate_questions] is idempotent, on every list: validating a
    validated list changes nothing. *)
Theorem validate_questions_idempotent (qs : list pyval) :
  _validate_questions (_validate_questions qs) = _validate_questions qs.
Proof. apply validate_from_idempotent. Qed.

End ValidatedQuestions.

(** ** The identifiers of the extracted questions *)

Section ExtractedIdentifiers.
Import Extract.
Context `{Helpers}.

(** [q.get(k)] on a record. *)
Definition field_of (k : str) (q : pyval) : option pyval :=
  match q with
  | PDict d => dict_get k d
  | _ => None
  end.

(** The records carry the identifiers [Q<n>] for the numbers [ns], under
    ['id'] and under ['question_id']. *)
Definition numbered (qs : list pyval) (ns : list nat) : Prop :=
  map (field_of (lit "question_id")) qs = map (fun n => Some (PStr (Qid n))) ns
  /\ map (field_of (lit "id")) qs = map (fun n => Some (PStr (Qid n))) ns.

Lemma numbered_snoc (qs : list pyval) (ns : list nat) (q : pyval) (n : nat) :
  numbered qs ns ->
  field_of (lit "question_id") q = Some (PStr (Qid n)) ->
  field_of (lit "id") q = Some (PStr (Qid n)) ->
  numbered (qs ++ [q]) (ns ++ [n]).
Proof.
  intros [H1 H2] Hq Hi. unfold numbered. rewrite !map_app. cbn [map].
  now rewrite H1, H2, Hq, Hi.
Qed.

Lemma nodup_snoc {A : Type} (l : list A) (x : A) :
  List.NoDup l -> ~ In x l -> List.NoDup (l ++ [x]).
Proof.
  induction 1 as [|y l Hy Hl IH]; intros Hx; cbn [app].
  - constructor; [easy|constructor].
  - constructor.
    + rewrite in_app_iff. cbn [In]. intros [Hin|[->|[]]]; [easy|].
      apply Hx. now left.
    + apply IH. intros Hin. apply Hx. now right.
Qed.

(** The state of the scan: the questions found so far are numbered, with
    different numbers, and their identifiers are in [used_ids]. *)
Definition tracked (st : state) (ns : list nat) : Prop :=
  numbered (questions st) ns
  /\ List.NoDup ns
  /\ (forall n, In n ns -> Qid n ∈ used_ids st).

Lemma try_patterns_tracked (ps : list (str * (str -> option str)))
  (lines : list str) (i : nat) (line : str) (st st' : state) (ns : list nat) :
  try_patterns ps lines i line st = Ok st' ->
  tracked st ns -> exists ns', tracked st' ns'.
Proof.
  induction ps as [|[pattern matcher] ps IH]; cbn [try_patterns].
  - intros [= <-] Ht. now exists ns.
  - destruct (matcher line) as [g|]; [|exact IH].
    destruct (10 <? length (strip g)); [|exact IH].
    destruct (first_free _ _ _ _) as [n|] eqn:Hn; [|discriminate].
    intros [= <-] (Hnum & Hnd & Hused). exists (ns ++ [n]).
    apply first_free_some in Hn.
    split; [|split]; cbn [questions used_ids].
    + apply numbered_snoc; [exact Hnum|reflexivity|reflexivity].
    + apply nodup_snoc; [exact Hnd|]. intros Hin. apply Hn. now apply Hused.
    + intros m Hm. apply in_app_iff in Hm as [Hm|[<-|[]]].
      * apply elem_of_union_r. now apply Hused.
      * apply elem_of_union_l. now apply elem_of_singleton.
Qed.

Lemma scan_lines_tracked (lines rest : list str) :
  forall i st st' ns,
    scan_lines lines i rest st = Ok st' ->
    tracked st ns -> exists ns', tracked st' ns'.
Proof.
  induction rest as [|raw rest IH]; intros i st st' ns; cbn [scan_lines].
  - intros [= <-] Ht. now exists ns.
  - destruct (step lines i raw st) as [st1| |] eqn:Es; try discriminate.
    cbn [bind]. intros Hscan Ht.
    assert (exists ns1, tracked st1 ns1) as [ns1 H1].
    { rewrite step_cases in Es. destruct (negb _).
      - injection Es as <-. now exists ns.
      - destruct (heading_line _) as [[num text]|].
        + injection Es as <-. now exists ns.
        + exact (try_patterns_tracked _ _ _ _ _ _ ns Es Ht). }
    now apply (IH _ _ _ _ Hscan H1).
Qed.

Lemma potential_loop_numbered (rest : list str) :
  forall i acc,
    numbered acc (seq 1 (length acc)) ->
    exists k, numbered (potential_loop i rest acc) (seq 1 k).
Proof.
  induction rest as [|raw rest IH]; intros i acc Hacc; cbn [potential_loop].
  - now exists (length acc).
  - destruct (nonempty (strip raw) && looks_like_question (strip raw));
      [|now apply IH].
    apply IH. rewrite length_app. cbn [length].
    replace (seq 1 (length acc + 1))
      with (seq 1 (length acc) ++ [length acc + 1])
      by (rewrite (Nat.add_1_r (length acc)), seq_S; do 2 f_equal; lia).
    apply numbered_snoc; [exact Hacc| |]; reflexivity.
Qed.

Lemma validate_from_numbered (qs : list pyval) :
  forall i ns, numbered qs ns -> numbered (validate_from i qs) ns.
Proof.
  induction qs as [|q qs IH]; intros i ns Hn; [exact Hn|].
  destruct Hn as [H1 H2]. destruct ns as [|n ns]; [discriminate|].
  cbn [map] in H1, H2. injection H1 as Hq H1. injection H2 as Hi H2.
  destruct q; try discriminate. cbn [validate_from field_of] in *.
  destruct (IH (S i) ns (conj H1 H2)) as [H1' H2'].
  split; cbn [map field_of]; f_equal; try assumption;
    now apply validate_one_keeps; [|left].
Qed.

(** X3: every record the pattern-based extractor returns carries an
    identifier [Q<n>], the same under ['id'] and ['question_id'], and no
    two records of one result have the same identifier. *)
Theorem extracted_ids_are_distinct (text : str) :
  exists qs ns,
    _extract_questions_from_text text = Ok qs
    /\ numbered qs ns
    /\ length ns = length qs
    /\ List.NoDup (map Qid ns).
Proof.
  unfold _extract_questions_from_text.
  destruct (scan_lines_total (split_nl text) (split_nl text) 0 initial_state)
    as [st Hst].
  rewrite Hst. cbn [bind try_except].
  assert (tracked initial_state []) as H0.
  { split; [now split|]. split; [constructor|]. intros n []. }
  destruct (scan_lines_tracked _ _ _ _ _ _ Hst H0) as (ns & Hnum & Hnd & _).
  assert (forall found ns',
            numbered found ns' -> List.NoDup ns' ->
            exists qs ns0,
              Ok (_validate_questions found) = Ok qs
              /\ numbered qs ns0
              /\ length ns0 = length qs
              /\ List.NoDup (map Qid ns0)) as Hdone.
  { intros found ns' Hnum' Hnd'. eexists. exists ns'.
    split; [reflexivity|].
    pose proof (validate_from_numbered found 0 ns' Hnum') as Hv.
    split; [exact Hv|]. split.
    - destruct Hv as [Hv _]. apply (f_equal (@length _)) in Hv.
      now rewrite !length_map in Hv.
    - apply List.NoDup_map_NoDup_ForallPairs; [|exact Hnd'].
      intros a b _ _. apply Qid_inj. }
  destruct (questions st) as [|q qs] eqn:Eq.
  - destruct (potential_loop_numbered (split_nl text) 0 []) as [k Hk];
      [now split|].
    apply (Hdone _ (seq 1 k) Hk). apply List.seq_NoDup.
  - now apply (Hdone _ ns).
Qed.

End ExtractedIdentifiers.

(** ** The size of a chunk *)

Section ChunkSize.
Import Extract.

(** A chunk within the limit (one newline over it at most), or one
    question group on its own. *)
Definition fits (max_size : Z) (all : list str) (c : str) : Prop :=
  (len c <= max_size + 1)%Z \/ exists q, In q all /\ c = strip q.

Lemma len_strip_le (s : str) : (len (strip s) <= len s)%Z.
Proof. unfold len. pose proof (length_strip_le s). lia. Qed.

Lemma group_loop_fits (max_size : Z) (all : list str) :
  forall groups chunks current,
    (forall q, In q groups -> In q all) ->
    Forall (fits max_size all) chunks ->
    current = [] \/ (len current <= max_size + 1)%Z \/ In current all ->
    Forall (fits max_size all) (fst (group_loop max_size groups chunks current))
    /\ (let current' := snd (group_loop max_size groups chunks current) in
        current' = [] \/ (len current' <= max_size + 1)%Z \/ In current' all).
Proof.
  induction groups as [|q rest IH]; intros chunks current Hall Hchunks Hcur.
  - now split.
  - cbn [group_loop].
    assert (In q all) as Hq by (apply Hall; now left).
    assert (forall x, In x rest -> In x all) as Hrest
      by (intros x Hx; apply Hall; now right).
    destruct (max_size <? len (current ++ q))%Z eqn:Hover;
      destruct (nonempty current) eqn:Hne; cbn [andb].
    + apply IH; [exact Hrest| |now right; right].
      apply Forall_app. split; [exact Hchunks|]. constructor; [|constructor].
      destruct Hcur as [->|[Hlen|Hin]]; [discriminate| |].
      * left. pose proof (len_strip_le current). lia.
      * right. now exists current.
    + apply IH; [exact Hrest|exact Hchunks|now right; right].
    + apply IH; [exact Hrest|exact Hchunks|]. right. left.
      apply Z.ltb_ge in Hover. unfold len in *.
      rewrite !length_app in *. cbn [length nl] in *. lia.
    + apply IH; [exact Hrest|exact Hchunks|now right; right].
Qed.

(** X4: every chunk of [_group_into_chunks] is at most [max_size + 1]
    characters long, or is one question group on its own (stripped). The
    bound is one over the limit because the test leaves out the newline
    that joins two groups, and it is reached. *)
Theorem chunk_is_bounded_or_single (groups : list str) (max_size : Z) :
  Forall (fits max_size groups) (_group_into_chunks groups max_size)
  /\ _group_into_chunks [lit "abc"; lit "de"] 5 = [lit "abc" ++ nl ++ lit "de"].
Proof.
  split; [|reflexivity]. unfold _group_into_chunks.
  destruct (group_loop_fits max_size groups groups [] [])
    as [Hchunks Hcur]; [auto|constructor|now left|].
  destruct (group_loop max_size groups [] []) as [chunks current].
  cbn [fst snd] in *. destruct (nonempty current) eqn:Hne; [|exact Hchunks].
  apply Forall_app. split; [exact Hchunks|]. constructor; [|constructor].
  destruct Hcur as [->|[Hlen|Hin]]; [discriminate| |].
  - left. pose proof (len_strip_le current). lia.
  - right. now exists current.
Qed.

End ChunkSize.

(** ** Tallies keyed by labels *)

(** A dict whose keys are labels read from records, and whose values are
    counts. A key can be any hashable value; [1], [1.0] and [True] are the
    same key, and the key stored is the first one met. (Two values that
    are not numbers are told apart by type; the not-a-number value of the
    JSON reader is one object, hence one key.) *)
Module Tally.

Definition hashable (v : pyval) : bool :=
  match v with
  | PList _ | PDict _ => false
  | _ => true
  end.

Definition num_eq (a b : Num.num) : bool :=
  match a, b with
  | Num.NInt x, Num.NInt y => (x =? y)%Z
  | Num.NInt x, Num.NFloat q | Num.NFloat q, Num.NInt x =>
      Qeq_bool (inject_Z x) q
  | Num.NFloat p, Num.NFloat q => Qeq_bool p q
  | Num.NNonFinite PosInf, Num.NNonFinite PosInf => true
  | Num.NNonFinite NegInf, Num.NNonFinite NegInf => true
  | Num.NNonFinite NaN, Num.NNonFinite NaN => true
  | _, _ => false
  end.

Definition key_eq (a b : pyval) : bool :=
  match a, b with
  | PStr s, PStr t => eqs s t
  | PNone, PNone => true
  | _, _ =>
      match Num.as_num a, Num.as_num b with
      | Some x, Some y => num_eq x y
      | _, _ => false
      end
  end.

(** [d[k] = d.get(k, 0) + 1] *)
Fixpoint bump (k : pyval) (d : list (pyval * nat)) : list (pyval * nat) :=
  match d with
  | [] => [(k, 1)]
  | (k', n) :: d' =>
      if key_eq k k' then (k', S n) :: d' else (k', n) :: bump k d'
  end.

(** [d.get(k, 0)] *)
Fixpoint count_of (k : pyval) (d : list (pyval * nat)) : nat :=
  match d with
  | [] => 0
  | (k', n) :: d' => if key_eq k k' then n else count_of k d'
  end.

(** The same, for a key that may be unhashable. *)
Definition tally (k : pyval) (d : list (pyval * nat))
  : outcome (list (pyval * nat)) :=
  if hashable k then Ok (bump k d) else Raise TypeError.

(** [sum(d.values())] *)
Fixpoint total (d : list (pyval * nat)) : nat :=
  match d with
  | [] => 0
  | (_, n) :: d' => n + total d'
  end.

End Tally.

(** ** agents/extract_agent.py: statistics *)

Module ExtractStatistics.

Record statistics : Type := {
  total_questions : nat;
  question_types : list (pyval * nat);
  patterns_used : list (pyval * nat)
}.

Definition no_statistics : statistics :=
  {| total_questions := 0; question_types := []; patterns_used := [] |}.

Fixpoint tally_questions (questions : list pyval)
  (types patterns : list (pyval * nat))
  : outcome (list (pyval * nat) * list (pyval * nat)) :=
  match questions with
  | [] => Ok (types, patterns)
  | question :: rest =>
      do q_type <- py_get (lit "type") (PStr (lit "unknown")) question in
      do pattern <- py_get (lit "pattern_used") (PStr (lit "unknown")) question in
      do types' <- Tally.tally q_type types in
      do patterns' <- Tally.tally pattern patterns in
      tally_questions rest types' patterns'
  end.

Definition get_question_statistics (questions : list pyval) : statistics :=
  match questions with
  | [] => no_statistics
  | _ :: _ =>
      match tally_questions questions [] [] with
      | Ok (types, patterns) =>
          {| total_questions := length questions;
             question_types := types;
             patterns_used := patterns |}
      | _ => no_statistics
      end
  end.

End ExtractStatistics.

(** One step through a sequence of calls that returned. *)
Ltac step_bind H :=
  match type of H with
  | bind ?c _ = Ok _ =>
      let E := fresh "E" in
      destruct c eqn:E; cbn [bind] in H; try discriminate H
  end.

Section QuestionStatistics.
Import ExtractStatistics.

Lemma total_bump (k : pyval) (d : list (pyval * nat)) :
  Tally.total (Tally.bump k d) = S (Tally.total d).
Proof.
  induction d as [|[k' n] d IH]; [reflexivity|]. cbn [Tally.bump].
  destruct (Tally.key_eq k k'); cbn [Tally.total]; lia.
Qed.

Lemma count_of_bump (k : pyval) (d : list (pyval * nat)) :
  Tally.key_eq k k = true ->
  Tally.count_of k (Tally.bump k d) = S (Tally.count_of k d).
Proof.
  intros Hk. induction d as [|[k0 n] d IH]; cbn [Tally.bump Tally.count_of].
  - now rewrite Hk.
  - destruct (Tally.key_eq k k0) eqn:E; cbn [Tally.count_of]; now rewrite E.
Qed.

Lemma tally_questions_total (questions : list pyval) :
  forall types patterns types' patterns',
    tally_questions questions types patterns = Ok (types', patterns') ->
    Tally.total types' = Tally.total types + length questions
    /\ Tally.total patterns' = Tally.total patterns + length questions.
Proof.
  induction questions as [|q rest IH]; intros types patterns types' patterns'.
  - intros [= <- <-]. cbn [length]. lia.
  - cbn [tally_questions]. intros Ht. do 2 step_bind Ht.
    unfold Tally.tally in Ht.
    destruct (Tally.hashable a); cbn [bind] in Ht; [|discriminate].
    destruct (Tally.hashable a0); cbn [bind] in Ht; [|discriminate].
    apply IH in Ht as [H1 H2]. rewrite !total_bump in *. cbn [length]. lia.
Qed.

(** X5: in the record of [get_question_statistics] the counts by type add
    up to [total_questions], and so do the counts by pattern; the total is
    the number of questions, or 0 when the list is empty or a question
    cannot be read (it is no dict, or its label is unhashable). *)
Theorem question_statistics_add_up (questions : list pyval) :
  Tally.total (question_types (get_question_statistics questions))
  = total_questions (get_question_statistics questions)
  /\ Tally.total (patterns_used (get_question_statistics questions))
     = total_questions (get_question_statistics questions)
  /\ (total_questions (get_question_statistics questions) = length questions
      \/ get_question_statistics questions = no_statistics)
  /\ (forall ds : list dict,
        (forall d v, In d ds ->
           dict_get (lit "type") d = Some v
           \/ dict_get (lit "pattern_used") d = Some v ->
           Tally.hashable v = true) ->
        total_questions (get_question_statistics (map PDict ds)) = length ds).
Proof.
  assert (forall qs,
            Tally.total (question_types (get_question_statistics qs))
            = total_questions (get_question_statistics qs)
            /\ Tally.total (patterns_used (get_question_statistics qs))
               = total_questions (get_question_statistics qs)
            /\ (total_questions (get_question_statistics qs) = length qs
                \/ get_question_statistics qs = no_statistics)) as Hsum.
  { intros qs. unfold get_question_statistics. destruct qs as [|q rest].
    - repeat split; auto.
    - destruct (tally_questions (q :: rest) [] []) as [[types patterns]| |] eqn:E;
        [|repeat split; auto..].
      apply tally_questions_total in E as [H1 H2].
      cbn [question_types patterns_used total_questions].
      cbn [Tally.total] in H1, H2. repeat split; auto. }
  destruct (Hsum questions) as (H1 & H2 & H3).
  repeat split; try assumption.
  intros ds Hds. unfold get_question_statistics.
  destruct ds as [|d0 ds0]; [reflexivity|]. cbn [map].
  change (PDict d0 :: map PDict ds0) with (map PDict (d0 :: ds0)).
  assert (forall ds types patterns,
            (forall d v, In d ds ->
               dict_get (lit "type") d = Some v
               \/ dict_get (lit "pattern_used") d = Some v ->
               Tally.hashable v = true) ->
            exists r, tally_questions (map PDict ds) types patterns = Ok r)
    as Hok.
  { clear. induction ds as [|d ds IH]; intros types patterns Hds.
    - cbn. eauto.
    - cbn [map tally_questions py_get bind]. unfold Tally.tally.
      assert (Tally.hashable (dict_get_or (lit "type") (PStr (lit "unknown")) d)
              = true) as ->.
      { unfold dict_get_or. destruct (dict_get (lit "type") d) as [v|] eqn:E;
          [|reflexivity].
        apply (Hds d v); [now left|now left]. }
      assert (Tally.hashable
                (dict_get_or (lit "pattern_used") (PStr (lit "unknown")) d)
              = true) as ->.
      { unfold dict_get_or.
        destruct (dict_get (lit "pattern_used") d) as [v|] eqn:E;
          [|reflexivity].
        apply (Hds d v); [now left|now right]. }
      cbn [bind]. apply IH. intros d' v Hin. apply Hds. now right. }
  destruct (Hok (d0 :: ds0) [] [] Hds) as [[types patterns] ->].
  cbn [total_questions]. now rewrite length_map.
Qed.

End QuestionStatistics.

(** ** What the reply clean-up returns *)

Section CleanedReply.
Import Mapping.

Lemma parses_true (candidate : str) :
  parses candidate = Ok true -> exists v, Json.loads candidate = Ok v.
Proof.
  unfold parses. destruct (Json.loads candidate) as [v| |]; try discriminate.
  intros _. now exists v.
Qed.

Lemma first_parsing_parses (candidates : list str) (c : str) :
  first_parsing candidates = Ok (Some c) -> exists v, Json.loads c = Ok v.
Proof.
  induction candidates as [|x rest IH]; cbn [first_parsing]; [discriminate|].
  destruct (parses x) as [[|]| |] eqn:Hx; cbn [bind]; try discriminate.
  - intros [= <-]. now apply parses_true.
  - exact IH.
Qed.

Lemma find_char_none (c : char) (s : str) :
  (forall x, In x s -> eqc x c = false) -> find_char c s = None.
Proof.
  induction s as [|x s IH]; intros Hs; [reflexivity|]. cbn [find_char].
  rewrite (Hs x) by now left. rewrite IH; [reflexivity|].
  intros y Hy. apply Hs. now right.
Qed.

(** A substitution that only deletes leaves characters of the text. *)
Lemma sub_go_deletes (m : Re.matcher) :
  (forall prev s n r, m prev s = Some (n, r) -> r = []) ->
  forall s prev skip x, In x (Re.sub_go m prev skip s) -> In x s.
Proof.
  intros Hm. induction s as [|c s IH]; intros prev skip x; [easy|].
  cbn [Re.sub_go]. destruct skip as [|k].
  - destruct (m prev (c :: s)) as [[[|n] r]|] eqn:E.
    + cbn [In]. intros [<-|Hx]; [now left|]. right. now apply IH in Hx.
    + rewrite (Hm _ _ _ _ E). cbn [app]. intros Hx. right. now apply IH in Hx.
    + cbn [In]. intros [<-|Hx]; [now left|]. right. now apply IH in Hx.
  - intros Hx. right. now apply IH in Hx.
Qed.

Lemma literal_then_blanks_deletes (literal : str) :
  forall prev s n r, Re.literal_then_blanks literal prev s = Some (n, r) -> r = [].
Proof.
  intros prev s n r. unfold Re.literal_then_blanks.
  destruct (startswith literal s); [|discriminate]. now intros [= _ <-].
Qed.

Lemma findall_go_no_brace (s : str) :
  (forall x, In x s -> eqc x "{"%char = false) ->
  forall prev, Re.findall_go Re.balanced_braces prev 0 s = [].
Proof.
  induction s as [|c s IH]; intros Hs prev; [reflexivity|].
  cbn [Re.findall_go Re.balanced_braces]. rewrite (Hs c) by now left.
  apply IH. intros y Hy. apply Hs. now right.
Qed.

Lemma find_first (c : char) (s : str) : py_find c (c :: s) = 0%Z.
Proof. unfold py_find. cbn [find_char]. now rewrite eqc_refl. Qed.

Lemma rfind_last (c : char) (s : str) :
  py_rfind c (s ++ [c]) = (Z.of_nat (length s))%Z.
Proof.
  unfold py_rfind. rewrite rev_app_distr. cbn [rev app find_char].
  rewrite eqc_refl, length_app. cbn [length]. lia.
Qed.

Lemma slice_whole (s : str) : slice 0 (Z.of_nat (length s)) s = s.
Proof.
  unfold slice. rewrite Z.sub_0_r, Nat2Z.id. change (Z.to_nat 0) with 0.
  cbn [skipn]. apply firstn_all.
Qed.

(** Method 1: the text from the first opening brace to the last closing
    brace is returned when it parses. *)
Lemma first_method (response : str) :
  let candidate :=
    slice (py_find "{"%char response) (py_rfind "}"%char response + 1)
      response in
  has_braces (py_find "{"%char response) (py_rfind "}"%char response + 1)
  = true ->
  parses candidate = Ok true ->
  _clean_json_response response = Ok (Some candidate).
Proof.
  cbv zeta. intros Hb Hp. unfold _clean_json_response. cbv zeta.
  now rewrite Hb, Hp.
Qed.

(** X6: what [_clean_json_response] returns is a text that [json.loads]
    accepts; a reply without an opening brace gives [None]; and a reply
    that is one JSON object, from its opening to its closing brace, is
    returned as it is. *)
Theorem cleaned_reply_parses :
  (forall response candidate,
     _clean_json_response response = Ok (Some candidate) ->
     exists v, Json.loads candidate = Ok v)
  /\ (forall response,
        (forall c, In c response -> eqc c "{"%char = false) ->
        _clean_json_response response = Ok None)
  /\ (forall body v,
        Json.loads ("{"%char :: body ++ ["}"%char]) = Ok v ->
        _clean_json_response ("{"%char :: body ++ ["}"%char])
        = Ok (Some ("{"%char :: body ++ ["}"%char]))).
Proof.
  split; [|split].
  - intros response candidate. unfold _clean_json_response. cbv zeta.
    repeat match goal with
           | |- bind (if ?b then parses ?c else Ok false) _ = _ -> _ =>
               let E := fresh "E" in
               destruct b;
               [destruct (parses c) as [[|]| |] eqn:E; cbn [bind];
                try discriminate;
                [intros [= <-]; now apply parses_true|]
               |cbn [bind]]
           | |- bind (parses ?c) _ = _ -> _ =>
               let E := fresh "E" in
               destruct (parses c) as [[|]| |] eqn:E; cbn [bind];
               try discriminate;
               [intros [= <-]; now apply parses_true|]
           end;
      apply first_parsing_parses.
  - intros response Hno. unfold _clean_json_response. cbv zeta.
    assert (py_find "{"%char response = (-1)%Z) as ->
      by (unfold py_find; now rewrite find_char_none).
    assert (py_find "{"%char
              (Re.sub (Re.literal_then_blanks (lit "```"))
                 (Re.sub (Re.literal_then_blanks (lit "```json")) response))
            = (-1)%Z) as ->.
    { unfold py_find. rewrite find_char_none; [reflexivity|].
      intros x Hx. apply Hno. unfold Re.sub in Hx.
      apply (sub_go_deletes _ (literal_then_blanks_deletes _)) in Hx.
      now apply (sub_go_deletes _ (literal_then_blanks_deletes _)) in Hx. }
    unfold has_braces. cbn [Z.eqb negb andb bind].
    unfold Re.findall. now rewrite findall_go_no_brace.
  - intros body v Hv.
    set (r := "{"%char :: body ++ ["}"%char]) in *.
    assert (py_find "{"%char r = 0%Z) as Hfind by apply find_first.
    assert (py_rfind "}"%char r + 1 = Z.of_nat (length r))%Z as Hrfind.
    { subst r. change ("{"%char :: body ++ ["}"%char])
        with (("{"%char :: body) ++ ["}"%char]).
      rewrite rfind_last, length_app. cbn [length]. lia. }
    pose proof (first_method r) as Hfirst. cbv zeta in Hfirst.
    rewrite Hfind, Hrfind, slice_whole in Hfirst. apply Hfirst.
    + unfold has_braces. apply andb_true_iff. split; [reflexivity|].
      apply Z.ltb_lt. subst r. cbn [length]. lia.
    + unfold parses. now rewrite Hv.
Qed.

End CleanedReply.

(** ** The reply parser: what it absorbs and what it returns *)

Ltac has_key :=
  repeat first
    [ assumption
    | apply dict_has_setdefault_same
    | apply dict_has_set_same
    | apply dict_has_setdefault_mono
    | apply dict_has_set_mono ].

Section ParsedReply.
Import Mapping.
Context `{Service}.

(** X7: [_parse_comprehensive_ai_response_robust] returns a mapping or
    [None] for every reply and question, and raises nothing; so does
    [_map_single_question_comprehensive], whatever the service replies,
    once the prompt is built. *)
Theorem reply_parsing_never_raises :
  (forall call response question,
     exists r,
       _parse_comprehensive_ai_response_robust call response question = Ok r)
  /\ (forall call question uoc_data assessment,
        answers (_create_simplified_mapping_prompt question uoc_data assessment) ->
        exists r,
          _map_single_question_comprehensive call question uoc_data assessment
          = Ok r).
Proof.
  split.
  - apply parse_reply_returns.
  - intros call question uoc_data assessment.
    apply map_single_question_returns.
Qed.

(** The sections of a completed mapping. *)
Definition mapping_sections : list str :=
  map lit [ "question_text"; "question_choices"; "assessment_type";
            "bloom_taxonomy"; "asqa_quality_assessment"; "mapping_analysis";
            "overall_assessment"; "comprehensive_analysis";
            "mapping_statistics" ]%string.

Lemma filter_empty_mappings_has (mapping_data completed : dict) (k : str) :
  _filter_empty_mappings mapping_data = Ok completed ->
  dict_has k mapping_data = true -> dict_has k completed = true.
Proof.
  unfold _filter_empty_mappings.
  destruct (dict_get (lit "mapping_analysis") mapping_data); [|now intros [= <-]].
  destruct (filter_analysis p) as [filtered| |]; try discriminate.
  cbn [bind]. intros [= <-] Hk. now apply dict_has_set_mono.
Qed.

Lemma ensure_complete_has (mapping_data question completed : dict) (k : str) :
  _ensure_complete_mapping_structure mapping_data question = Ok completed ->
  dict_has k mapping_data = true \/ In k mapping_sections ->
  dict_has k completed = true.
Proof.
  unfold _ensure_complete_mapping_structure. cbv zeta.
  destruct (dict_get (lit "mapping_analysis") _) as [[| | | | | | |ma]|];
    try discriminate.
  destruct (_clean_mapping_ids (with_all_lists ma)) as [cleaned| |];
    try discriminate; cbn [bind].
  destruct (_log_id_validation_issues cleaned) as [issues| |];
    try discriminate; cbn [bind].
  destruct (_calculate_mapping_statistics cleaned) as [stats| |];
    try discriminate; cbn [bind].
  intros Hf Hk. apply (filter_empty_mappings_has _ _ _ Hf).
  destruct Hk as [Hk|Hk]; [has_key|].
  unfold mapping_sections in Hk. cbn [map In] in Hk.
  repeat destruct Hk as [<-|Hk]; try contradiction; has_key.
Qed.

(** X8: a mapping that [_parse_comprehensive_ai_response_robust] accepts
    holds every section the later stages read (the question text and
    choices, the assessment type, the taxonomy, the quality assessment, the
    mapping analysis, the overall and comprehensive assessments, the
    statistics), the question id of the reply, the audit trail of the call
    and the source mark ['ai']. *)
Theorem accepted_mapping_is_complete (call : nat) (response : str)
  (question m : dict) :
  _parse_comprehensive_ai_response_robust call response question = Ok (Some m) ->
  Forall (fun k => dict_has k m = true) (lit "question_id" :: mapping_sections)
  /\ dict_get (lit "mapping_source") m = Some (PStr (lit "ai"))
  /\ dict_get (lit "audit_trail") m = Some (audit_trail call).
Proof.
  unfold _parse_comprehensive_ai_response_robust.
  destruct (_clean_json_response response) as [[cleaned|]| |];
    cbn [bind try_except]; try discriminate.
  destruct (nonempty cleaned); cbn [negb]; [|discriminate].
  destruct (Json.loads cleaned) as [mapping_data| |];
    cbn [bind try_except]; try discriminate.
  destruct (_validate_basic_mapping_structure mapping_data) as [[|]| |] eqn:Ev;
    cbn [bind try_except]; try discriminate.
  destruct mapping_data as [| | | | | | |d]; cbn [try_except]; try discriminate.
  destruct (_ensure_complete_mapping_structure d question) as [completed| |]
    eqn:Ec; cbn [bind try_except]; try discriminate.
  intros [= <-].
  destruct (validated_reply _ Ev d eq_refl) as (Hq & _).
  split; [|split].
  - apply List.Forall_forall. intros k [<-|Hk]; do 2 apply dict_has_set_mono.
    + apply (ensure_complete_has _ _ _ _ Ec). now left.
    + apply (ensure_complete_has _ _ _ _ Ec). now right.
  - apply dict_get_set_same.
  - rewrite dict_get_set_other by reflexivity. apply dict_get_set_same.
Qed.

End ParsedReply.

Lemma accepted_mapping_is_complete_witness :
  Forall (fun k => dict_has k accepted_mapping = true)
    (lit "question_id" :: mapping_sections)
  /\ dict_get (lit "mapping_source") accepted_mapping = Some (PStr (lit "ai"))
  /\ dict_get (lit "audit_trail") accepted_mapping
     = Some (@Mapping.audit_trail (canned_service two_lists_reply) 0).
Proof.
  apply (@accepted_mapping_is_complete (canned_service two_lists_reply) 0
           two_lists_reply hand_hygiene_question accepted_mapping).
  vm_compute. reflexivity.
Defined.

(** ** The identifiers after the clean-up *)

Section CleanedIdentifiers.
Import Mapping.








End CleanedIdentifiers.

(** ** The items left by the filter *)

Section FilteredItems.
Import Mapping.

(** The lists [_filter_empty_mappings] goes through, each with the two
    fields an item must have. *)
Definition filter_table : list (str * str * str) :=
  [ (lit "mapped_elements", lit "element_id", lit "element_description");
    (lit "mapped_performance_criteria", lit "criterion_id",
     lit "criterion_description");
    (lit "mapped_performance_evidence", lit "evidence_id",
     lit "evidence_description");
    (lit "mapped_knowledge_evidence", lit "evidence_id",
     lit "evidence_description") ].

(** The item has an identifier and a description, and neither is empty. *)
Definition described (id_key description_key : str) (item : pyval) : bool :=
  match keeps id_key description_key item with
  | Ok true => true
  | _ => false
  end.

Lemma filter_outcome_filter (id_key description_key : str)
  (items kept : list pyval) :
  filter_outcome (keeps id_key description_key) items = Ok kept ->
  kept = List.filter (described id_key description_key) items.
Proof.
  revert kept. induction items as [|item items IH]; intros kept;
    cbn [filter_outcome List.filter].
  - now intros [= <-].
  - unfold described at 1.
    destruct (keeps id_key description_key item) as [b| |]; try discriminate.
    cbn [bind].
    destruct (filter_outcome _ items) as [rest| |]; try discriminate.
    cbn [bind]. intros [= <-]. rewrite (IH rest eq_refl). now destruct b.
Qed.

Lemma filter_category_filters (category id_key description_key : str)
  (d : dict) (r : pyval) :
  filter_category category id_key description_key (PDict d) = Ok r ->
  exists d',
    r = PDict d'
    /\ (forall k, eqs k category = false -> dict_get k d' = dict_get k d)
    /\ (forall items,
          dict_get category d = Some (PList items) ->
          dict_get category d'
          = Some (PList (List.filter (described id_key description_key) items))).
Proof.
  unfold filter_category. cbn [py_in bind py_getitem]. unfold dict_has.
  destruct (dict_get category d) as [value|] eqn:Hv.
  2:{ intros [= <-]. exists d. repeat split. intros items. discriminate. }
  cbn [bind]. destruct (py_iter value) as [its| |] eqn:Hi; try discriminate.
  cbn [bind].
  destruct (filter_outcome _ its) as [kept| |] eqn:Hk; try discriminate.
  cbn [bind]. intros [= <-]. eexists. split; [reflexivity|]. split.
  - intros k Hne. now apply dict_get_set_other.
  - intros items [= ->]. cbn [py_iter] in Hi. injection Hi as <-.
    rewrite dict_get_set_same. now rewrite (filter_outcome_filter _ _ _ _ Hk).
Qed.

Lemma filter_analysis_filters (d : dict) (r : pyval) :
  filter_analysis (PDict d) = Ok r ->
  exists d',
    r = PDict d'
    /\ forall category id_key description_key items,
         In (category, id_key, description_key) filter_table ->
         dict_get category d = Some (PList items) ->
         dict_get category d'
         = Some (PList (List.filter (described id_key description_key) items)).
Proof.
  unfold filter_analysis. intros Hf.
  step_bind Hf. apply filter_category_filters in E as (d1 & -> & K1 & F1).
  step_bind Hf. apply filter_category_filters in E as (d2 & -> & K2 & F2).
  step_bind Hf. apply filter_category_filters in E as (d3 & -> & K3 & F3).
  apply filter_category_filters in Hf as (d4 & -> & K4 & F4).
  exists d4. split; [reflexivity|].
  intros category id_key description_key items Hin Hget.
  unfold filter_table in Hin. cbn [In] in Hin.
  destruct Hin as [[= <- <- <-]|[[= <- <- <-]|[[= <- <- <-]|[[= <- <- <-]|[]]]]].
  - rewrite K4, K3, K2 by reflexivity. now apply F1.
  - rewrite K4, K3 by reflexivity. apply F2. now rewrite K1.
  - rewrite K4 by reflexivity. apply F3. now rewrite K2, K1.
  - apply F4. now rewrite K3, K2, K1.
Qed.

(** X10: in each of the four lists [_filter_empty_mappings] leaves exactly
    the items that have an identifier and a description, neither of them
    empty, in their order; a mapping without ['mapping_analysis'] is
    returned as it is. *)
Theorem filter_keeps_described_items :
  (forall mapping_data mapping_data' ma,
     _filter_empty_mappings mapping_data = Ok mapping_data' ->
     dict_get (lit "mapping_analysis") mapping_data = Some (PDict ma) ->
     exists ma',
       dict_get (lit "mapping_analysis") mapping_data' = Some (PDict ma')
       /\ forall category id_key description_key items,
            In (category, id_key, description_key) filter_table ->
            dict_get category ma = Some (PList items) ->
            dict_get category ma'
            = Some (PList (List.filter (described id_key description_key)
                             items)))
  /\ (forall mapping_data,
        dict_has (lit "mapping_analysis") mapping_data = false ->
        _filter_empty_mappings mapping_data = Ok mapping_data).
Proof.
  split.
  - intros mapping_data mapping_data' ma. unfold _filter_empty_mappings.
    intros Hf Hma. rewrite Hma in Hf.
    destruct (filter_analysis (PDict ma)) as [filtered| |] eqn:Ef;
      try discriminate.
    cbn [bind] in Hf. injection Hf as <-.
    apply filter_analysis_filters in Ef as (ma' & -> & Hall).
    exists ma'. split; [apply dict_get_set_same|exact Hall].
  - intros mapping_data Hno. unfold _filter_empty_mappings.
    unfold dict_has in Hno.
    now destruct (dict_get (lit "mapping_analysis") mapping_data).
Qed.

(** A mapping with one element item without a description. *)
Definition mapping_with_bare_item : dict :=
  [ (lit "question_id", PStr (lit "Q1"));
    (lit "mapping_analysis",
     PDict [ (lit "mapped_elements",
              PList [ PDict [ (lit "element_id", PStr (lit "E1"));
                              (lit "element_description",
                               PStr (lit "Prepare for work")) ];
                      PDict [ (lit "element_id", PStr (lit "E2")) ] ]) ]) ].

Definition mapping_without_bare_item : dict :=
  [ (lit "question_id", PStr (lit "Q1"));
    (lit "mapping_analysis",
     PDict [ (lit "mapped_elements",
              PList [ PDict [ (lit "element_id", PStr (lit "E1"));
                              (lit "element_description",
                               PStr (lit "Prepare for work")) ] ]) ]) ].

Lemma filter_keeps_described_items_witness :
  exists ma',
    dict_get (lit "mapping_analysis") mapping_without_bare_item
    = Some (PDict ma')
    /\ forall category id_key description_key items,
         In (category, id_key, description_key) filter_table ->
         dict_get category
           [ (lit "mapped_elements",
              PList [ PDict [ (lit "element_id", PStr (lit "E1"));
                              (lit "element_description",
                               PStr (lit "Prepare for work")) ];
                      PDict [ (lit "element_id", PStr (lit "E2")) ] ]) ]
         = Some (PList items) ->
         dict_get category ma'
         = Some (PList (List.filter (described id_key description_key) items)).
Proof.
  apply (proj1 filter_keeps_described_items mapping_with_bare_item).
  - vm_compute. reflexivity.
  - reflexivity.
Defined.

End FilteredItems.

(** ** The statistics of one mapping *)

Section MappingStatistics.
Import Mapping.

Lemma py_len_iter (v : pyval) (n : nat) (items : list pyval) :
  py_len v = Ok n -> py_iter v = Ok items -> length items = n.
Proof.
  destruct v; try discriminate; cbn [py_len py_iter];
    intros [= <-] [= <-]; now rewrite ?length_map.
Qed.

(** The items counted under the three compliance levels. *)
Definition graded (t : tally) : nat :=
  full_compliance t + partial_compliance t + minimal_compliance t.

Lemma tally_item_graded (t t' : tally) (item : pyval) :
  tally_item t item = Ok t' ->
  graded t' = S (graded t) /\ total_mappings t' = total_mappings t.
Proof.
  unfold tally_item. intros Ht. step_bind Ht.
  destruct (Num.as_num a); [|discriminate]. do 2 step_bind Ht.
  injection Ht as <-. unfold graded.
  cbn [full_compliance partial_compliance minimal_compliance total_mappings].
  split; [|reflexivity].
  repeat match goal with
         | |- context [str_is ?w a1] => destruct (str_is w a1)
         end; cbn [negb andb orb]; lia.
Qed.

Lemma tally_items_graded (items : list pyval) :
  forall t t',
    tally_items t items = Ok t' ->
    graded t' = graded t + length items
    /\ total_mappings t' = total_mappings t.
Proof.
  induction items as [|item items IH]; intros t t'; cbn [tally_items].
  - intros [= <-]. cbn [length]. lia.
  - intros Ht. step_bind Ht. apply tally_item_graded in E as [E1 E2].
    apply IH in Ht as [H1 H2]. cbn [length]. lia.
Qed.

(** [len(v)], 0 where [v] has no length. *)
Definition size_of (v : pyval) : nat :=
  match py_len v with
  | Ok n => n
  | _ => 0
  end.

(** The number of items of a mapping analysis in the lists [cats]. *)
Fixpoint items_in (cats : list str) (mapping_analysis : dict) : nat :=
  match cats with
  | [] => 0
  | category :: rest =>
      size_of (dict_get_or category (PList []) mapping_analysis)
      + items_in rest mapping_analysis
  end.

Lemma tally_categories_graded (cats : list str) (ma : dict) :
  forall t t',
    tally_categories t cats ma = Ok t' ->
    graded t' = graded t + items_in cats ma
    /\ total_mappings t' = total_mappings t + items_in cats ma.
Proof.
  induction cats as [|category cats IH]; intros t t'; cbn [tally_categories].
  - intros [= <-]. cbn [items_in]. lia.
  - intros Ht. do 3 step_bind Ht.
    apply tally_items_graded in E1 as [G1 T1].
    apply IH in Ht as [G2 T2]. cbn [items_in]. unfold size_of. rewrite E.
    pose proof (py_len_iter _ _ _ E E0) as Hlen.
    unfold graded in *.
    cbn [full_compliance partial_compliance minimal_compliance total_mappings]
      in *.
    lia.
Qed.

(** X11: in the record of [_calculate_mapping_statistics] the three
    compliance counts add up to [total_mappings], which is the number of
    items of the four lists; when there is no item the average confidence
    is 0 and nothing is divided. *)
Theorem compliance_counts_add_up (mapping_analysis : dict) (stats : pyval) :
  _calculate_mapping_statistics mapping_analysis = Ok stats ->
  exists full partial minimal average,
    stats
    = PDict
        [ (lit "total_mappings", count (items_in categories mapping_analysis));
          (lit "average_confidence", average);
          (lit "asqa_compliance_distribution",
           PDict [ (lit "full", count full);
                   (lit "partial", count partial);
                   (lit "minimal", count minimal) ]) ]
    /\ full + partial + minimal = items_in categories mapping_analysis
    /\ (items_in categories mapping_analysis = 0 -> average = PInt 0).
Proof.
  unfold _calculate_mapping_statistics. intros Hs. step_bind Hs.
  apply tally_categories_graded in E as [Hg Ht].
  unfold graded in Hg.
  cbn [full_compliance partial_compliance minimal_compliance total_mappings]
    in Hg, Ht.
  cbn [Nat.add] in Hg, Ht. injection Hs as <-. rewrite Ht.
  do 4 eexists. split; [reflexivity|]. split; [exact Hg|].
  intros ->. reflexivity.
Qed.

Lemma compliance_counts_add_up_witness :
  exists full partial minimal average,
    PDict
      [ (lit "total_mappings", PInt 4);
        (lit "average_confidence", PFloat (0 # 1000));
        (lit "asqa_compliance_distribution",
         PDict [ (lit "full", PInt 0);
                 (lit "partial", PInt 0);
                 (lit "minimal", PInt 4) ]) ]
    = PDict
        [ (lit "total_mappings", count (items_in categories cleaned_analysis));
          (lit "average_confidence", average);
          (lit "asqa_compliance_distribution",
           PDict [ (lit "full", count full);
                   (lit "partial", count partial);
                   (lit "minimal", count minimal) ]) ]
    /\ full + partial + minimal = items_in categories cleaned_analysis
    /\ (items_in categories cleaned_analysis = 0 -> average = PInt 0).
Proof.
  apply (compliance_counts_add_up cleaned_analysis).
  vm_compute. reflexivity.
Defined.

End MappingStatistics.

(** ** A batch that succeeds *)

Section BatchResult.
Import Mapping.
Context `{Service}.

(** The mapping the batch keeps for question [q] at call [i]. *)
Definition kept_mapping (uoc_data : pyval) (assessment : str) (i : nat)
  (q : dict) (mapping : pyval) : Prop :=
  exists m,
    _map_single_question_comprehensive i q uoc_data assessment = Ok (Some m)
    /\ mapping = PDict (dict_set (lit "mapping_source") (PStr (lit "ai")) m).

Lemma map_all_returns (uoc_data : pyval) (assessment : str) :
  forall (qs : list dict) (call : nat) (done all : list pyval),
    map_all call qs uoc_data assessment done = Ok all ->
    exists ms,
      all = done ++ ms
      /\ length ms = length qs
      /\ forall i q,
           nth_error qs i = Some q ->
           exists mapping,
             nth_error ms i = Some mapping
             /\ kept_mapping uoc_data assessment (call + i) q mapping.
Proof.
  induction qs as [|q0 qs IH]; intros call done all; cbn [map_all].
  - intros [= <-]. exists []. rewrite app_nil_r. repeat split.
    intros [|i] q; discriminate.
  - intros Hall. step_bind Hall. destruct a as [[|kv m]|]; try discriminate.
    apply IH in Hall as (ms & -> & Hlen & Hnth).
    eexists (_ :: ms). rewrite <- app_assoc. split; [reflexivity|].
    split; [cbn [length]; now rewrite Hlen|].
    intros [|i] q Hq.
    + injection Hq as <-. eexists. split; [reflexivity|].
      rewrite Nat.add_0_r. eexists. split; [exact E|reflexivity].
    + destruct (Hnth i q Hq) as (mapping & Hm & Hk). exists mapping.
      split; [exact Hm|]. now rewrite Nat.add_succ_r.
Qed.

(** X12: when [execute] returns, an API key was given, the result holds
    one mapping for each question, in the order of the questions, the
    mapping at position [i] being the one the [i]-th call gave, marked
    with the source ['ai']; [total_questions] is the number of questions,
    the assessment type is the one passed in, and the analysis is that of
    the mappings returned. *)
Theorem batch_returns_one_mapping_per_question (api_key : str)
  (qs : list dict) (uoc_data : pyval) (assessment : str) (r : batch_result) :
  execute api_key qs uoc_data assessment = Ok r ->
  nonempty api_key = true
  /\ length (mappings r) = length qs
  /\ total_questions r = length qs
  /\ assessment_type r = assessment
  /\ _analyze_mapping_coverage (mappings r) uoc_data = Ok (analysis r)
  /\ forall i q,
       nth_error qs i = Some q ->
       exists mapping,
         nth_error (mappings r) i = Some mapping
         /\ kept_mapping uoc_data assessment i q mapping.
Proof.
  unfold execute. destruct (nonempty api_key); cbn [negb try_except];
    [|discriminate].
  destruct (map_all 0 qs uoc_data assessment []) as [all| |] eqn:Hall;
    cbn [bind try_except]; try discriminate.
  destruct (_analyze_mapping_coverage all uoc_data) as [a| |] eqn:Ha;
    cbn [bind try_except]; try discriminate.
  intros [= <-]. cbn [mappings total_questions assessment_type analysis].
  apply map_all_returns in Hall as (ms & -> & Hlen & Hnth).
  cbn [app] in *. repeat split; assumption.
Qed.

End BatchResult.

Definition empty_coverage : Mapping.coverage :=
  {| Mapping.mapped := 0; Mapping.total := 0; Mapping.percentage := 0;
     Mapping.unmapped := [] |}.

(** The result of the batch of one question, answered with
    [two_lists_reply]. *)
Definition one_question_batch : Mapping.batch_result :=
  Eval vm_compute in
  match @Mapping.execute (canned_service two_lists_reply) (lit "key")
          [hand_hygiene_question] (unit_with_elements 3) (lit "Mixed") with
  | Ok r => r
  | _ => {| Mapping.mappings := [];
            Mapping.analysis :=
              {| Mapping.elements_coverage := empty_coverage;
                 Mapping.performance_criteria_coverage := empty_coverage;
                 Mapping.performance_evidence_coverage := empty_coverage;
                 Mapping.knowledge_evidence_coverage := empty_coverage;
                 Mapping.insights := PNone |};
            Mapping.assessment_type := [];
            Mapping.total_questions := 0 |}
  end.

Lemma batch_returns_one_mapping_per_question_witness :
  length (Mapping.mappings one_question_batch) = 1
  /\ Mapping.total_questions one_question_batch = 1.
Proof.
  destruct (@batch_returns_one_mapping_per_question
              (canned_service two_lists_reply) (lit "key")
              [hand_hygiene_question] (unit_with_elements 3) (lit "Mixed")
              one_question_batch)
    as (_ & Hlen & Htotal & _).
  - vm_compute. reflexivity.
  - split; [exact Hlen|exact Htotal].
Defined.

(** ** The coverage record of a kind *)

Section CoverageRecord.
Import Mapping.

Lemma tenths_bounds (mapped total : nat) :
  0 < total ->
  (0 <= tenths mapped total)%Z
  /\ (mapped <= total -> (tenths mapped total <= 1000)%Z)
  /\ (total <= mapped -> (1000 <= tenths mapped total)%Z).
Proof.
  intros Ht. repeat split.
  - rewrite <- (tenths_zero total Ht). apply tenths_mono; lia.
  - intros Hm. rewrite <- (tenths_full total Ht). now apply tenths_mono.
  - intros Hm. rewrite <- (tenths_full total Ht). now apply tenths_mono.
Qed.

Lemma unmapped_loop_length (mapped_set : gset str) (id_field : str) :
  forall components entries,
    unmapped_loop components mapped_set id_field = Ok entries ->
    length entries <= length components.
Proof.
  induction components as [|c components IH]; intros entries; cbn [unmapped_loop].
  - intros [= <-]. reflexivity.
  - intros Hl. step_bind Hl. step_bind Hl. step_bind Hl. step_bind Hl.
    injection Hl as <-. specialize (IH a2 eq_refl). rewrite length_app.
    cbn [length].
    enough (length a1 <= 1) by lia.
    destruct a0.
    + step_bind E1. step_bind E1. step_bind E1. injection E1 as <-.
      reflexivity.
    + injection E1 as <-. cbn [length]. lia.
Qed.

Lemma iter_length (v : pyval) (items : list pyval) (n : nat) :
  py_iter v = Ok items -> py_len v = Ok n -> length items = n.
Proof.
  destruct v; cbn [py_iter py_len]; try discriminate;
    intros [= <-] [= <-]; now rewrite ?length_map.
Qed.

(** X13: in the coverage record of a kind the percentage is never
    negative; it is 0 when the unit has no component of the kind (nothing
    is divided), at most 100 when no more codes are mapped than the unit
    has components, 100 when the two numbers agree, and at least 100 when
    more codes are mapped than the unit has; the list of unmapped
    components is never longer than the list of components. *)
Theorem coverage_record_is_bounded (k : kind) (ms : list pyval)
  (uoc_data : pyval) (c : coverage) :
  coverage_of_kind k ms uoc_data = Ok c ->
  (0 <= percentage c)%Q
  /\ (total c = 0 -> percentage c = 0%Q)
  /\ (mapped c <= total c -> (percentage c <= 100)%Q)
  /\ (0 < total c -> mapped c = total c -> (percentage c == 100)%Q)
  /\ (0 < total c <= mapped c -> (100 <= percentage c)%Q)
  /\ length (unmapped c) <= total c.
Proof.
  unfold coverage_of_kind. intros Hc.
  step_bind Hc. step_bind Hc. step_bind Hc. step_bind Hc.
  injection Hc as <-. cbn [percentage total mapped unmapped].
  assert (length a2 <= a1) as Hlen.
  { unfold _identify_unmapped_components in E2. step_bind E2.
    apply unmapped_loop_length in E2. now rewrite <- (iter_length _ _ _ E3 E1). }
  destruct a1 as [|t].
  - repeat split; try easy; lia.
  - pose proof (tenths_bounds (size a) (S t) ltac:(lia)) as (H0 & H1 & H2).
    rewrite coverage_percentage_tenths by lia.
    unfold Qle, Qeq. cbn [Qnum Qden].
    repeat split; lia || discriminate.
Qed.

End CoverageRecord.

Lemma coverage_record_is_bounded_witness :
  (Mapping.percentage (Mapping.elements_coverage one_mapping_of_three) <= 100)%Q.
Proof.
  refine (proj1 (proj2 (proj2
            (coverage_record_is_bounded Mapping.Element [first_element_mapping]
               (unit_with_elements 3)
               (Mapping.elements_coverage one_mapping_of_three) _))) _).
  - vm_compute. reflexivity.
  - vm_compute. lia.
Defined.

(** ** The list of unmapped components *)

Section UnmappedComponents.
Import Mapping.

(** [component.get(id_field, '')] of a component that is a dict. *)
Definition component_id (id_field : str) (component : pyval) : pyval :=
  match component with
  | PDict d => dict_get_or id_field (PStr []) d
  | _ => PNone
  end.

(** A component that [_identify_unmapped_components] reports: its id is
    truthy and, when a string, not among the mapped codes. *)
Definition reported (mapped_set : gset str) (id_field : str)
  (component : pyval) : bool :=
  match component_id id_field component with
  | PStr s => nonempty s && negb (bool_decide (s ∈ mapped_set))
  | other => truthy other
  end.

(** The entry written for a reported component. *)
Definition gap_entry (id_field : str) (component entry : pyval) : Prop :=
  exists priority suggested,
    _assess_component_priority component = Ok priority
    /\ _generate_suggested_questions component = Ok suggested
    /\ entry = PDict [ (lit "id", component_id id_field component);
                       (lit "description",
                        component_id (lit "description") component);
                       (lit "priority", priority);
                       (lit "suggested_questions", suggested) ].

Lemma unmapped_loop_entries (mapped_set : gset str) (id_field : str) :
  forall components entries,
    unmapped_loop components mapped_set id_field = Ok entries ->
    Forall2 (gap_entry id_field)
      (List.filter (reported mapped_set id_field) components) entries.
Proof.
  induction components as [|c components IH]; intros entries;
    cbn [unmapped_loop List.filter].
  - intros [= <-]. constructor.
  - intros Hl. step_bind Hl. step_bind Hl. step_bind Hl. step_bind Hl.
    injection Hl as <-. specialize (IH a2 eq_refl).
    destruct c; cbn [py_get] in E; try discriminate. injection E as <-.
    assert (a0 = reported mapped_set id_field (PDict d)) as ->.
    { unfold reported, component_id. unfold is_unmapped in E0.
      destruct (dict_get_or id_field (PStr []) d) as [| | | | |s|[|x l]|[|kv m]];
        cbn [truthy] in *; congruence. }
    destruct (reported mapped_set id_field (PDict d)).
    + step_bind E1. step_bind E1. step_bind E1. injection E1 as <-.
      cbn [app]. constructor; [|exact IH].
      match goal with
      | Hd : py_get (lit "description") _ _ = Ok _,
        Hp : _assess_component_priority _ = Ok ?p,
        Hs : _generate_suggested_questions _ = Ok ?g |- _ =>
          exists p, g; cbn [py_get] in Hd; injection Hd as <-;
          repeat split; assumption
      end.
    + injection E1 as <-. exact IH.
Qed.

(** X14: the entries of [_identify_unmapped_components] are, in the order
    of the components, those of the components whose id is non-empty and
    not among the mapped codes, one entry each, with the id and the
    description of the component; a component whose code is mapped, or that
    has no id, is never listed. *)
Theorem unmapped_entries_are_the_gaps (components : list pyval)
  (mapped_set : gset str) (id_field : str) (entries : list pyval) :
  _identify_unmapped_components (PList components) mapped_set id_field
  = Ok entries ->
  Forall2 (gap_entry id_field)
    (List.filter (reported mapped_set id_field) components) entries
  /\ forall entry code,
       In entry entries ->
       py_get (lit "id") PNone entry = Ok (PStr code) ->
       code <> [] /\ code ∉ mapped_set.
Proof.
  unfold _identify_unmapped_components. cbn [py_iter bind]. intros Hl.
  apply unmapped_loop_entries in Hl. split; [exact Hl|].
  intros entry code Hin Hid.
  assert (exists c, In c (List.filter (reported mapped_set id_field) components)
                    /\ gap_entry id_field c entry) as (c & Hc & Hg).
  { clear Hid. induction Hl as [|c e cs es Hce Hl IH]; [destruct Hin|].
    destruct Hin as [<-|Hin].
    - exists c. split; [now left|exact Hce].
    - destruct (IH Hin) as (c' & Hc' & Hg). exists c'. split; [now right|exact Hg]. }
  apply List.filter_In in Hc as [_ Hr].
  destruct Hg as (priority & suggested & _ & _ & ->).
  change (Ok (component_id id_field c) = Ok (PStr code)) in Hid.
  injection Hid as Hid. unfold reported in Hr. rewrite Hid in Hr.
  apply andb_prop in Hr as [Hn Hm]. split.
  - intros ->. discriminate.
  - apply negb_true_iff, bool_decide_eq_false in Hm. exact Hm.
Qed.

End UnmappedComponents.

Definition sample_criteria : list pyval :=
  [ PDict [ (lit "code", PStr (lit "PC1.1"));
            (lit "description", PStr (lit "Must follow hand hygiene")) ];
    PDict [ (lit "code", PStr (lit "PC1.2"));
            (lit "description", PStr (lit "Knowledge of gloves")) ];
    PDict [ (lit "description", PStr (lit "No code")) ] ].

Definition sample_gaps : list pyval :=
  Eval vm_compute in
  match Mapping._identify_unmapped_components (PList sample_criteria)
          {[ lit "PC1.2" ]} (lit "code") with
  | Ok entries => entries
  | _ => []
  end.

Lemma unmapped_entries_are_the_gaps_witness :
  Forall2 (gap_entry (lit "code"))
    (List.filter (reported {[ lit "PC1.2" ]} (lit "code")) sample_criteria)
    sample_gaps
  /\ length sample_gaps = 1.
Proof.
  split; [|reflexivity].
  apply (unmapped_entries_are_the_gaps sample_criteria {[ lit "PC1.2" ]}
           (lit "code") sample_gaps).
  vm_compute. reflexivity.
Defined.

(** ** The remediation tasks of a session *)

Section RemediationTasks.
Import Validation.

(** [mapping.get('question_id')] *)
Definition question_id_of (mapping : pyval) : pyval :=
  match mapping with
  | PDict d => dict_get_or (lit "question_id") PNone d
  | _ => PNone
  end.

(** [not has_ke and not has_pe] for a mapping. *)
Definition lacks_evidence (mapping : pyval) : bool :=
  match mapping with
  | PDict d =>
      match dict_get_or (lit "mapping_analysis") (PDict []) d with
      | PDict ma =>
          negb (truthy (dict_get_or (lit "mapped_knowledge_evidence") PNone ma))
          && negb (truthy (dict_get_or (lit "mapped_performance_evidence") PNone ma))
      | _ => false
      end
  | _ => false
  end.

(** [mapping.get('assessment_type', 'KBA') == method] *)
Definition method_is (method : str) (mapping : pyval) : bool :=
  match mapping with
  | PDict d =>
      match dict_get_or (lit "assessment_type") (PStr (lit "KBA")) d with
      | PStr s => eqs method s
      | _ => false
      end
  | _ => false
  end.

Lemma count_of_bumped (k k' : str) (d : list (str * nat)) :
  count_of k (bump k' d) = count_of k d + (if eqs k k' then 1 else 0).
Proof.
  induction d as [|[k0 n] d IH]; cbn [bump count_of].
  - destruct (eqs k k'); reflexivity.
  - destruct (eqs k' k0) eqn:E'.
    + apply eqs_eq in E'. subst k0. cbn [count_of].
      destruct (eqs k k'); lia.
    + cbn [count_of]. destruct (eqs k k0) eqn:E; [|exact IH].
      destruct (eqs k k') eqn:E2; [|lia].
      apply eqs_eq in E, E2. subst. now rewrite eqs_refl in E'.
Qed.

Lemma analyse_mapping_tallies (t t' : tallies) (mapping : pyval) :
  analyse_mapping t mapping = Ok t' ->
  missing_evidence_qids t'
  = missing_evidence_qids t
    ++ (if lacks_evidence mapping then [question_id_of mapping] else [])
  /\ forall method,
       count_of method (assessment_methods t')
       = count_of method (assessment_methods t)
         + (if method_is method mapping then 1 else 0).
Proof.
  unfold analyse_mapping. intros Ha.
  destruct mapping as [| | | | | | |d]; try discriminate Ha.
  cbn [py_get bind] in Ha.
  step_bind Ha. step_bind Ha. step_bind Ha. cbn [bind] in Ha.
  destruct (dict_get_or (lit "mapping_analysis") (PDict []) d)
    as [| | | | | | |ma] eqn:Hma; try discriminate Ha.
  cbn [py_get bind] in Ha.
  do 7 step_bind Ha. injection Ha as <-.
  cbn [missing_evidence_qids assessment_methods]. split.
  - unfold lacks_evidence, question_id_of. rewrite Hma. reflexivity.
  - intros method. rewrite count_of_bumped. unfold method_is.
    unfold as_str in E. 
    destruct (dict_get_or (lit "assessment_type") (PStr (lit "KBA")) d);
      try discriminate E. injection E as <-. reflexivity.
Qed.

Lemma analyse_mappings_tallies (mappings : list pyval) :
  forall t t',
    analyse_mappings t mappings = Ok t' ->
    missing_evidence_qids t'
    = missing_evidence_qids t
      ++ map question_id_of (List.filter lacks_evidence mappings)
    /\ forall method,
         count_of method (assessment_methods t')
         = count_of method (assessment_methods t)
           + length (List.filter (method_is method) mappings).
Proof.
  induction mappings as [|mapping rest IH]; intros t t' Ha.
  - injection Ha as <-. cbn. rewrite app_nil_r. split; [reflexivity|].
    intros; lia.
  - cbn [analyse_mappings] in Ha. step_bind Ha.
    apply analyse_mapping_tallies in E as [Hm Hc].
    apply IH in Ha as [Hm' Hc']. split.
    + rewrite Hm', Hm, <- app_assoc. f_equal. cbn [List.filter].
      destruct (lacks_evidence mapping); reflexivity.
    + intros method. rewrite Hc', Hc. cbn [List.filter].
      destruct (method_is method mapping); cbn [length]; lia.
Qed.

Definition task_id (x : pyval) : option pyval := task_field (lit "id") x.

(** The tasks of a session, one case for each place that appends one. *)
Ltac fixed_task Hin :=
  unfold remediation_tasks_of in Hin; cbv zeta in Hin;
  repeat (apply in_app_or in Hin as [Hin|Hin]);
  [ let k := fresh "k" in
    let e := fresh "e" in
    let Hx := fresh "Hx" in
    apply element_tasks_in in Hin as (k & e & _ & _ & Hx); subst
  | repeat match type of Hin with
           | In _ (if ?b then _ else _) => destruct b eqn:?
           | In _ (match ?l with [] => _ | _ :: _ => _ end) => destruct l eqn:?
           end;
    cbn [In] in Hin; try contradiction;
    let Hx := fresh "Hx" in
    destruct Hin as [Hx|[]]; subst .. ].

Lemma evidence_task_in (t : tallies) (n : nat) (x : pyval) :
  In x (remediation_tasks_of t n) ->
  task_id x = Some (PStr (lit "remed_evidence_alignment")) ->
  missing_evidence_qids t <> []
  /\ task_field (lit "impacted_questions") x
     = Some (PList (missing_evidence_qids t))
  /\ task_field (lit "severity") x = Some (PStr (lit "high")).
Proof.
  intros Hin Hid. fixed_task Hin; vm_compute in Hid; try discriminate Hid.
  split; [discriminate|]. split; reflexivity.
Qed.

Lemma evidence_task_due (t : tallies) (n : nat) :
  missing_evidence_qids t <> [] ->
  exists x,
    In x (remediation_tasks_of t n)
    /\ task_id x = Some (PStr (lit "remed_evidence_alignment")).
Proof.
  intros Hm. unfold remediation_tasks_of. cbv zeta.
  destruct (missing_evidence_qids t) as [|q qs]; [contradiction|].
  eexists. split.
  - apply in_or_app; right. apply in_or_app; right. apply in_or_app; right.
    apply in_or_app; left. left. reflexivity.
  - reflexivity.
Qed.

(** X15: [analyze_coverage_quality] emits the task
    [remed_evidence_alignment] exactly when some mapping of the session has
    neither knowledge evidence nor performance evidence; the task is of
    high severity and its impacted questions are the ids of those
    mappings, in the order of the session. *)
Theorem evidence_task_lists_unaligned_questions (session_data : pyval)
  (r : coverage_quality) :
  analyze_coverage_quality session_data = Ok r ->
  exists mappings,
    actual_mappings_of session_data = Ok mappings
    /\ ((exists x, In x (remediation_tasks r)
                   /\ task_id x = Some (PStr (lit "remed_evidence_alignment")))
        <-> exists mapping, In mapping mappings /\ lacks_evidence mapping = true)
    /\ forall x,
         In x (remediation_tasks r) ->
         task_id x = Some (PStr (lit "remed_evidence_alignment")) ->
         task_field (lit "impacted_questions") x
         = Some (PList (map question_id_of
                          (List.filter lacks_evidence mappings)))
         /\ task_field (lit "severity") x = Some (PStr (lit "high")).
Proof.
  unfold analyze_coverage_quality. intros Ha. step_bind Ha. step_bind Ha.
  injection Ha as <-. cbn [remediation_tasks].
  apply analyse_mappings_tallies in E0 as [Hm _]. cbn [app] in Hm.
  change (missing_evidence_qids no_tallies) with (@nil pyval) in Hm.
  cbn [app] in Hm.
  exists a. split; [reflexivity|]. split; [split|].
  - intros (x & Hin & Hid).
    destruct (evidence_task_in _ _ _ Hin Hid) as (Hne & _).
    rewrite Hm in Hne.
    destruct (List.filter lacks_evidence a) as [|m ms] eqn:Hf; [easy|].
    exists m. apply List.filter_In. rewrite Hf. now left.
  - intros (m & Hin & Hl). apply evidence_task_due. rewrite Hm.
    assert (In m (List.filter lacks_evidence a)) as Hf
      by now apply List.filter_In.
    destruct (List.filter lacks_evidence a); [destruct Hf|discriminate].
  - intros x Hin Hid.
    destruct (evidence_task_in _ _ _ Hin Hid) as (_ & Hq & Hs).
    rewrite Hm in Hq. now split.
Qed.

Lemma pep_task_in (t : tallies) (n : nat) (x : pyval) :
  In x (remediation_tasks_of t n) ->
  task_id x = Some (PStr (lit "remed_method_pep")) ->
  5 * count_of (lit "PEP") (assessment_methods t) < Nat.max 1 n.
Proof.
  intros Hin Hid. fixed_task Hin; vm_compute in Hid; try discriminate Hid.
  now apply Nat.ltb_lt.
Qed.

Lemma pep_task_due (t : tallies) (n : nat) :
  5 * count_of (lit "PEP") (assessment_methods t) < Nat.max 1 n ->
  exists x,
    In x (remediation_tasks_of t n)
    /\ task_id x = Some (PStr (lit "remed_method_pep")).
Proof.
  intros Hm. apply Nat.ltb_lt in Hm. unfold remediation_tasks_of. cbv zeta.
  rewrite Hm. eexists. split.
  - apply in_or_app; right. apply in_or_app; left. left. reflexivity.
  - reflexivity.
Qed.

(** X16: [analyze_coverage_quality] emits the task [remed_method_pep]
    exactly when the mappings whose assessment type is ['PEP'] are fewer
    than a fifth of the mappings of the session, the number of mappings
    being taken as 1 when there is none; so a session without mappings
    always gets the task. *)
Theorem pep_task_iff_below_a_fifth (session_data : pyval)
  (r : coverage_quality) :
  analyze_coverage_quality session_data = Ok r ->
  exists mappings,
    actual_mappings_of session_data = Ok mappings
    /\ ((exists x, In x (remediation_tasks r)
                   /\ task_id x = Some (PStr (lit "remed_method_pep")))
        <-> 5 * length (List.filter (method_is (lit "PEP")) mappings)
            < Nat.max 1 (length mappings))
    /\ (mappings = [] ->
        exists x, In x (remediation_tasks r)
                  /\ task_id x = Some (PStr (lit "remed_method_pep"))).
Proof.
  unfold analyze_coverage_quality. intros Ha. step_bind Ha. step_bind Ha.
  injection Ha as <-. cbn [remediation_tasks].
  apply analyse_mappings_tallies in E0 as [_ Hc].
  specialize (Hc (lit "PEP")).
  change (count_of (lit "PEP") (assessment_methods no_tallies)) with 0 in Hc.
  cbn [Nat.add] in Hc.
  exists a. split; [reflexivity|]. split; [split|].
  - intros (x & Hin & Hid). rewrite <- Hc. exact (pep_task_in _ _ _ Hin Hid).
  - intros Hlt. apply pep_task_due. now rewrite Hc.
  - intros ->. apply pep_task_due. rewrite Hc. cbn. lia.
Qed.

Lemma fresh_not_in (k : str) (d : list (str * element_entry)) :
  fresh k d = true -> ~ In k (map fst d).
Proof.
  unfold fresh. induction d as [|[k0 e0] d IH]; cbn [forallb map fst In];
    [easy|].
  intros Hf [->|Hin]; apply andb_true_iff in Hf as [H0 Hd].
  - now rewrite eqs_refl in H0.
  - now apply IH.
Qed.

Definition element_task_id (k : str) : option pyval :=
  Some (PStr (lit "remed_element_" ++ k)).

Lemma element_task_ids (d : list (str * element_entry)) :
  distinct d = true ->
  List.NoDup (map task_id (element_tasks d))
  /\ forall x, In x (map task_id (element_tasks d)) ->
               exists k, In k (map fst d) /\ x = element_task_id k.
Proof.
  unfold element_tasks.
  induction d as [|[k e] d IH]; cbn [distinct flat_map map fst snd].
  - intros _. split; [constructor|intros x []].
  - intros Hd. apply andb_true_iff in Hd as [Hf Hd].
    destruct (IH Hd) as [Hn Hin]. apply fresh_not_in in Hf.
    destruct (count e <? 2); cbn [app map].
    + split.
      * constructor; [|exact Hn]. intros Hx.
        destruct (Hin _ Hx) as (k' & Hk' & Heq).
        change (task_id (element_task k e)) with (element_task_id k) in Heq.
        unfold element_task_id in Heq. injection Heq as Heq.
        now subst k'.
      * intros x [<-|Hx].
        -- exists k. split; [now left|reflexivity].
        -- destruct (Hin _ Hx) as (k' & Hk' & ->). exists k'.
           split; [now right|reflexivity].
    + split; [exact Hn|]. intros x Hx.
      destruct (Hin _ Hx) as (k' & Hk' & ->). exists k'.
      split; [now right|reflexivity].
Qed.

(** X17: the remediation tasks of a session carry pairwise distinct ids:
    one task at most for an element, and one at most of each of the four
    other kinds, none of which is taken for that of an element. *)
Theorem remediation_task_ids_are_distinct (session_data : pyval)
  (r : coverage_quality) :
  analyze_coverage_quality session_data = Ok r ->
  List.NoDup (map task_id (remediation_tasks r)).
Proof.
  unfold analyze_coverage_quality. intros Ha. step_bind Ha. step_bind Ha.
  injection Ha as <-. cbn [remediation_tasks].
  apply analyse_mappings_counts in E0 as (ids & _ & _ & Hsound).
  destruct Hsound as [Hdistinct _]; [split; [reflexivity|constructor]|].
  destruct (element_task_ids _ Hdistinct) as [Hn Hin].
  unfold remediation_tasks_of. cbv zeta. rewrite map_app.
  apply List.NoDup_app; [exact Hn| |].
  - repeat match goal with
           | |- context [if ?b then _ else _] => destruct b
           | |- context [match ?l with [] => _ | _ :: _ => _ end] => destruct l
           end;
      vm_compute; repeat constructor; cbn [In]; intuition discriminate.
  - intros x Hx Hrest. destruct (Hin _ Hx) as (k & _ & ->).
    repeat match type of Hrest with
           | context [if ?b then _ else _] => destruct b
           | context [match ?l with [] => _ | _ :: _ => _ end] => destruct l
           end;
      vm_compute in Hrest; intuition discriminate.
Qed.

End RemediationTasks.

Lemma evidence_task_lists_unaligned_questions_witness :
  exists x,
    In x (Validation.remediation_tasks quality_of_uncovered_session)
    /\ task_id x = Some (PStr (lit "remed_evidence_alignment")).
Proof.
  destruct (evidence_task_lists_unaligned_questions
              session_with_uncovered_element quality_of_uncovered_session)
    as (mappings & Hm & [_ Hdue] & _).
  - vm_compute. reflexivity.
  - vm_compute in Hm. injection Hm as <-. apply Hdue.
    exists first_element_mapping. split; [now left|reflexivity].
Defined.

Lemma pep_task_iff_below_a_fifth_witness :
  exists x,
    In x (Validation.remediation_tasks quality_of_uncovered_session)
    /\ task_id x = Some (PStr (lit "remed_method_pep")).
Proof.
  destruct (pep_task_iff_below_a_fifth
              session_with_uncovered_element quality_of_uncovered_session)
    as (mappings & Hm & [_ Hdue] & _).
  - vm_compute. reflexivity.
  - vm_compute in Hm. injection Hm as <-. apply Hdue. vm_compute. lia.
Defined.

Lemma remediation_task_ids_are_distinct_witness :
  List.NoDup
    (map task_id (Validation.remediation_tasks quality_of_uncovered_session)).
Proof.
  apply (remediation_task_ids_are_distinct session_with_uncovered_element).
  vm_compute. reflexivity.
Defined.

(** ** agents/validation_agent.py: consensus of a thread *)

Module Consensus.

(** [agreement_scores.count('agree')] *)
Definition agree_count (agreement_scores : list pyval) : nat :=
  length (List.filter (Mapping.str_is (lit "agree")) agreement_scores).

(** [_calculate_consensus]. The tests [agree_count / total_count >= 0.8],
    [>= 0.6] and [>= 0.4] are [5 * agree_count >= 4 * total_count] and so
    on: for lists of fewer than [2^50] entries the float of the quotient
    is below the float of a threshold exactly when the quotient is below
    the threshold. *)
Definition _calculate_consensus (agreement_scores : list pyval) : str :=
  match agreement_scores with
  | [] => lit "no_feedback"
  | _ :: _ =>
      let agree_count := agree_count agreement_scores in
      let total_count := length agreement_scores in
      if 4 * total_count <=? 5 * agree_count then lit "strong_consensus"
      else if 3 * total_count <=? 5 * agree_count then lit "moderate_consensus"
      else if 2 * total_count <=? 5 * agree_count then lit "weak_consensus"
      else lit "no_consensus"
  end.

End Consensus.

Section ConsensusLevel.
Import Consensus.

(** The levels of consensus, from none to strong. *)
Definition strength (level : str) : nat :=
  if eqs level (lit "strong_consensus") then 3
  else if eqs level (lit "moderate_consensus") then 2
  else if eqs level (lit "weak_consensus") then 1
  else 0.

Lemma agree_count_app (a b : list pyval) :
  agree_count (a ++ b) = agree_count a + agree_count b.
Proof. unfold agree_count. now rewrite List.filter_app, length_app. Qed.

Lemma agree_count_le (a : list pyval) : agree_count a <= length a.
Proof. apply List.filter_length_le. Qed.

(** The level for [agree] entries among [total]. *)
Definition grade (agree total : nat) : nat :=
  if 4 * total <=? 5 * agree then 3
  else if 3 * total <=? 5 * agree then 2
  else if 2 * total <=? 5 * agree then 1
  else 0.

Lemma strength_consensus (first : pyval) (others : list pyval) :
  strength (_calculate_consensus (first :: others))
  = grade (agree_count (first :: others)) (length (first :: others)).
Proof.
  unfold _calculate_consensus, grade. cbv zeta.
  generalize (agree_count (first :: others)), (length (first :: others)).
  intros a n.
  destruct (4 * n <=? 5 * a); [reflexivity|].
  destruct (3 * n <=? 5 * a); [reflexivity|].
  destruct (2 * n <=? 5 * a); reflexivity.
Qed.

Lemma grade_grows (a n : nat) : grade a n <= grade (S a) (S n).
Proof.
  unfold grade.
  repeat match goal with
         | |- context [?x <=? ?y] => destruct (Nat.leb_spec x y)
         end; lia.
Qed.

Lemma grade_falls (a n : nat) : grade a (S n) <= grade a n.
Proof.
  unfold grade.
  repeat match goal with
         | |- context [?x <=? ?y] => destruct (Nat.leb_spec x y)
         end; lia.
Qed.

(** X18: [_calculate_consensus] answers ['no_feedback'] for the empty list
    only; on a thread with feedback one more ['agree'] never lowers the
    level and one more entry that is not ['agree'] never raises it; the
    level is ['strong_consensus'] when every entry is ['agree'] and
    ['no_consensus'] when none is. *)
Theorem consensus_follows_agreement (first : pyval) (others : list pyval) :
  let scores := first :: others in
  _calculate_consensus [] = lit "no_feedback"
  /\ _calculate_consensus scores <> lit "no_feedback"
  /\ strength (_calculate_consensus scores)
     <= strength (_calculate_consensus (scores ++ [PStr (lit "agree")]))
  /\ (forall entry,
        Mapping.str_is (lit "agree") entry = false ->
        strength (_calculate_consensus (scores ++ [entry]))
        <= strength (_calculate_consensus scores))
  /\ (agree_count scores = length scores ->
      _calculate_consensus scores = lit "strong_consensus")
  /\ (agree_count scores = 0 ->
      _calculate_consensus scores = lit "no_consensus").
Proof.
  intros scores.
  assert (forall x,
            strength (_calculate_consensus (scores ++ [x]))
            = grade (agree_count scores
                     + (if Mapping.str_is (lit "agree") x then 1 else 0))
                (S (length scores))) as Hmore.
  { intros x. change (scores ++ [x]) with (first :: (others ++ [x])).
    rewrite strength_consensus.
    change (first :: others ++ [x]) with (scores ++ [x]).
    rewrite agree_count_app, length_app. cbn [length].
    rewrite Nat.add_1_r. f_equal. f_equal. unfold agree_count.
    cbn [List.filter]. now destruct (Mapping.str_is (lit "agree") x). }
  split; [reflexivity|]. split; [|split; [|split; [|split]]].
  - subst scores. unfold _calculate_consensus. cbv zeta.
    repeat match goal with
           | |- context [if ?b then _ else _] => destruct b
           end; discriminate.
  - rewrite Hmore. subst scores. rewrite strength_consensus.
    change (Mapping.str_is (lit "agree") (PStr (lit "agree"))) with true.
    rewrite Nat.add_1_r. apply grade_grows.
  - intros entry He. rewrite Hmore, He, Nat.add_0_r. subst scores.
    rewrite strength_consensus. apply grade_falls.
  - subst scores. unfold _calculate_consensus. cbv zeta. intros ->.
    destruct (Nat.leb_spec (4 * length (first :: others))
                (5 * length (first :: others))); [reflexivity|lia].
  - subst scores. unfold _calculate_consensus. cbv zeta. intros ->.
    cbn [length]. 
    repeat match goal with
           | |- context [?x <=? ?y] => destruct (Nat.leb_spec x y)
           end; try lia. reflexivity.
Qed.

End ConsensusLevel.

(** ** agents/validation_agent.py: competency progression *)

Module Progression.

Record skill_levels : Type := {
  foundation_knowledge : Z;
  applied_skills : Z;
  workplace_integration : Z
}.

Record progression : Type := {
  bloom_distribution : list (pyval * nat);
  progression_gaps : list str;
  skill_level_analysis : skill_levels
}.

(** [mapping.get('bloom_taxonomy', {}).get('primary_level', 'REMEMBER')] *)
Definition primary_level (mapping : pyval) : outcome pyval :=
  do bloom <- py_get (lit "bloom_taxonomy") (PDict []) mapping in
  py_get (lit "primary_level") (PStr (lit "REMEMBER")) bloom.

Fixpoint tally_levels (mappings : list pyval) (d : list (pyval * nat))
  : outcome (list (pyval * nat)) :=
  match mappings with
  | [] => Ok d
  | mapping :: rest =>
      do bloom_level <- primary_level mapping in
      do d' <- Tally.tally bloom_level d in
      tally_levels rest d'
  end.

(** [_analyze_competency_progression]. The tests against
    [total_questions * 0.8] and [total_questions * 0.3] are written on
    integers, [5 * x > 4 * total] and [10 * x < 3 * total]: the float of
    either product is the product itself when that is a whole number, and
    lies on the same side of every whole number otherwise (for fewer than
    [2^50] mappings). *)
Definition _analyze_competency_progression (mappings : list pyval)
  : outcome progression :=
  do distribution <- tally_levels mappings [] in
  let total_questions := Z.of_nat (length mappings) in
  let count_of level := Z.of_nat (Tally.count_of (PStr (lit level)) distribution) in
  let remember_count := count_of "REMEMBER"%string in
  let understand_count := count_of "UNDERSTAND"%string in
  let apply_count := count_of "APPLY"%string in
  let analyze_count := count_of "ANALYZE"%string in
  Ok {| bloom_distribution := distribution;
        progression_gaps :=
          (if (4 * total_questions <? 5 * (remember_count + understand_count))%Z
           then [ lit "Too many lower-order thinking questions";
                  lit "Need more application and analysis questions" ]
           else [])
          ++ (if (10 * (apply_count + analyze_count) <? 3 * total_questions)%Z
              then [ lit "Insufficient higher-order thinking assessment" ]
              else []);
        skill_level_analysis :=
          {| foundation_knowledge := (remember_count + understand_count)%Z;
             applied_skills := (apply_count + analyze_count)%Z;
             workplace_integration :=
               (total_questions
                - (remember_count + understand_count
                   + apply_count + analyze_count))%Z |} |}.

End Progression.

Section SkillLevels.
Import Progression.

(** The level of a mapping is the string [level]. *)
Definition level_is (level : string) (mapping : pyval) : bool :=
  match primary_level mapping with
  | Ok v => Mapping.str_is (lit level) v
  | _ => false
  end.

Lemma key_eq_str (s : str) (v : pyval) :
  Tally.key_eq (PStr s) v = Mapping.str_is s v.
Proof. destruct v; reflexivity. Qed.

Lemma key_eq_str_r (s : str) (v : pyval) :
  Tally.key_eq v (PStr s) = Mapping.str_is s v.
Proof. destruct v; try reflexivity. cbn. apply eqs_sym. Qed.

Lemma str_is_eq (s : str) (v : pyval) :
  Mapping.str_is s v = true -> v = PStr s.
Proof.
  destruct v; try discriminate. cbn. intros E. apply eqs_eq in E. now subst.
Qed.

Lemma count_of_str_bump (s : str) (k : pyval) (d : list (pyval * nat)) :
  Tally.count_of (PStr s) (Tally.bump k d)
  = Tally.count_of (PStr s) d + (if Mapping.str_is s k then 1 else 0).
Proof.
  induction d as [|[k0 n] d IH]; cbn [Tally.bump Tally.count_of].
  - rewrite key_eq_str. destruct (Mapping.str_is s k); reflexivity.
  - destruct (Tally.key_eq k k0) eqn:E'; cbn [Tally.count_of].
    + rewrite key_eq_str.
      destruct (Mapping.str_is s k0) eqn:E0.
      * apply str_is_eq in E0. subst k0. rewrite key_eq_str_r in E'.
        rewrite E'. lia.
      * destruct (Mapping.str_is s k) eqn:Ek; [|lia].
        apply str_is_eq in Ek. subst k. rewrite key_eq_str in E'. congruence.
    + rewrite key_eq_str. destruct (Mapping.str_is s k0) eqn:E0; [|exact IH].
      apply str_is_eq in E0. subst k0. rewrite key_eq_str_r in E'.
      rewrite E'. lia.
Qed.

Lemma tally_levels_counts (mappings : list pyval) :
  forall d d',
    tally_levels mappings d = Ok d' ->
    Tally.total d' = Tally.total d + length mappings
    /\ forall level,
         Tally.count_of (PStr (lit level)) d'
         = Tally.count_of (PStr (lit level)) d
           + length (List.filter (level_is level) mappings).
Proof.
  induction mappings as [|m rest IH]; intros d d'; cbn [tally_levels].
  - intros [= <-]. cbn. split; [lia|intros; lia].
  - intros Ht. step_bind Ht. step_bind Ht. unfold Tally.tally in E0.
    destruct (Tally.hashable a); [|discriminate]. injection E0 as <-.
    apply IH in Ht as [Htotal Hcount]. split.
    + rewrite Htotal, total_bump. cbn [length]. lia.
    + intros level. rewrite Hcount, count_of_str_bump. cbn [List.filter].
      unfold level_is at 2. rewrite E.
      destruct (Mapping.str_is (lit level) a); cbn [length]; lia.
Qed.

(** The mappings whose level is none of the four that are counted. *)
Definition other_level (mapping : pyval) : bool :=
  negb (level_is "REMEMBER" mapping || level_is "UNDERSTAND" mapping
        || level_is "APPLY" mapping || level_is "ANALYZE" mapping).

Lemma level_cases (m : pyval) :
  (if level_is "REMEMBER" m then 1 else 0)
  + (if level_is "UNDERSTAND" m then 1 else 0)
  + (if level_is "APPLY" m then 1 else 0)
  + (if level_is "ANALYZE" m then 1 else 0)
  + (if other_level m then 1 else 0) = 1.
Proof.
  unfold other_level, level_is.
  destruct (primary_level m) as [v| |]; try reflexivity.
  destruct v as [| | | | |s| |]; try reflexivity. cbn [Mapping.str_is].
  repeat match goal with
         | |- context [eqs (lit ?a) (lit ?b)] =>
             let r := eval vm_compute in (eqs (lit a) (lit b)) in
             change (eqs (lit a) (lit b)) with r
         | |- context [eqs (lit ?w) s] =>
             let E := fresh "E" in
             destruct (eqs (lit w) s) eqn:E;
             [apply eqs_eq in E; subst s|]
         end; reflexivity.
Qed.

Lemma filter_length_cons (p : pyval -> bool) (m : pyval) (rest : list pyval) :
  length (List.filter p (m :: rest))
  = (if p m then 1 else 0) + length (List.filter p rest).
Proof. cbn [List.filter]. now destruct (p m). Qed.

Lemma levels_partition (mappings : list pyval) :
  length (List.filter (level_is "REMEMBER") mappings)
  + length (List.filter (level_is "UNDERSTAND") mappings)
  + length (List.filter (level_is "APPLY") mappings)
  + length (List.filter (level_is "ANALYZE") mappings)
  + length (List.filter other_level mappings)
  = length mappings.
Proof.
  induction mappings as [|m rest IH]; [reflexivity|].
  rewrite !filter_length_cons. pose proof (level_cases m). cbn [length]. lia.
Qed.

(** X19: in the record of [_analyze_competency_progression] the three
    skill levels add up to the number of mappings; none is negative, and
    [workplace_integration] is the number of mappings whose level is none
    of REMEMBER, UNDERSTAND, APPLY and ANALYZE; the counts of the
    distribution add up to the number of mappings. *)
Theorem skill_levels_add_up (mappings : list pyval) (p : progression) :
  _analyze_competency_progression mappings = Ok p ->
  let levels := skill_level_analysis p in
  (foundation_knowledge levels + applied_skills levels
   + workplace_integration levels = Z.of_nat (length mappings))%Z
  /\ (0 <= foundation_knowledge levels)%Z
  /\ (0 <= applied_skills levels)%Z
  /\ workplace_integration levels
     = Z.of_nat (length (List.filter other_level mappings))
  /\ Tally.total (bloom_distribution p) = length mappings.
Proof.
  unfold _analyze_competency_progression. intros Hp. step_bind Hp.
  injection Hp as <-. cbv beta zeta.
  cbn [skill_level_analysis foundation_knowledge applied_skills
       workplace_integration bloom_distribution].
  apply tally_levels_counts in E as [Htotal Hcount].
  pose proof (levels_partition mappings) as Hpart.
  pose proof (Hcount "REMEMBER"%string) as H1.
  pose proof (Hcount "UNDERSTAND"%string) as H2.
  pose proof (Hcount "APPLY"%string) as H3.
  pose proof (Hcount "ANALYZE"%string) as H4.
  cbv [lit list_ascii_of_string] in H1, H2, H3, H4.
  cbn [Tally.count_of Tally.total] in *.
  repeat split; lia.
Qed.

End SkillLevels.

Definition three_level_mappings : list pyval :=
  [ PDict [ (lit "bloom_taxonomy",
             PDict [ (lit "primary_level", PStr (lit "APPLY")) ]) ];
    PDict [ (lit "bloom_taxonomy",
             PDict [ (lit "primary_level", PStr (lit "EVALUATE")) ]) ];
    PDict [] ].

Definition three_level_progression : Progression.progression :=
  Eval vm_compute in
  match Progression._analyze_competency_progression three_level_mappings with
  | Ok p => p
  | _ => {| Progression.bloom_distribution := [];
            Progression.progression_gaps := [];
            Progression.skill_level_analysis :=
              {| Progression.foundation_knowledge := 0;
                 Progression.applied_skills := 0;
                 Progression.workplace_integration := 0 |} |}
  end.

Lemma skill_levels_add_up_witness :
  Progression.workplace_integration
    (Progression.skill_level_analysis three_level_progression) = 1%Z
  /\ Tally.total (Progression.bloom_distribution three_level_progression) = 3.
Proof.
  destruct (skill_levels_add_up three_level_mappings three_level_progression)
    as (_ & _ & _ & Hw & Ht).
  - vm_compute. reflexivity.
  - split; [exact Hw|exact Ht].
Defined.
